(** * go-pkginstall: secure path transformation, deferred symlinks and
      maintainer-script validation

    A shallow embedding of the packages [security], [symlink] and [debian]
    of go-pkginstall.  Go strings are byte strings ([string], one [ascii]
    per byte); a Go [error] is [option string] holding the text of
    [err.Error()], with [None] for [nil]; a function with several results
    returns the tuple Go returns. *)

From Stdlib Require Import String Ascii List Bool Arith ZArith NArith Lia.
From Stdlib Require Import Permutation DecimalString.
Import ListNotations.

Local Open Scope list_scope.
Local Open Scope string_scope.

Set Implicit Arguments.

(** The Go [error] interface, seen through its message. *)
Definition error := option string.
Definition Errorf (msg : string) : error := Some msg.

(* ===================================================================== *)
(** ** Package strings *)
(* ===================================================================== *)

(** The functions of Go's standard library that the repository calls are
    modelled after the library's source: [strings], [path/filepath] for
    Unix, [unicode/utf8], [regexp] and [bufio]. *)

Module Strings.

(** [strings.HasPrefix(s, prefix)] *)
Fixpoint HasPrefix (s prefix : string) : bool :=
  match prefix, s with
  | EmptyString, _ => true
  | String _ _, EmptyString => false
  | String p prefix', String c s' => Ascii.eqb c p && HasPrefix s' prefix'
  end.

(** [strings.Contains(s, substr)] *)
Fixpoint Contains (s substr : string) : bool :=
  HasPrefix s substr ||
  match s with
  | EmptyString => false
  | String _ s' => Contains s' substr
  end.

(** [s[n:]] *)
Fixpoint drop (n : nat) (s : string) : string :=
  match n, s with
  | O, _ => s
  | S _, EmptyString => EmptyString
  | S n', String _ s' => drop n' s'
  end.

(** [strings.Replace(s, old, new, 1)]: only the first occurrence. *)
Fixpoint Replace1 (s old new : string) : string :=
  if HasPrefix s old then new ++ drop (String.length old) s
  else match s with
       | EmptyString => EmptyString
       | String c s' => String c (Replace1 s' old new)
       end.

(** [strings.Split(s, sep)] for a separator of one byte. *)
Fixpoint Split (s : string) (sep : ascii) : list string :=
  match s with
  | EmptyString => [EmptyString]
  | String c s' =>
      if Ascii.eqb c sep then EmptyString :: Split s' sep
      else match Split s' sep with
           | h :: t => String c h :: t
           | [] => [String c EmptyString]
           end
  end.

(** [strings.Join(elems, sep)] *)
Fixpoint Join (elems : list string) (sep : string) : string :=
  match elems with
  | [] => EmptyString
  | [e] => e
  | e :: rest => e ++ sep ++ Join rest sep
  end.

(** [strings.FieldsFunc(s, func(r) bool { return r == sep })]: the
    maximal runs of bytes other than [sep], empty runs dropped. *)
Definition FieldsFunc (s : string) (sep : ascii) : list string :=
  filter (fun f => negb (String.eqb f EmptyString)) (Split s sep).

End Strings.

(* ===================================================================== *)
(** ** Package path/filepath (Unix) *)
(* ===================================================================== *)

Module Filepath.
Import Strings.

Definition Separator : ascii := "/"%char.

(** [filepath.IsAbs] *)
Definition IsAbs (path : string) : bool := HasPrefix path "/".

(** One step of the loop of [filepath.Clean].  The loop reads the path
    element by element, an element being the bytes between two separators;
    [out] is the output buffer as the list of elements written so far,
    last element first.  An empty element and [.] are dropped; [..]
    removes the last element when there is one to remove ([out.w >
    dotdot]), is appended when the path is not rooted, and is dropped at
    the root; any other element is appended. *)
Definition clean_step (rooted : bool) (out : list string) (elem : string)
  : list string :=
  if String.eqb elem "" then out
  else if String.eqb elem "." then out
  else if String.eqb elem ".." then
    match out with
    | top :: rest =>
        if String.eqb top ".." then (if rooted then out else ".." :: out)
        else rest
    | [] => if rooted then [] else [".."]
    end
  else elem :: out.

(** [filepath.Clean]: the shortest path equivalent to [path] by purely
    lexical processing. *)
Definition Clean (path : string) : string :=
  if String.eqb path "" then "."
  else
    let rooted := HasPrefix path "/" in
    let out := fold_left (clean_step rooted) (Split path Separator) [] in
    if rooted then "/" ++ Join (rev out) "/"
    else match out with
         | [] => "."
         | _ => Join (rev out) "/"
         end.

(** The prefix of [path] up to and including its last separator. *)
Fixpoint upto_last_sep (path : string) : string :=
  match path with
  | EmptyString => EmptyString
  | String c s' =>
      if Contains path "/" then String c (upto_last_sep s')
      else EmptyString
  end.

(** [filepath.Dir] *)
Definition Dir (path : string) : string := Clean (upto_last_sep path).

(** [filepath.Join(a, b)] for two elements. *)
Definition Join2 (a b : string) : string :=
  if String.eqb a "" then (if String.eqb b "" then "" else Clean b)
  else Clean (a ++ "/" ++ b).

(** [path] without its trailing separators. *)
Fixpoint strip_trailing (path : string) : string :=
  match path with
  | EmptyString => EmptyString
  | String c rest =>
      match strip_trailing rest with
      | EmptyString =>
          if Ascii.eqb c Separator then EmptyString else String c EmptyString
      | stripped => String c stripped
      end
  end.

(** [filepath.Base]: the last element of the path, the trailing
    separators removed first; [.] for the empty path and the separator
    for a path of separators only. *)
Definition Base (path : string) : string :=
  if String.eqb path "" then "."
  else
    let element := last (Split (strip_trailing path) Separator) "" in
    if String.eqb element "" then "/" else element.

End Filepath.

(* ===================================================================== *)
(** ** security.PathMapper *)
(* ===================================================================== *)

Module PathMapper.
Import Strings Filepath.

(** [systemDirs] is a Go map.  The list holds its entries in the order in
    which a [range] loop visits them; Go leaves that order unspecified, so
    statements that depend on it are made for every permutation. *)
Record PathMapper := {
  systemDirs : list (string * string);
  symlinkDirs : list string;
  baseTransformDir : string
}.

(** [NewPathMapper()] with no option. *)
Definition NewPathMapper : PathMapper := {|
  systemDirs := [
    ("/bin", "/opt/bin");
    ("/etc", "/opt/etc");
    ("/var", "/opt/var");
    ("/usr", "/opt/usr");
    ("/lib", "/opt/lib");
    ("/lib64", "/opt/lib64");
    ("/sbin", "/opt/sbin");
    ("/home", "/opt/home");
    ("/share", "/opt/share");
    ("/include", "/opt/include") ];
  symlinkDirs := [
    "/etc/systemd/system";
    "/etc/init.d";
    "/usr/share/applications";
    "/usr/share/icons";
    "/usr/share/man";
    "/usr/local/bin";
    "/usr/bin";
    "/bin" ];
  baseTransformDir := "/opt"
|}.

(** The same mapper with its [systemDirs] visited in another order. *)
Definition with_order (pm : PathMapper) (order : list (string * string))
  : PathMapper :=
  {| systemDirs := order;
     symlinkDirs := symlinkDirs pm;
     baseTransformDir := baseTransformDir pm |}.

Definition IsTransformedPath (pm : PathMapper) (path : string) : bool :=
  if String.eqb path "" then false
  else HasPrefix (Clean path) (baseTransformDir pm).

(** The test of the loops over [systemDirs]. *)
Definition under (norm dir : string) : bool :=
  String.eqb norm dir || HasPrefix norm (dir ++ "/").

Definition IsSystemPath (pm : PathMapper) (path : string) : bool :=
  if String.eqb path "" then false
  else existsb (fun e => under (Clean path) (fst e)) (systemDirs pm).

Definition shouldCreateSymlink (pm : PathMapper) (path : string) : bool :=
  existsb (under path) (symlinkDirs pm).

Definition TransformPath (pm : PathMapper) (path : string)
  : string * bool * error :=
  if String.eqb path "" then
    ("", false, Errorf "cannot transform empty path")
  else
    let normPath := Clean path in
    if IsTransformedPath pm normPath then (normPath, false, None)
    else
      match find (fun e => under normPath (fst e)) (systemDirs pm) with
      | Some (sysDir, secureDir) =>
          (Replace1 normPath sysDir secureDir,
           shouldCreateSymlink pm normPath, None)
      | None =>
          ("", false,
           Errorf ("no transformation rule matched for path: " ++ path))
      end.

Definition GetTransformedRoot (pm : PathMapper) : string :=
  baseTransformDir pm.

(** [m[key] = value] on a Go map: the value of a key of the map is
    replaced, and a new key takes a place of its own in the order of the
    visits, here the last. *)
Fixpoint map_set (m : list (string * string)) (key value : string)
  : list (string * string) :=
  match m with
  | [] => [(key, value)]
  | (k, v) :: rest =>
      if String.eqb k key then (key, value) :: rest
      else (k, v) :: map_set rest key value
  end.

(** The options of [NewPathMapper], each as the change it makes to the
    mapper; [NewPathMapper(opts...)] applies them in turn to the default
    mapper. *)
Definition WithBaseTransformDir (dir : string) (pm : PathMapper)
  : PathMapper :=
  if negb (String.eqb dir "") then
    {| systemDirs := systemDirs pm;
       symlinkDirs := symlinkDirs pm;
       baseTransformDir := dir |}
  else pm.

Definition WithCustomMapping (source target : string) (pm : PathMapper)
  : PathMapper :=
  if negb (String.eqb source "") && negb (String.eqb target "") then
    {| systemDirs := map_set (systemDirs pm) source target;
       symlinkDirs := symlinkDirs pm;
       baseTransformDir := baseTransformDir pm |}
  else pm.

Definition WithSymlinkDir (dir : string) (pm : PathMapper) : PathMapper :=
  if negb (String.eqb dir "") then
    {| systemDirs := systemDirs pm;
       symlinkDirs := (symlinkDirs pm ++ [dir])%list;
       baseTransformDir := baseTransformDir pm |}
  else pm.

Definition GetSystemDirMappings (pm : PathMapper) : list (string * string) :=
  systemDirs pm.

Definition GetSymlinkDirs (pm : PathMapper) : list string :=
  symlinkDirs pm.

Definition AddSystemDirMapping (pm : PathMapper) (sourceDir targetDir : string)
  : PathMapper :=
  if negb (String.eqb sourceDir "") && negb (String.eqb targetDir "") then
    {| systemDirs := map_set (systemDirs pm) sourceDir targetDir;
       symlinkDirs := symlinkDirs pm;
       baseTransformDir := baseTransformDir pm |}
  else pm.

Definition AddSymlinkDir (pm : PathMapper) (dir : string) : PathMapper :=
  if negb (String.eqb dir "") then
    {| systemDirs := systemDirs pm;
       symlinkDirs := (symlinkDirs pm ++ [dir])%list;
       baseTransformDir := baseTransformDir pm |}
  else pm.

End PathMapper.

(* ===================================================================== *)
(** ** Formatting and the operating system *)
(* ===================================================================== *)

(** [fmt.Sprintf("%d", n)] *)
Definition itoa (n : Z) : string := NilZero.string_of_int (Z.to_int n).

(** [len(s)] *)
Definition len (s : string) : Z := Z.of_nat (String.length s).

(** The file-system calls that the packages make, over a state of the file
    system.  Each call returns the new state and the error of the Go call;
    [Lstat] returns whether the call succeeded ([err == nil]).  The modes
    are the numbers that Go writes in octal: 0644 is 420, 0755 is 493 and
    0100 is 64. *)
Record OS := {
  World : Type;
  Lstat : World -> string -> bool;
  MkdirAll : World -> string -> Z -> World * error;
  Symlink : World -> string -> string -> World * error;
  Open : World -> string -> error;
  Create : World -> string -> World * error;
  Copy : World -> string -> string -> World * error;
  Chmod : World -> string -> Z -> World * error
}.

(* ===================================================================== *)
(** ** security.Validator *)
(* ===================================================================== *)

Module Validator.
Import Strings Filepath.

Record SecurityPolicy := {
  ForbiddenPaths : list string;
  RestrictedPaths : list string;
  AllowedExtensions : list string;
  MaxPathLength : Z;
  DisallowDotDot : bool
}.

Definition DefaultSecurityPolicy : SecurityPolicy := {|
  ForbiddenPaths := [
    "/bin"; "/sbin"; "/usr/bin"; "/usr/sbin";
    "/boot"; "/proc"; "/sys"; "/dev" ];
  RestrictedPaths := [
    "/etc/passwd"; "/etc/shadow"; "/etc/sudoers";
    "/etc/ssh"; "/etc/ssl/private" ];
  AllowedExtensions := [
    ".txt"; ".conf"; ".service"; ".socket"; ".target"; ".sh";
    ".xml"; ".json"; ".yml"; ".yaml"; ".desktop"; ".png"; ".svg";
    ".jpg"; ".jpeg"; ".gif"; ".md"; ".html"; ".css"; ".js" ];
  MaxPathLength := 4096;
  DisallowDotDot := true
|}.

(** The validator without its logger: the calls of [v.log] write to the
    log and have no part in what the methods return. *)
Record Validator := {
  policy : SecurityPolicy;
  transformedDir : string
}.

(** [NewValidator()] with no option. *)
Definition NewValidator : Validator := {|
  policy := DefaultSecurityPolicy;
  transformedDir := "/opt"
|}.

Definition forbidden (v : Validator) (p : string) : bool :=
  existsb (fun forbiddenPath =>
             String.eqb p forbiddenPath || HasPrefix p (forbiddenPath ++ "/"))
          (ForbiddenPaths (policy v)).

(** [ValidatePath].  After the loop over the forbidden paths every branch
    returns [nil]: the restricted paths and the extension are only logged,
    and a path under [transformedDir] returns early. *)
Definition ValidatePath (v : Validator) (path : string) : error :=
  if String.eqb path "" then Errorf "path cannot be empty"
  else if negb (IsAbs path) then Errorf "path must be absolute"
  else if (MaxPathLength (policy v) <? len path)%Z then
    Errorf ("path exceeds maximum length of "
              ++ itoa (MaxPathLength (policy v)) ++ " characters")
  else
    let cleanPath := Clean path in
    if negb (String.eqb cleanPath path) && DisallowDotDot (policy v)
       && Contains path ".."
    then Errorf ("path contains forbidden '..' sequences: " ++ path)
    else if forbidden v cleanPath then
      Errorf ("path access forbidden: " ++ path)
    else if HasPrefix cleanPath (transformedDir v) then None
    else None.

Definition encodedDotDot : list string := [
  "%2e%2e"; "%2E%2E";
  "%252e%252e"; "%252E%252E";
  "%2e."; ".%2e"; "%2e%2e%2f"; "%2E%2E%2F";
  "..%2f"; "..%2F"; ".%2f."; "%2e/"; "/%2e%2e";
  "%c0%ae%c0%ae";
  "%c0%ae."; ".%c0%ae" ].

(** In the Go source the backslashes are escaped and the last two strings
    hold a backslash followed by [u2215] and [u2044]. *)
Definition unicodeDotDot : list string := [
  "..\"; "\..\"; "\../"; "/..\";
  "．．/"; "..／"; "．．／";
  "..\u2215"; "..\u2044" ].

(** The loop over the parts of the normalized path: an error when a part
    other than the first is [..]. *)
Fixpoint dotdot_part (i : nat) (parts : list string) : bool :=
  match parts with
  | [] => false
  | part :: rest =>
      (String.eqb part ".." && (0 <? i)%nat) || dotdot_part (S i) rest
  end.

(** [ValidatePathTraversal].  The last loop, over the unusual elements,
    only logs. *)
Definition ValidatePathTraversal (v : Validator) (path : string) : error :=
  if String.eqb path "" then Errorf "path cannot be empty"
  else
    let normalizedPath := Clean path in
    if Contains normalizedPath ".."
       && dotdot_part 0 (Split normalizedPath "/")
    then Errorf "path traversal detected: contains '..' patterns"
    else
      match find (Contains path) encodedDotDot with
      | Some encoded =>
          Errorf ("encoded path traversal attempt detected: contains '"
                    ++ encoded ++ "'")
      | None =>
          match find (Contains path) unicodeDotDot with
          | Some unicode =>
              Errorf ("unicode path traversal attempt detected: contains '"
                        ++ unicode ++ "'")
          | None =>
              if Contains path "//"
                 && existsb (fun segment => String.eqb segment "..")
                            (FieldsFunc path "/")
              then Errorf "path traversal detected with multiple slashes"
              else if Contains path (String "000" "") then
                Errorf "null byte detected in path"
              else None
          end
      end.

Section WithOS.
Variable os : OS.

(** Go's [%w] wraps the error and prints its message. *)
Definition ValidateSymlink (v : Validator) (w : World os)
    (source target : string) : error :=
  match ValidatePath v source with
  | Some err => Errorf ("invalid symlink source: " ++ err)
  | None =>
      match ValidatePath v target with
      | Some err => Errorf ("invalid symlink target: " ++ err)
      | None =>
          if forbidden v target then
            Errorf ("symlink target points to forbidden path: " ++ target)
          else if Lstat os w target then
            Errorf ("symlink target already exists: " ++ target)
          else if HasPrefix target source then
            Errorf ("symlink would create a cycle: "
                      ++ source ++ " -> " ++ target)
          else None
      end
  end.
End WithOS.

End Validator.

(* ===================================================================== *)
(** ** Package symlink *)
(* ===================================================================== *)

Module Symlink.
Import Strings Filepath PathMapper Validator.

Record SymlinkRequest := {
  Source : string;
  Target : string;
  Description : string
}.

(** [SymlinkManager] *)
Record SymlinkManager := {
  managerSymlinkDirs : list string
}.

(** [SymlinkProcessor], without its mutex and its logger.  The queue is
    the slice [symlinkQueue]; a method that changes it returns the
    processor with the new queue. *)
Record SymlinkProcessor := {
  pathMapper : PathMapper;
  symlinkManager : SymlinkManager;
  validator : Validator;
  symlinkQueue : list SymlinkRequest;
  verbose : bool;
  dryRun : bool
}.

Definition NewSymlinkProcessor (pm : PathMapper) (sm : SymlinkManager)
    (v : Validator) (verbose : bool) : SymlinkProcessor := {|
  pathMapper := pm;
  symlinkManager := sm;
  validator := v;
  symlinkQueue := [];
  verbose := verbose;
  dryRun := false
|}.

Definition set_queue (p : SymlinkProcessor) (q : list SymlinkRequest)
  : SymlinkProcessor := {|
  pathMapper := pathMapper p;
  symlinkManager := symlinkManager p;
  validator := validator p;
  symlinkQueue := q;
  verbose := verbose p;
  dryRun := dryRun p
|}.

Definition SetDryRun (p : SymlinkProcessor) (b : bool) : SymlinkProcessor := {|
  pathMapper := pathMapper p;
  symlinkManager := symlinkManager p;
  validator := validator p;
  symlinkQueue := symlinkQueue p;
  verbose := verbose p;
  dryRun := b
|}.

(** The same processor, its mapper visiting [systemDirs] in [order]. *)
Definition set_order (p : SymlinkProcessor) (order : list (string * string))
  : SymlinkProcessor := {|
  pathMapper := with_order (pathMapper p) order;
  symlinkManager := symlinkManager p;
  validator := validator p;
  symlinkQueue := symlinkQueue p;
  verbose := verbose p;
  dryRun := dryRun p
|}.

Definition IsSymlinkAllowed (sm : SymlinkManager) (dir : string) : bool :=
  existsb (String.eqb dir) (managerSymlinkDirs sm).

Definition GetQueuedSymlinkCount (p : SymlinkProcessor) : Z :=
  Z.of_nat (List.length (symlinkQueue p)).

Definition GetQueuedSymlinks (p : SymlinkProcessor) : list SymlinkRequest :=
  symlinkQueue p.

Section WithOS.
Variable os : OS.

(** [SymlinkManager.CreateSymlink] *)
Definition CreateSymlink (sm : SymlinkManager) (w : World os)
    (source target : string) : World os * error :=
  if Lstat os w target then
    (w, Errorf ("collision detected: target " ++ target
                  ++ " already exists"))
  else
    match Symlink os w source target with
    | (w', Some err) =>
        (w', Errorf ("failed to create symlink from " ++ source ++ " to "
                       ++ target ++ ": " ++ err))
    | (w', None) => (w', None)
    end.

Definition QueueSymlink (p : SymlinkProcessor) (w : World os)
    (request : SymlinkRequest) : SymlinkProcessor * error :=
  match ValidatePath (validator p) (Source request) with
  | Some err =>
      (p, Errorf ("invalid source path " ++ Source request ++ ": " ++ err))
  | None =>
  match ValidatePath (validator p) (Target request) with
  | Some err =>
      (p, Errorf ("invalid target path " ++ Target request ++ ": " ++ err))
  | None =>
  match ValidateSymlink os (validator p) w (Source request) (Target request) with
  | Some err => (p, Errorf ("symlink validation failed: " ++ err))
  | None =>
      if existsb (fun existing => String.eqb (Target existing) (Target request))
                 (symlinkQueue p)
      then (p, Errorf ("duplicate symlink target: " ++ Target request))
      else (set_queue p (symlinkQueue p ++ [request])%list, None)
  end end end.

Definition ProcessPath (p : SymlinkProcessor) (w : World os)
    (originalPath transformedPath : string) : SymlinkProcessor * error :=
  let '(transformed, needsSymlink, err) :=
    TransformPath (pathMapper p) originalPath in
  match err with
  | Some e =>
      (p, Errorf ("failed to transform path " ++ originalPath ++ ": " ++ e))
  | None =>
      let transformedPath :=
        if String.eqb transformedPath "" then transformed
        else transformedPath in
      if needsSymlink then
        QueueSymlink p w
          {| Source := transformedPath;
             Target := originalPath;
             Description := "Automatically detected during build" |}
      else (p, None)
  end.

(** [createSymlink]: one queued request. *)
Definition createSymlink (p : SymlinkProcessor) (w : World os)
    (request : SymlinkRequest) : World os * error :=
  if dryRun p then (w, None)
  else
    let parentDir := Dir (Target request) in
    match MkdirAll os w parentDir 493 with
    | (w', Some err) =>
        (w', Errorf ("failed to create parent directory " ++ parentDir
                       ++ ": " ++ err))
    | (w', None) =>
        CreateSymlink (symlinkManager p) w' (Source request) (Target request)
    end.

(** The loop of [ProcessQueuedSymlinks] over the queue: [errs] collects
    the errors, and the loop goes on after one. *)
Fixpoint process_queue (p : SymlinkProcessor) (w : World os)
    (queue : list SymlinkRequest) (errs : list string)
  : World os * list string :=
  match queue with
  | [] => (w, errs)
  | request :: rest =>
      match createSymlink p w request with
      | (w', Some err) => process_queue p w' rest (errs ++ [err])%list
      | (w', None) => process_queue p w' rest errs
      end
  end.

Definition ProcessQueuedSymlinks (p : SymlinkProcessor) (w : World os)
  : SymlinkProcessor * World os * error :=
  match symlinkQueue p with
  | [] => (p, w, None)
  | _ =>
      let '(w', errs) := process_queue p w (symlinkQueue p) [] in
      let p' := set_queue p [] in
      if (0 <? Z.of_nat (List.length errs))%Z then
        (p', w', Errorf ("failed to create "
                           ++ itoa (Z.of_nat (List.length errs))
                           ++ " symlinks"))
      else (p', w', None)
  end.

(** *** The processor as a transition system *)

Inductive Op :=
| OpQueueSymlink (request : SymlinkRequest)
| OpProcessPath (originalPath transformedPath : string)
| OpProcessQueuedSymlinks
| OpSetDryRun (b : bool).

(** One call of a method.  Between two calls the file system may change
    in any way, and the next loop over [systemDirs] may visit the map in
    any order: [step_env]. *)
Inductive step : SymlinkProcessor * World os -> option Op ->
                 SymlinkProcessor * World os -> Prop :=
| step_queue p w request :
    step (p, w) (Some (OpQueueSymlink request))
         (fst (QueueSymlink p w request), w)
| step_path p w originalPath transformedPath :
    step (p, w) (Some (OpProcessPath originalPath transformedPath))
         (fst (ProcessPath p w originalPath transformedPath), w)
| step_process p w :
    step (p, w) (Some OpProcessQueuedSymlinks)
         (fst (ProcessQueuedSymlinks p w))
| step_dry p w b :
    step (p, w) (Some (OpSetDryRun b)) (SetDryRun p b, w)
| step_env p w w' order :
    Permutation (systemDirs (pathMapper p)) order ->
    step (p, w) None (set_order p order, w').

Inductive steps : SymlinkProcessor * World os -> list (option Op) ->
                  SymlinkProcessor * World os -> Prop :=
| steps_nil s : steps s [] s
| steps_cons s op s' ops s'' :
    step s op s' -> steps s' ops s'' -> steps s (op :: ops) s''.

(** What a pass over the queue that tries every entry does, entry by
    entry: the request and the outcome of its [createSymlink]. *)
Fixpoint attempts (p : SymlinkProcessor) (w : World os)
    (queue : list SymlinkRequest) : list (SymlinkRequest * error) :=
  match queue with
  | [] => []
  | request :: rest =>
      (request, snd (createSymlink p w request))
        :: attempts p (fst (createSymlink p w request)) rest
  end.

(** The file system after that pass. *)
Fixpoint world_after (p : SymlinkProcessor) (w : World os)
    (queue : list SymlinkRequest) : World os :=
  match queue with
  | [] => w
  | request :: rest => world_after p (fst (createSymlink p w request)) rest
  end.

End WithOS.

Definition failed (a : SymlinkRequest * error) : bool :=
  match snd a with Some _ => true | None => false end.

End Symlink.

(* ===================================================================== *)
(** ** A file system in memory *)
(* ===================================================================== *)

Module MemFS.

Inductive Node :=
| Dir (mode : Z)
| File (content : string) (mode : Z)
| Link (target : string).

(** The entries of the file system by path. *)
Definition World := list (string * Node).

Definition lookup (w : World) (path : string) : option Node :=
  match find (fun e => String.eqb (fst e) path) w with
  | Some e => Some (snd e)
  | None => None
  end.

(** The file system with [node] at [path]. *)
Definition update (w : World) (path : string) (node : Node) : World :=
  (path, node) :: filter (fun e => negb (String.eqb (fst e) path)) w.

Definition Lstat (w : World) (path : string) : bool :=
  match lookup w path with Some _ => true | None => false end.

Definition MkdirAll (w : World) (path : string) (perm : Z) : World * error :=
  match lookup w path with
  | Some (Dir _) => (w, None)
  | Some _ => (w, Errorf ("mkdir " ++ path ++ ": not a directory"))
  | None => (update w path (Dir perm), None)
  end.

Definition Symlink (w : World) (oldname newname : string) : World * error :=
  match lookup w newname with
  | Some _ =>
      (w, Errorf ("symlink " ++ oldname ++ " " ++ newname ++ ": file exists"))
  | None => (update w newname (Link oldname), None)
  end.

Definition Open (w : World) (name : string) : error :=
  match lookup w name with
  | Some (File _ _) => None
  | Some _ => Errorf ("open " ++ name ++ ": is a directory")
  | None => Errorf ("open " ++ name ++ ": no such file or directory")
  end.

Definition Create (w : World) (name : string) : World * error :=
  match lookup w name with
  | Some (Dir _) => (w, Errorf ("open " ++ name ++ ": is a directory"))
  | Some (File _ mode) => (update w name (File "" mode), None)
  | _ => (update w name (File "" 420), None)
  end.

Definition Copy (w : World) (src dst : string) : World * error :=
  match lookup w src, lookup w dst with
  | Some (File content _), Some (File _ mode) =>
      (update w dst (File content mode), None)
  | _, _ => (w, Errorf ("copy " ++ src ++ ": bad file descriptor"))
  end.

Definition Chmod (w : World) (name : string) (mode : Z) : World * error :=
  match lookup w name with
  | Some (File content _) => (update w name (File content mode), None)
  | Some (Dir _) => (update w name (Dir mode), None)
  | Some (Link _) => (w, None)
  | None => (w, Errorf ("chmod " ++ name ++ ": no such file or directory"))
  end.

Definition os : OS :=
  @Build_OS World Lstat MkdirAll Symlink Open Create Copy Chmod.

End MemFS.

(* ===================================================================== *)
(** ** Package unicode/utf8 *)
(* ===================================================================== *)

Module Utf8.

Definition rune := N.
Definition RuneError : rune := 65533%N.

Definition byte (c : ascii) : N := N_of_ascii c.

(** The table [first] with [acceptRanges]: for a leading byte of a
    sequence of several bytes, the size of the sequence and the range of
    its second byte. *)
Definition first (b0 : N) : option (nat * N * N) :=
  (if b0 <? 194 then None
   else if b0 <=? 223 then Some (2%nat, 128, 191)
   else if b0 =? 224 then Some (3%nat, 160, 191)
   else if b0 =? 237 then Some (3%nat, 128, 159)
   else if b0 <=? 239 then Some (3%nat, 128, 191)
   else if b0 =? 240 then Some (4%nat, 144, 191)
   else if b0 <=? 243 then Some (4%nat, 128, 191)
   else if b0 =? 244 then Some (4%nat, 128, 143)
   else None)%N.

(** A continuation byte, between [locb] and [hicb]. *)
Definition cont (b : N) : bool := ((128 <=? b) && (b <=? 191))%N.

(** [utf8.DecodeRuneInString]: the first rune of [s] and its width in
    bytes; an invalid or truncated encoding gives [RuneError] of width
    1. *)
Definition DecodeRuneInString (s : string) : rune * nat :=
  match s with
  | EmptyString => (RuneError, 0%nat)
  | String c0 s1 =>
      let b0 := byte c0 in
      if (b0 <? 128)%N then (b0, 1%nat)
      else
        match first b0, s1 with
        | Some (sz, lo, hi), String c1 s2 =>
            let b1 := byte c1 in
            if ((b1 <? lo) || (hi <? b1))%N then (RuneError, 1%nat)
            else if (sz <=? 2)%nat then
              (N.lor (N.shiftl (N.land b0 31) 6) (N.land b1 63), 2%nat)
            else
              match s2 with
              | String c2 s3 =>
                  let b2 := byte c2 in
                  if negb (cont b2) then (RuneError, 1%nat)
                  else if (sz <=? 3)%nat then
                    (N.lor (N.shiftl (N.land b0 15) 12)
                       (N.lor (N.shiftl (N.land b1 63) 6) (N.land b2 63)),
                     3%nat)
                  else
                    match s3 with
                    | String c3 _ =>
                        let b3 := byte c3 in
                        if negb (cont b3) then (RuneError, 1%nat)
                        else
                          (N.lor (N.shiftl (N.land b0 7) 18)
                             (N.lor (N.shiftl (N.land b1 63) 12)
                                (N.lor (N.shiftl (N.land b2 63) 6)
                                   (N.land b3 63))),
                           4%nat)
                    | EmptyString => (RuneError, 1%nat)
                    end
              | EmptyString => (RuneError, 1%nat)
              end
        | _, _ => (RuneError, 1%nat)
        end
  end.

(** [s[:n]] *)
Fixpoint take (n : nat) (s : string) : string :=
  match n, s with
  | O, _ => EmptyString
  | S _, EmptyString => EmptyString
  | S n', String c s' => String c (take n' s')
  end.

(** A string as the sequence of runes that a [range] loop or the regexp
    engine reads, each with the bytes that encode it. *)
Fixpoint decode_fuel (fuel : nat) (s : string) : list (rune * string) :=
  match fuel, s with
  | O, _ => []
  | _, EmptyString => []
  | S fuel', _ =>
      let '(r, width) := DecodeRuneInString s in
      (r, take width s) :: decode_fuel fuel' (Strings.drop width s)
  end.

Definition decode (s : string) : list (rune * string) :=
  decode_fuel (String.length s) s.

Definition encode (us : list (rune * string)) : string :=
  fold_right (fun u acc => snd u ++ acc) EmptyString us.

(** [unicode.IsSpace] *)
Definition IsSpace (r : rune) : bool :=
  ((9 <=? r) && (r <=? 13) || (r =? 32) || (r =? 133) || (r =? 160)
   || (r =? 5760) || (8192 <=? r) && (r <=? 8202) || (r =? 8232)
   || (r =? 8233) || (r =? 8239) || (r =? 8287) || (r =? 12288))%N.

Fixpoint trim_left (us : list (rune * string)) : list (rune * string) :=
  match us with
  | u :: rest => if IsSpace (fst u) then trim_left rest else us
  | [] => []
  end.

(** [strings.TrimSpace] *)
Definition TrimSpace (s : string) : string :=
  encode (rev (trim_left (rev (trim_left (decode s))))).

End Utf8.

(* ===================================================================== *)
(** ** Package regexp *)
(* ===================================================================== *)

Module Regexp.
Import Utf8.

(** Go's regular expressions: the RE2 syntax with the Perl flags of
    [regexp.Compile], and matching by the leftmost-first rule, on the runes
    of the text.  The model has literals, [.], bracket expressions, the
    Perl classes, groups, alternation, the greedy [*], [+] and [?], and the
    assertions [^], [$] and the word boundaries.  Flags, named groups,
    non-greedy and counted repetitions and the POSIX and Unicode classes
    are left out: [Compile] returns [None] for them. *)

(** The syntax tree of a regular expression. *)
Inductive regex :=
| Empty
| Char (c : rune)
| Any
| Class (negated : bool) (ranges : list (rune * rune))
| Cat (a b : regex)
| Alt (a b : regex)
| Star (a : regex)
| Plus (a : regex)
| Quest (a : regex)
| Group (index : nat) (a : regex)
| BeginText
| EndText
| WordBoundary
| NoWordBoundary.

(** *** Parsing *)

Definition ch (c : ascii) : rune := byte c.

Definition perl_space : list (rune * rune) := [(9, 10); (12, 13); (32, 32)]%N.
Definition perl_digit : list (rune * rune) := [(48, 57)]%N.
Definition perl_word : list (rune * rune) :=
  [(48, 57); (65, 90); (95, 95); (97, 122)]%N.

Definition in_ranges (r : rune) (ranges : list (rune * rune)) : bool :=
  existsb (fun lh => (fst lh <=? r) && (r <=? snd lh))%N ranges.

Definition isalnum (c : rune) : bool :=
  in_ranges c [(48, 57); (65, 90); (97, 122)]%N.

(** An escape that stands for one rune, in or out of a class. *)
Definition escape_rune (c : rune) : option rune :=
  if (c =? ch "a")%N then Some 7%N
  else if (c =? ch "f")%N then Some 12%N
  else if (c =? ch "n")%N then Some 10%N
  else if (c =? ch "r")%N then Some 13%N
  else if (c =? ch "t")%N then Some 9%N
  else if (c =? ch "v")%N then Some 11%N
  else if (c <? 128)%N && negb (isalnum c) then Some c
  else None.

(** An escape that stands for a Perl class. *)
Definition escape_class (c : rune) : option (bool * list (rune * rune)) :=
  if (c =? ch "d")%N then Some (false, perl_digit)
  else if (c =? ch "s")%N then Some (false, perl_space)
  else if (c =? ch "w")%N then Some (false, perl_word)
  else if (c =? ch "D")%N then Some (true, perl_digit)
  else if (c =? ch "S")%N then Some (true, perl_space)
  else if (c =? ch "W")%N then Some (true, perl_word)
  else None.

(** The items of a bracket expression up to the closing bracket.
    [start] is true at the first item, where a closing bracket is a
    literal. *)
Fixpoint parse_class (fuel : nat) (start : bool) (s : list rune)
    (acc : list (rune * rune)) : option (list (rune * rune) * list rune) :=
  match fuel with
  | O => None
  | S fuel' =>
      match s with
      | [] => None
      | c :: rest =>
          if (c =? ch "]")%N && negb start then Some (acc, rest)
          else if (c =? ch "[")%N then None
          else
            let item :=
              if (c =? ch "\")%N then
                match rest with
                | e :: rest' =>
                    match escape_class e with
                    | Some (false, ranges) => Some (inl ranges, rest')
                    | Some (true, _) => None
                    | None =>
                        match escape_rune e with
                        | Some r => Some (inr r, rest')
                        | None => None
                        end
                    end
                | [] => None
                end
              else Some (inr c, rest) in
            match item with
            | None => None
            | Some (inl ranges, rest') =>
                parse_class fuel' false rest' (acc ++ ranges)%list
            | Some (inr lo, rest') =>
                match rest' with
                | d :: h :: rest'' =>
                    if (d =? ch "-")%N && negb (h =? ch "]")%N then
                      if (h =? ch "\")%N || (h =? ch "[")%N
                         || (h <? lo)%N then None
                      else parse_class fuel' false rest''
                             (acc ++ [(lo, h)])%list
                    else parse_class fuel' false rest'
                           (acc ++ [(lo, lo)])%list
                | _ => parse_class fuel' false rest' (acc ++ [(lo, lo)])%list
                end
            end
      end
  end.

(** The repetition operator after an atom, if there is one.  With the
    Perl flags of [regexp.Compile] a second operator after it is an error
    ([a**]) or makes it non-greedy ([a*?]), which is not modelled, and so
    are the counted repetitions in braces. *)
Definition parse_postfix (a : regex) (s : list rune) : option (regex * list rune) :=
  match s with
  | c :: rest =>
      let stacked :=
        match rest with
        | q :: _ => (q =? ch "*")%N || (q =? ch "+")%N || (q =? ch "?")%N
                    || (q =? ch "{")%N
        | [] => false
        end in
      if (c =? ch "*")%N then
        if stacked then None else Some (Star a, rest)
      else if (c =? ch "+")%N then
        if stacked then None else Some (Plus a, rest)
      else if (c =? ch "?")%N then
        if stacked then None else Some (Quest a, rest)
      else if (c =? ch "{")%N then None
      else Some (a, s)
  | [] => Some (a, s)
  end.

(** Alternation, concatenation and atoms; [g] is the number of capture
    groups opened so far. *)
Fixpoint parse_alt (fuel : nat) (s : list rune) (g : nat)
  : option (regex * list rune * nat) :=
  match fuel with
  | O => None
  | S fuel' =>
      match parse_concat fuel' s g with
      | Some (a, rest, g') =>
          match rest with
          | c :: rest' =>
              if (c =? ch "|")%N then
                match parse_alt fuel' rest' g' with
                | Some (b, rest'', g'') => Some (Alt a b, rest'', g'')
                | None => None
                end
              else Some (a, rest, g')
          | [] => Some (a, rest, g')
          end
      | None => None
      end
  end
with parse_concat (fuel : nat) (s : list rune) (g : nat)
  : option (regex * list rune * nat) :=
  match fuel with
  | O => None
  | S fuel' =>
      match s with
      | [] => Some (Empty, s, g)
      | c :: _ =>
          if (c =? ch "|")%N || (c =? ch ")")%N then Some (Empty, s, g)
          else
            match parse_atom fuel' s g with
            | Some (a, rest, g') =>
                match parse_postfix a rest with
                | Some (a', rest') =>
                    match parse_concat fuel' rest' g' with
                    | Some (Empty, rest'', g'') => Some (a', rest'', g'')
                    | Some (b, rest'', g'') => Some (Cat a' b, rest'', g'')
                    | None => None
                    end
                | None => None
                end
            | None => None
            end
      end
  end
with parse_atom (fuel : nat) (s : list rune) (g : nat)
  : option (regex * list rune * nat) :=
  match fuel with
  | O => None
  | S fuel' =>
      match s with
      | [] => None
      | c :: rest =>
          if (c =? ch "(")%N then
            match rest with
            | q :: rest' =>
                if (q =? ch "?")%N then
                  match rest' with
                  | k :: rest'' =>
                      if (k =? ch ":")%N then
                        match parse_alt fuel' rest'' g with
                        | Some (a, close :: rest3, g') =>
                            if (close =? ch ")")%N then Some (a, rest3, g')
                            else None
                        | _ => None
                        end
                      else None
                  | [] => None
                  end
                else
                  match parse_alt fuel' rest (S g) with
                  | Some (a, close :: rest3, g') =>
                      if (close =? ch ")")%N
                      then Some (Group (S g) a, rest3, g')
                      else None
                  | _ => None
                  end
            | [] => None
            end
          else if (c =? ch "[")%N then
            match rest with
            | n :: rest' =>
                if (n =? ch "^")%N then
                  match parse_class fuel' true rest' [] with
                  | Some (ranges, rest'') => Some (Class true ranges, rest'', g)
                  | None => None
                  end
                else
                  match parse_class fuel' true rest [] with
                  | Some (ranges, rest'') => Some (Class false ranges, rest'', g)
                  | None => None
                  end
            | [] => None
            end
          else if (c =? ch "\")%N then
            match rest with
            | e :: rest' =>
                if (e =? ch "b")%N then Some (WordBoundary, rest', g)
                else if (e =? ch "B")%N then Some (NoWordBoundary, rest', g)
                else if (e =? ch "A")%N then Some (BeginText, rest', g)
                else if (e =? ch "z")%N then Some (EndText, rest', g)
                else
                  match escape_class e with
                  | Some (neg, ranges) => Some (Class neg ranges, rest', g)
                  | None =>
                      match escape_rune e with
                      | Some r => Some (Char r, rest', g)
                      | None => None
                      end
                  end
            | [] => None
            end
          else if (c =? ch ".")%N then Some (Any, rest, g)
          else if (c =? ch "^")%N then Some (BeginText, rest, g)
          else if (c =? ch "$")%N then Some (EndText, rest, g)
          else if (c =? ch "*")%N || (c =? ch "+")%N || (c =? ch "?")%N
                  || (c =? ch ")")%N || (c =? ch "{")%N
          then None
          else Some (Char c, rest, g)
      end
  end.

(** The check of the parser that the pattern is valid UTF-8: no rune is
    the [RuneError] of width 1. *)
Definition valid_utf8 (pattern : string) : bool :=
  forallb (fun u => negb ((fst u =? RuneError)%N
                          && (String.length (snd u) =? 1)%nat))
          (decode pattern).

(** [regexp.Compile]: [None] where Go returns an error, and for a pattern
    outside the part of the syntax that is modelled. *)
Definition Compile (pattern : string) : option regex :=
  let s := map fst (decode pattern) in
  if valid_utf8 pattern then
    match parse_alt (4 * List.length s + 4) s 0 with
    | Some (a, [], _) => Some a
    | _ => None
    end
  else None.

(** *** Matching *)

(** A position in the text: the rune before it, if any, and the runes
    from it on. *)
Record pos := {
  before : option rune;
  rest : list (rune * string)
}.

Definition advance (u : rune * string) (t : list (rune * string)) : pos :=
  {| before := Some (fst u); rest := t |}.

Definition captures := list (nat * string).

Definition is_word (r : option rune) : bool :=
  match r with
  | Some c => in_ranges c perl_word
  | None => false
  end.

Definition at_word_boundary (p : pos) : bool :=
  xorb (is_word (before p))
       (is_word (match rest p with u :: _ => Some (fst u) | [] => None end)).

(** The text between two positions of the same string. *)
Definition text_between (p p' : pos) : string :=
  encode (firstn (List.length (rest p) - List.length (rest p')) (rest p)).

Section Match.
Variable A : Type.

Definition cont_t := pos -> captures -> option A.

(** Greedy repetition of [body]: an iteration has to consume a rune. *)
Fixpoint star (body : pos -> captures -> cont_t -> option A)
    (fuel : nat) (p : pos) (c : captures) (k : cont_t) : option A :=
  match fuel with
  | O => k p c
  | S fuel' =>
      match body p c (fun p' c' =>
                        if (List.length (rest p') <? List.length (rest p))%nat
                        then star body fuel' p' c' k
                        else None) with
      | Some x => Some x
      | None => k p c
      end
  end.

(** Backtracking matcher: the alternatives are tried in the order of
    the leftmost-first rule, and [k] is the rest of the match. *)
Fixpoint run (r : regex) (p : pos) (c : captures) (k : cont_t) : option A :=
  match r with
  | Empty => k p c
  | Char x =>
      match rest p with
      | u :: t => if (fst u =? x)%N then k (advance u t) c else None
      | [] => None
      end
  | Any =>
      match rest p with
      | u :: t => if (fst u =? 10)%N then None else k (advance u t) c
      | [] => None
      end
  | Class negated ranges =>
      match rest p with
      | u :: t =>
          if xorb negated (in_ranges (fst u) ranges)
          then k (advance u t) c else None
      | [] => None
      end
  | Cat a b => run a p c (fun p' c' => run b p' c' k)
  | Alt a b =>
      match run a p c k with
      | Some x => Some x
      | None => run b p c k
      end
  | Star a => star (run a) (List.length (rest p)) p c k
  | Plus a =>
      run a p c (fun p' c' => star (run a) (List.length (rest p')) p' c' k)
  | Quest a =>
      match run a p c k with
      | Some x => Some x
      | None => k p c
      end
  | Group index a =>
      run a p c (fun p' c' => k p' ((index, text_between p p') :: c'))
  | BeginText =>
      match before p with
      | None => k p c
      | Some _ => None
      end
  | EndText =>
      match rest p with
      | [] => k p c
      | _ :: _ => None
      end
  | WordBoundary => if at_word_boundary p then k p c else None
  | NoWordBoundary => if at_word_boundary p then None else k p c
  end.
End Match.

(** The leftmost match at or after a position: where it starts, where it
    ends and its groups. *)
Fixpoint search (r : regex) (prev : option rune) (s : list (rune * string))
  : option (pos * pos * captures) :=
  let p := {| before := prev; rest := s |} in
  match run r p [] (fun p' c' => Some (p', c')) with
  | Some (p', c') => Some (p, p', c')
  | None =>
      match s with
      | [] => None
      | u :: t => search r (Some (fst u)) t
      end
  end.

(** [re.MatchString(s)] *)
Definition MatchString (re : regex) (s : string) : bool :=
  match search re None (decode s) with
  | Some _ => true
  | None => false
  end.

(** The text of a group, empty when the group took no part. *)
Fixpoint submatch (index : nat) (c : captures) : string :=
  match c with
  | [] => EmptyString
  | (i, text) :: c' => if (i =? index)%nat then text else submatch index c'
  end.

(** The loop of [re.allMatches]: successive matches that do not overlap;
    an empty match next to the match before it is dropped.  Positions
    are told apart by the number of runes that follow. *)
Fixpoint all_matches (fuel : nat) (re : regex) (p : pos)
    (prevMatchEnd : option nat) : list captures :=
  match fuel with
  | O => []
  | S fuel' =>
      match search re (before p) (rest p) with
      | None => []
      | Some (m0, m1, c) =>
          let here := List.length (rest p) in
          let e := List.length (rest m1) in
          if (e =? here)%nat then
            let accept :=
              match prevMatchEnd with
              | Some pe => negb (List.length (rest m0) =? pe)%nat
              | None => true
              end in
            let later :=
              match rest p with
              | u :: t => all_matches fuel' re (advance u t) (Some e)
              | [] => []
              end in
            if accept then c :: later else later
          else c :: all_matches fuel' re m1 (Some e)
      end
  end.

(** [re.FindAllStringSubmatch(s, -1)], each match by its groups. *)
Definition FindAllStringSubmatch (re : regex) (s : string) : list captures :=
  let us := decode s in
  all_matches (S (List.length us)) re {| before := None; rest := us |} None.

End Regexp.

(* ===================================================================== *)
(** ** Package bufio *)
(* ===================================================================== *)

Module Bufio.
Import Strings.

Definition MaxScanTokenSize : Z := 65536.

(** [dropCR]: a line without its final carriage return. *)
Fixpoint dropCR (data : string) : string :=
  match data with
  | EmptyString => EmptyString
  | String c EmptyString =>
      if Ascii.eqb c "013" then EmptyString else data
  | String c rest => String c (dropCR rest)
  end.

(** The tokens that [ScanLines] cuts: the text between the line feeds,
    the text after the last line feed being a token when it is not
    empty. *)
Fixpoint tokens (segments : list string) : list string :=
  match segments with
  | [] => []
  | [last] => if String.eqb last "" then [] else [last]
  | segment :: rest => segment :: tokens rest
  end.

(** The longest prefix of [l] whose elements pass the test [f]. *)
Fixpoint firstn_while (A : Type) (f : A -> bool) (l : list A) : list A :=
  match l with
  | [] => []
  | x :: rest => if f x then x :: firstn_while f rest else []
  end.

(** A [bufio.Scanner] with the split function [ScanLines] run to the end
    of [content]: the lines, or [None] when [scanner.Err()] is
    [ErrTooLong] because a line does not fit in the buffer of
    [MaxScanTokenSize] bytes. *)
Definition ScanLines (content : string) : option (list string) :=
  let toks := tokens (Split content "010") in
  if forallb (fun t => (len t <? MaxScanTokenSize)%Z) toks
  then Some (map dropCR toks)
  else None.

End Bufio.

(* ===================================================================== *)
(** ** security.ScriptValidator *)
(* ===================================================================== *)

(** A Go computation that may panic. *)
Inductive go (A : Type) :=
| Return (a : A)
| Panic (msg : string).
Arguments Return {A} a.
Arguments Panic {A} msg.

Definition bind {A B : Type} (m : go A) (f : A -> go B) : go B :=
  match m with
  | Return a => f a
  | Panic msg => Panic msg
  end.

Notation "x <- m ;; k" := (bind m (fun x => k))
  (at level 61, m at next level, right associativity).

(** The two's complement wrap-around of Go's 64-bit [int]. *)
Definition wrap64 (z : Z) : Z :=
  ((z + 9223372036854775808) mod 18446744073709551616 - 9223372036854775808)%Z.

Module ScriptValidator.
Import Strings Filepath PathMapper Utf8 Regexp Bufio.

Definition SecurityLevelLow : Z := 0.
Definition SecurityLevelMedium : Z := 1.
Definition SecurityLevelHigh : Z := 2.

(** [DetailedInfo] holds the key [path_modifications] only. *)
Record ScriptValidationResult := {
  Valid : bool;
  Warnings : list string;
  Errors : list string;
  RiskLevel : Z;
  DetailedInfo : list (string * list string)
}.

(** The validator without its logger.  [dangerousCommands] is a Go map,
    here in the order in which the [range] loop visits it. *)
Record ScriptValidator := {
  securityLevel : Z;
  pathMapper : option PathMapper;
  dangerousPatterns : list string;
  dangerousCommands : list (string * Z);
  protectedPaths : list string;
  allowedCommands : list string;
  shellInterpreters : list string
}.

Definition dquote : string := String "034" "".

Definition defaultDangerousPatterns : list string := [
  "rm\s+(-[rf]+\s+)?/";
  "chmod\s+([0-7]+\s+)?/";
  "chown\s+([^/]+\s+)?/";
  "wget\s+.+\s+\|\s+([ba])?sh";
  "curl\s+.+\s+\|\s+([ba])?sh";
  "sudo";
  "su\s+(-[a-z]+\s+)?root";
  "eval\s+[" ++ dquote ++ "']";
  "exec\s+[0-9]+";
  "set(uid|gid)";
  ">\s*/etc/";
  ">>\s*/etc/";
  "apt(-get)?\s+(install|remove)";
  "dpkg\s+(-i|--install)";
  "update-alternatives";
  "/etc/init.d/";
  "systemctl\s+(enable|disable|mask)" ].

Definition defaultDangerousCommands : list (string * Z) := [
  ("rm", 7); ("chmod", 6); ("chown", 6); ("wget", 5); ("curl", 5);
  ("dd", 8); ("mkfs", 9); ("mount", 7); ("umount", 5); ("apt", 6);
  ("apt-get", 6); ("dpkg", 5); ("sudo", 9); ("su", 9); ("init", 10);
  ("systemctl", 6); ("service", 6); ("useradd", 7); ("usermod", 7);
  ("groupadd", 6); ("sysctl", 8); ("iptables", 7); ("update-rc.d", 6) ]%Z.

Definition defaultProtectedPaths : list string := [
  "/bin"; "/sbin"; "/usr/bin"; "/usr/sbin"; "/lib"; "/lib64";
  "/etc/passwd"; "/etc/shadow"; "/etc/sudoers"; "/boot"; "/dev";
  "/proc"; "/sys"; "/var/run"; "/var/lock" ].

(** [NewScriptValidator()] with no option. *)
Definition NewScriptValidator : ScriptValidator := {|
  securityLevel := SecurityLevelMedium;
  pathMapper := None;
  dangerousPatterns := defaultDangerousPatterns;
  dangerousCommands := defaultDangerousCommands;
  protectedPaths := defaultProtectedPaths;
  allowedCommands := [
    "echo"; "touch"; "mkdir"; "ln"; "cp"; "mv"; "sleep"; "cat";
    "printf"; "test"; "[" ];
  shellInterpreters := [
    "#!/bin/sh"; "#!/bin/bash"; "#!/usr/bin/env sh"; "#!/usr/bin/env bash" ]
|}.

Definition WithSecurityLevel (level : Z) (sv : ScriptValidator)
  : ScriptValidator := {|
  securityLevel := level;
  pathMapper := pathMapper sv;
  dangerousPatterns := dangerousPatterns sv;
  dangerousCommands := dangerousCommands sv;
  protectedPaths := protectedPaths sv;
  allowedCommands := allowedCommands sv;
  shellInterpreters := shellInterpreters sv
|}.

Definition WithPathMapper (pm : PathMapper) (sv : ScriptValidator)
  : ScriptValidator := {|
  securityLevel := securityLevel sv;
  pathMapper := Some pm;
  dangerousPatterns := dangerousPatterns sv;
  dangerousCommands := dangerousCommands sv;
  protectedPaths := protectedPaths sv;
  allowedCommands := allowedCommands sv;
  shellInterpreters := shellInterpreters sv
|}.


(** The same validator with [dangerousCommands] visited in another
    order. *)
Definition with_commands (sv : ScriptValidator) (order : list (string * Z))
  : ScriptValidator := {|
  securityLevel := securityLevel sv;
  pathMapper := pathMapper sv;
  dangerousPatterns := dangerousPatterns sv;
  dangerousCommands := order;
  protectedPaths := protectedPaths sv;
  allowedCommands := allowedCommands sv;
  shellInterpreters := shellInterpreters sv
|}.

(** [regexp.MustCompile] *)
Definition MustCompile (pattern : string) : go regex :=
  match Compile pattern with
  | Some re => Return re
  | None =>
      Panic ("regexp: Compile(`" ++ pattern ++ "`): error parsing regexp")
  end.

(** [extractPaths] *)
Definition extractPaths (line : string) : go (list string) :=
  re <- MustCompile ("(?:^|\s+)(/[^\s;|><" ++ dquote ++ "']+)") ;;
  Return (map (submatch 1) (FindAllStringSubmatch re line)).

(** What the loop over the lines updates: the result and the local
    [pathModifications]. *)
Record scan := {
  result : ScriptValidationResult;
  pathModifications : list string
}.

(** [result.Warnings = append(result.Warnings, message)] *)
Definition add_warning (message : string) (st : scan) : scan := {|
  result := {|
    Valid := Valid (result st);
    Warnings := (Warnings (result st) ++ [message])%list;
    Errors := Errors (result st);
    RiskLevel := RiskLevel (result st);
    DetailedInfo := DetailedInfo (result st) |};
  pathModifications := pathModifications st
|}.

(** [result.RiskLevel += risk] *)
Definition add_risk (risk : Z) (st : scan) : scan := {|
  result := {|
    Valid := Valid (result st);
    Warnings := Warnings (result st);
    Errors := Errors (result st);
    RiskLevel := wrap64 (RiskLevel (result st) + risk);
    DetailedInfo := DetailedInfo (result st) |};
  pathModifications := pathModifications st
|}.

(** [result.Errors = append(result.Errors, message)] *)
Definition add_error (message : string) (st : scan) : scan := {|
  result := {|
    Valid := Valid (result st);
    Warnings := Warnings (result st);
    Errors := (Errors (result st) ++ [message])%list;
    RiskLevel := RiskLevel (result st);
    DetailedInfo := DetailedInfo (result st) |};
  pathModifications := pathModifications st
|}.

(** [pathModifications = append(pathModifications, path)] *)
Definition add_modification (path : string) (st : scan) : scan := {|
  result := result st;
  pathModifications := (pathModifications st ++ [path])%list
|}.

Definition line_prefix (lineNumber : Z) : string :=
  "Line " ++ itoa lineNumber ++ ": ".

(** The loop over [sv.dangerousPatterns] for one line. *)
Fixpoint check_patterns (patterns : list string) (lineNumber : Z)
    (line : string) (st : scan) : go scan :=
  match patterns with
  | [] => Return st
  | pattern :: rest =>
      re <- MustCompile pattern ;;
      check_patterns rest lineNumber line
        (if MatchString re line then
           add_risk 2
             (add_warning (line_prefix lineNumber
                             ++ "Potentially dangerous pattern: " ++ pattern)
                          st)
         else st)
  end.

(** The inner loop over [sv.protectedPaths]. *)
Fixpoint check_protected (paths : list string) (lineNumber riskLevel : Z)
    (line : string) (st : scan) : scan :=
  match paths with
  | [] => st
  | path :: rest =>
      check_protected rest lineNumber riskLevel line
        (if Contains line path then
           add_modification path
             (add_risk (Z.quot riskLevel 2)
                (add_error (line_prefix lineNumber
                              ++ "Command operates on protected path: " ++ path)
                           st))
         else st)
  end.

(** The loop over [sv.dangerousCommands] for one line. *)
Fixpoint check_commands (sv : ScriptValidator) (commands : list (string * Z))
    (lineNumber : Z) (line : string) (st : scan) : go scan :=
  match commands with
  | [] => Return st
  | (cmd, riskLevel) :: rest =>
      re <- MustCompile ("\b" ++ cmd ++ "\b") ;;
      check_commands sv rest lineNumber line
        (if MatchString re line then
           check_protected (protectedPaths sv) lineNumber riskLevel line
             (add_risk (Z.quot riskLevel 3)
                (add_warning (line_prefix lineNumber
                                ++ "Potentially risky command: " ++ cmd)
                             st))
         else st)
  end.

(** The loop over the paths of one line, with the path mapper. *)
Fixpoint check_paths (pm : PathMapper) (paths : list string)
    (lineNumber : Z) (st : scan) : scan :=
  match paths with
  | [] => st
  | path :: rest =>
      check_paths pm rest lineNumber
        (if Contains path "$" || Contains path "`" then st
         else
           let '(_, needsSymlink, err) := TransformPath pm path in
           match err with
           | Some _ =>
               add_warning (line_prefix lineNumber
                              ++ "Path cannot be transformed: " ++ path) st
           | None =>
               if needsSymlink then
                 add_warning (line_prefix lineNumber
                                ++ "Path would require symlink: " ++ path) st
               else st
           end)
  end.

(** The body of the loop over the lines, for the line numbered
    [lineNumber]. *)
Definition scan_line (sv : ScriptValidator) (lineNumber : Z) (line : string)
    (st : scan) : go scan :=
  let trimmedLine := TrimSpace line in
  if String.eqb trimmedLine "" || HasPrefix trimmedLine "#" then Return st
  else
    st1 <- check_patterns (dangerousPatterns sv) lineNumber line st ;;
    st2 <- check_commands sv (dangerousCommands sv) lineNumber line st1 ;;
    match pathMapper sv with
    | Some pm =>
        paths <- extractPaths line ;;
        Return (check_paths pm paths lineNumber st2)
    | None => Return st2
    end.

(** The loop over the lines; [lineNumber] counts the lines read so far
    and wraps around like the Go [int]. *)
Fixpoint scan_lines (sv : ScriptValidator) (lineNumber : Z)
    (lines : list string) (st : scan) : go scan :=
  match lines with
  | [] => Return st
  | line :: rest =>
      let lineNumber := wrap64 (lineNumber + 1) in
      st' <- scan_line sv lineNumber line st ;;
      scan_lines sv lineNumber rest st'
  end.

(** The verdict of the [switch] on the security level. *)
Definition verdict (level : Z) (r : ScriptValidationResult) : bool :=
  if (level =? SecurityLevelLow)%Z then
    negb ((3 <? Z.of_nat (List.length (Errors r)))%Z
          || (8 <? RiskLevel r)%Z)
  else if (level =? SecurityLevelMedium)%Z then
    negb ((0 <? Z.of_nat (List.length (Errors r)))%Z
          || (6 <? RiskLevel r)%Z)
  else if (level =? SecurityLevelHigh)%Z then
    negb ((0 <? Z.of_nat (List.length (Errors r)))%Z
          || (3 <? Z.of_nat (List.length (Warnings r)))%Z
          || (4 <? RiskLevel r)%Z)
  else true.

Definition initial : ScriptValidationResult := {|
  Valid := true;
  Warnings := [];
  Errors := [];
  RiskLevel := 0;
  DetailedInfo := []
|}.

Definition set_warnings (r : ScriptValidationResult) (ws : list string)
  : ScriptValidationResult := {|
  Valid := Valid r;
  Warnings := ws;
  Errors := Errors r;
  RiskLevel := RiskLevel r;
  DetailedInfo := DetailedInfo r
|}.

(** The end of [ValidateScript]: the detail and the verdict. *)
Definition finish (sv : ScriptValidator) (st : scan) : ScriptValidationResult := {|
  Valid := Valid (result st) && verdict (securityLevel sv) (result st);
  Warnings := Warnings (result st);
  Errors := Errors (result st);
  RiskLevel := RiskLevel (result st);
  DetailedInfo := [("path_modifications", pathModifications st)]
|}.

(** [ValidateScript]: the pair that Go returns, unless a pattern does not
    compile.  The scanner reads the lines one at a time, so the patterns
    are compiled for the lines before one that is too long, and the
    scanner's error is returned after the loop. *)
Definition ValidateScript (sv : ScriptValidator) (scriptName content : string)
  : go (option ScriptValidationResult * error) :=
  if String.eqb (TrimSpace content) "" then
    Return (Some (set_warnings initial ["Script content is empty"]), None)
  else
    let hasValidShebang :=
      existsb (fun interpreter => HasPrefix content interpreter)
              (shellInterpreters sv) in
    let start := {|
      result :=
        if hasValidShebang then initial
        else set_warnings initial
               ["Script does not start with a valid shell interpreter line (shebang)"];
      pathModifications := [] |} in
    let toks := tokens (Split content "010") in
    let read := firstn_while (fun t => (len t <? MaxScanTokenSize)%Z) toks in
    st <- scan_lines sv 0 (map dropCR read) start ;;
    match ScanLines content with
    | None =>
        Return (None,
                Errorf "error scanning script: bufio.Scanner: token too long")
    | Some _ => Return (Some (finish sv st), None)
    end.

Definition IsScriptAllowed (r : ScriptValidationResult) : bool := Valid r.

(** [GetRiskAssessment] *)
Definition GetRiskAssessment (r : ScriptValidationResult) : string :=
  let riskLevel :=
    if (RiskLevel r <? 3)%Z then "Low"
    else if (RiskLevel r <? 7)%Z then "Medium"
    else "High" in
  "Risk Assessment: " ++ riskLevel ++ " (Score: " ++ itoa (RiskLevel r)
    ++ "/10)" ++ String "010" ""
    ++ "Warnings: " ++ itoa (Z.of_nat (List.length (Warnings r)))
    ++ ", Errors: " ++ itoa (Z.of_nat (List.length (Errors r)))
    ++ String "010" ""
    ++ "Valid: " ++ (if Valid r then "true" else "false").

End ScriptValidator.

(* ===================================================================== *)
(** ** debian.Builder *)
(* ===================================================================== *)

Module Builder.
Import Strings Filepath.

(** The builder: the fields that the walk and the scripts use.
    [Scripts] is the map of the maintainer scripts by name. *)
Record Builder := {
  SourceDir : string;
  OutputDir : string;
  BuildDir : string;
  PathMapper : PathMapper.PathMapper;
  PathValidator : Validator.Validator;
  SymlinkProcessor : Symlink.SymlinkProcessor;
  PreservePerms : bool;
  Verbose : bool;
  ExcludeDirs : list string;
  Scripts : list (string * string)
}.

(** The builder that [NewBuilder] returns for directories that exist,
    [buildDir] being the temporary directory it made. *)
Definition NewBuilder (sourceDir outputDir buildDir : string) : Builder :=
  let pm := PathMapper.NewPathMapper in
  let v := {| Validator.policy := Validator.DefaultSecurityPolicy;
              Validator.transformedDir := "/opt" |} in
  let symlinkManager :=
    {| Symlink.managerSymlinkDirs :=
         ["/etc/systemd/system"; "/etc/init.d"; "/usr/share/applications"] |} in
  {| SourceDir := sourceDir;
     OutputDir := outputDir;
     BuildDir := buildDir;
     PathMapper := pm;
     PathValidator := v;
     SymlinkProcessor := Symlink.NewSymlinkProcessor pm symlinkManager v false;
     PreservePerms := false;
     Verbose := false;
     ExcludeDirs := [];
     Scripts := [] |}.

Definition set_processor (b : Builder) (p : Symlink.SymlinkProcessor)
  : Builder :=
  {| SourceDir := SourceDir b;
     OutputDir := OutputDir b;
     BuildDir := BuildDir b;
     PathMapper := PathMapper b;
     PathValidator := PathValidator b;
     SymlinkProcessor := p;
     PreservePerms := PreservePerms b;
     Verbose := Verbose b;
     ExcludeDirs := ExcludeDirs b;
     Scripts := Scripts b |}.

(** [b.Scripts[scriptName] = content] *)
Definition set_script (b : Builder) (scriptName content : string) : Builder :=
  {| SourceDir := SourceDir b;
     OutputDir := OutputDir b;
     BuildDir := BuildDir b;
     PathMapper := PathMapper b;
     PathValidator := PathValidator b;
     SymlinkProcessor := SymlinkProcessor b;
     PreservePerms := PreservePerms b;
     Verbose := Verbose b;
     ExcludeDirs := ExcludeDirs b;
     Scripts :=
       (scriptName, content)
         :: filter (fun e => negb (String.eqb (fst e) scriptName)) (Scripts b) |}.

Definition newline : string := String "010" "".

(** The message of a failed validation.  [SetMaintainerScript] passes it
    to [fmt.Errorf] as the format; this is its text, which is the message
    of the error when it holds no [%]. *)
Definition validation_message (scriptName : string)
    (r : ScriptValidator.ScriptValidationResult) : string :=
  "Script validation failed for " ++ scriptName ++ ". "
    ++ ScriptValidator.GetRiskAssessment r
    ++ match ScriptValidator.Errors r with
       | [] => ""
       | errs =>
           newline ++ "Specific issues:"
             ++ fold_left (fun acc err => acc ++ newline ++ "- " ++ err)
                  errs ""
       end.

(** [SetMaintainerScript].  [ValidateScript] returns a result or an
    error; were both [nil], reading the result would panic. *)
Definition SetMaintainerScript (b : Builder) (scriptName content : string)
  : go (Builder * error) :=
  if negb (existsb (String.eqb scriptName)
                   ["preinst"; "postinst"; "prerm"; "postrm"]) then
    Return (b, Errorf ("invalid maintainer script name: " ++ scriptName))
  else
    let scriptValidator :=
      ScriptValidator.WithPathMapper (PathMapper b)
        (ScriptValidator.WithSecurityLevel
           ScriptValidator.SecurityLevelMedium
           ScriptValidator.NewScriptValidator) in
    out <- ScriptValidator.ValidateScript scriptValidator scriptName content ;;
    match out with
    | (_, Some err) => Return (b, Errorf ("script validation error: " ++ err))
    | (None, None) =>
        Panic "runtime error: invalid memory address or nil pointer dereference"
    | (Some validationResult, None) =>
        if negb (ScriptValidator.Valid validationResult) then
          Return (b, Errorf (validation_message scriptName validationResult))
        else Return (set_script b scriptName content, None)
    end.

(** The lines that [createSymlinkScript] writes for one symlink. *)
Definition symlink_block (symlink : Symlink.SymlinkRequest) : string :=
  "# " ++ Symlink.Description symlink ++ newline
    ++ "mkdir -p $(dirname '" ++ Symlink.Target symlink ++ "')" ++ newline
    ++ "if [ ! -e '" ++ Symlink.Target symlink ++ "' ]; then" ++ newline
    ++ "    ln -sf '" ++ Symlink.Source symlink ++ "' '"
    ++ Symlink.Target symlink ++ "'" ++ newline
    ++ "else" ++ newline
    ++ "    echo " ++ ScriptValidator.dquote ++ "Warning: File '"
    ++ Symlink.Target symlink ++ "' already exists, not creating symlink"
    ++ ScriptValidator.dquote ++ newline
    ++ "fi" ++ newline ++ newline.

Definition script_header : string :=
  "#!/bin/sh" ++ newline ++ newline
    ++ "# This script was generated by go-pkginstall to create necessary symlinks"
    ++ newline ++ newline
    ++ "set -e" ++ newline ++ newline.

(** The content of the generated [postinst]. *)
Definition symlink_script (symlinks : list Symlink.SymlinkRequest) : string :=
  script_header ++ String.concat "" (map symlink_block symlinks).

Definition createSymlinkScript (b : Builder) : go (Builder * error) :=
  match Symlink.GetQueuedSymlinks (SymlinkProcessor b) with
  | [] => Return (b, None)
  | symlinks => SetMaintainerScript b "postinst" (symlink_script symlinks)
  end.

(** An entry as [filepath.Walk] hands it to the function of [copyFiles]:
    the path, the error of the walk, what [info] tells, and what
    [filepath.Rel(b.SourceDir, srcPath)] returns for it. *)
Record WalkEntry := {
  srcPath : string;
  walkErr : error;
  isDir : bool;
  mode : Z;
  relPath : string;
  relErr : error
}.

(** The permissions of a copied file: [0644] is 420, [0100] is 64 and
    [0755] is 493. *)
Definition file_mode (preservePerms : bool) (infoMode : Z) : Z :=
  let mode := infoMode in
  if negb preservePerms then
    let mode := 420%Z in
    if negb (Z.land mode 64 =? 0)%Z then 493%Z else mode
  else mode.

Section WithOS.
Variable os : OS.

(** The end of the function of the walk: the entry is made at
    [targetPath] in the build directory. *)
Definition copy_entry (b : Builder) (w : World os) (e : WalkEntry)
    (targetPath : string) : World os * error :=
  if isDir e then
    match MkdirAll os w targetPath (mode e) with
    | (w1, Some err) =>
        (w1, Errorf ("failed to create directory " ++ targetPath ++ ": " ++ err))
    | (w1, None) => (w1, None)
    end
  else
    match MkdirAll os w (Dir targetPath) 493 with
    | (w1, Some err) =>
        (w1, Errorf ("failed to create parent directory for "
                       ++ targetPath ++ ": " ++ err))
    | (w1, None) =>
    match Open os w1 (srcPath e) with
    | Some err =>
        (w1, Errorf ("failed to open source file " ++ srcPath e ++ ": " ++ err))
    | None =>
    match Create os w1 targetPath with
    | (w2, Some err) =>
        (w2, Errorf ("failed to create target file " ++ targetPath ++ ": " ++ err))
    | (w2, None) =>
    match Copy os w2 (srcPath e) targetPath with
    | (w3, Some err) =>
        (w3, Errorf ("failed to copy file content from " ++ srcPath e
                       ++ " to " ++ targetPath ++ ": " ++ err))
    | (w3, None) =>
    match Chmod os w3 targetPath (file_mode (PreservePerms b) (mode e)) with
    | (w4, Some err) =>
        (w4, Errorf ("failed to set permissions on " ++ targetPath ++ ": " ++ err))
    | (w4, None) => (w4, None)
    end end end end end.

(** The function that [copyFiles] gives to [filepath.Walk]. *)
Definition walkFn (b : Builder) (w : World os) (e : WalkEntry)
  : Builder * World os * error :=
  match walkErr e with
  | Some err => (b, w, Some err)
  | None =>
  if existsb (fun excludeDir => HasPrefix (srcPath e) excludeDir)
             (ExcludeDirs b)
  then (b, w, None)
  else
  match relErr e with
  | Some err => (b, w, Errorf ("failed to get relative path: " ++ err))
  | None =>
  if String.eqb (relPath e) "." then (b, w, None)
  else
    let absPath := Join2 "/" (relPath e) in
    let '(transformed, needsSymlink, err) :=
      PathMapper.TransformPath (PathMapper b) absPath in
    let transformedPath :=
      match err with
      | Some _ => absPath
      | None => transformed
      end in
    match Validator.ValidatePath (PathValidator b) transformedPath with
    | Some err =>
        (b, w, Errorf ("path validation failed for " ++ transformedPath
                         ++ ": " ++ err))
    | None =>
    match Validator.ValidatePathTraversal (PathValidator b) transformedPath with
    | Some err =>
        (b, w, Errorf ("path traversal check failed for " ++ transformedPath
                         ++ ": " ++ err))
    | None =>
        let b' :=
          if needsSymlink then
            set_processor b
              (fst (Symlink.ProcessPath os (SymlinkProcessor b) w
                      absPath transformedPath))
          else b in
        let '(w', err) :=
          copy_entry b' w e (Join2 (BuildDir b) transformedPath) in
        (b', w', err)
    end end
  end end.

(** [copyFiles]: [filepath.Walk] calls the function for the entries in
    turn and stops at the first error. *)
Fixpoint copyFiles (b : Builder) (w : World os) (entries : list WalkEntry)
  : Builder * World os * error :=
  match entries with
  | [] => (b, w, None)
  | e :: rest =>
      match walkFn b w e with
      | (b', w', Some err) => (b', w', Some err)
      | (b', w', None) => copyFiles b' w' rest
      end
  end.

End WithOS.

End Builder.

(* ===================================================================== *)
(** ** The build command *)
(* ===================================================================== *)

Module BuildCommand.
Import Strings Filepath.

Section WithFiles.

(** [os.ReadFile]: the content of the file and the error of the call. *)
Variable ReadFile : string -> string * error.

(** [loadMaintainerScript]: the content of the script, its name, and the
    error. *)
Definition loadMaintainerScript (path : string) : string * string * error :=
  match ReadFile path with
  | (_, Some err) =>
      ("", "", Errorf ("failed to read script file: " ++ err))
  | (content, None) =>
      let base := Base path in
      if HasPrefix base "preinst" then (content, "preinst", None)
      else if HasPrefix base "postinst" then (content, "postinst", None)
      else if HasPrefix base "prerm" then (content, "prerm", None)
      else if HasPrefix base "postrm" then (content, "postrm", None)
      else ("", "", Errorf ("unknown maintainer script type: " ++ base))
  end.

End WithFiles.

End BuildCommand.

(* ===================================================================== *)
(** ** The symlink command *)
(* ===================================================================== *)

Module SymlinkCommand.
Import Strings Filepath PathMapper Validator Symlink.

(** The options that [runCreateCommand] reads. *)
Record CommandOptions := {
  Verbose : bool;
  DryRun : bool;
  Source : string;
  Target : string;
  Description : string;
  Force : bool
}.

Section WithOS.
Variable os : OS.

(** [filepath.Abs], which depends on the working directory; [os.Stat],
    seen through its error; [os.Remove]. *)
Variable Abs : string -> string * error.
Variable Stat : World os -> string -> error.
Variable Remove : World os -> string -> World os * error.

(** The part of [runCreateCommand] from the test of the target on, in the
    file system [w]. *)
Definition create (options : CommandOptions) (processor : SymlinkProcessor)
    (w : World os) (source target : string) : World os * error :=
  let description :=
    if String.eqb (Description options) "" then
      "Symlink from " ++ source ++ " to " ++ target
    else Description options in
  let removed : World os * error :=
    if Lstat os w target then
      if negb (Force options) then
        (w, Errorf ("target path already exists: " ++ target
                      ++ " (use --force to override)"))
      else if negb (DryRun options) then
        match Remove w target with
        | (w1, Some err) =>
            (w1, Errorf ("failed to remove existing target: " ++ err))
        | (w1, None) => (w1, None)
        end
      else (w, None)
    else (w, None) in
  match removed with
  | (w1, Some err) => (w1, Some err)
  | (w1, None) =>
  let parentDir := Dir target in
  let made : World os * error :=
    if negb (DryRun options) then
      match MkdirAll os w1 parentDir 493 with
      | (w2, Some err) =>
          (w2, Errorf ("failed to create parent directory: " ++ err))
      | (w2, None) => (w2, None)
      end
    else (w1, None) in
  match made with
  | (w2, Some err) => (w2, Some err)
  | (w2, None) =>
  let request :=
    {| Symlink.Source := source;
       Symlink.Target := target;
       Symlink.Description := description |} in
  match QueueSymlink os processor w2 request with
  | (_, Some err) => (w2, Errorf ("failed to queue symlink: " ++ err))
  | (processor1, None) =>
  match ProcessQueuedSymlinks os processor1 w2 with
  | (_, w3, Some err) => (w3, Errorf ("failed to create symlink: " ++ err))
  | (_, w3, None) => (w3, None)
  end end end end.

(** [runCreateCommand]: the file system after the call and its error. *)
Definition runCreateCommand (w : World os) (options : CommandOptions)
  : World os * error :=
  match Abs (Source options) with
  | (_, Some err) => (w, Errorf ("invalid source path: " ++ err))
  | (source, None) =>
  match Abs (Target options) with
  | (_, Some err) => (w, Errorf ("invalid target path: " ++ err))
  | (target, None) =>
  let pathMapper := NewPathMapper in
  let validator := NewValidator in
  let symlinkDirs := GetSymlinkDirs pathMapper in
  let manager := {| managerSymlinkDirs := symlinkDirs |} in
  let processor :=
    SetDryRun (NewSymlinkProcessor pathMapper manager validator
                 (Verbose options))
              (DryRun options) in
  match Stat w source with
  | Some err => (w, Errorf ("source file error: " ++ err))
  | None =>
  match ValidatePath validator target with
  | Some err => (w, Errorf ("target path validation failed: " ++ err))
  | None =>
  match ValidatePathTraversal validator target with
  | Some err => (w, Errorf ("security validation failed: " ++ err))
  | None => create options processor w source target
  end end end end end.

End WithOS.

End SymlinkCommand.

(* ===================================================================== *)
(** ** Package config *)
(* ===================================================================== *)

Module Config.

Record Config := {
  PackageName : string;
  Version : string;
  Maintainer : string;
  Description : string;
  Architecture : string;
  Priority : string;
  Section_ : string
}.

Section WithLog.

(** [log.Output(calldepth, s)]: it writes the message to the output of
    the standard logger and returns the error of that write. *)
Variable log_Output : Z -> string -> error.

(** [Validate]: what it returns for a missing field is what [log.Output]
    returns. *)
Definition Validate (c : Config) : error :=
  if String.eqb (PackageName c) "" then
    log_Output 1 "Package name is required"
  else if String.eqb (Version c) "" then
    log_Output 1 "Version is required"
  else if String.eqb (Maintainer c) "" then
    log_Output 1 "Maintainer is required"
  else None.

End WithLog.

End Config.

(* ===================================================================== *)
(** * Properties *)
(* ===================================================================== *)

(** ** Strings *)

Section StringFacts.
Import Strings.

Lemma HasPrefix_empty (s : string) : HasPrefix s "" = true.
Proof. now destruct s. Qed.

Lemma HasPrefix_refl (s : string) : HasPrefix s s = true.
Proof.
  induction s as [|c s IH]; simpl; [reflexivity|].
  now rewrite Ascii.eqb_refl, IH.
Qed.

Lemma HasPrefix_app (p s : string) : HasPrefix (p ++ s) p = true.
Proof.
  induction p as [|c p IH]; simpl; [now destruct s|].
  now rewrite Ascii.eqb_refl, IH.
Qed.

Lemma HasPrefix_inv (s p : string) :
  HasPrefix s p = true -> s = p ++ drop (String.length p) s.
Proof.
  revert s; induction p as [|c p IH]; intros s H; simpl in *.
  - now destruct s.
  - destruct s as [|d s]; [discriminate|].
    apply andb_true_iff in H as [Hc Hp].
    apply Ascii.eqb_eq in Hc; subst d.
    simpl. f_equal. now apply IH.
Qed.

(** A string none of whose bytes is the separator. *)
Fixpoint nosep (s : string) : bool :=
  match s with
  | EmptyString => true
  | String c s' => negb (Ascii.eqb c "/") && nosep s'
  end.

Lemma Split_nosep (s : string) : nosep s = true -> Split s "/" = [s].
Proof.
  induction s as [|c s IH]; simpl; [reflexivity|].
  intros H. apply andb_true_iff in H as [Hc Hs].
  apply negb_true_iff in Hc. rewrite Hc, (IH Hs). reflexivity.
Qed.

Lemma Split_app_sep (a b : string) :
  nosep a = true -> Split (a ++ "/" ++ b) "/" = a :: Split b "/".
Proof.
  induction a as [|c a IH]; simpl; [reflexivity|].
  intros H. apply andb_true_iff in H as [Hc Ha].
  apply negb_true_iff in Hc. rewrite Hc.
  simpl in IH. rewrite (IH Ha). reflexivity.
Qed.

Lemma Split_Join (l : list string) :
  l <> [] -> Forall (fun e => nosep e = true) l ->
  Split (Join l "/") "/" = l.
Proof.
  induction l as [|e l IH]; [congruence|].
  intros _ H. inversion H as [|? ? He Hl]; subst.
  destruct l as [|e2 l].
  - simpl. now apply Split_nosep.
  - change (Join (e :: e2 :: l) "/") with (e ++ "/" ++ Join (e2 :: l) "/").
    rewrite Split_app_sep by assumption.
    f_equal. apply IH; [discriminate | assumption].
Qed.

Lemma Split_all_nosep (s : string) :
  Forall (fun e => nosep e = true) (Split s "/").
Proof.
  induction s as [|c s IH]; simpl.
  - constructor; [reflexivity | constructor].
  - destruct (Ascii.eqb c "/") eqn:Hc.
    + constructor; [reflexivity | assumption].
    + destruct (Split s "/") as [|h t].
      * constructor; [simpl; now rewrite Hc | constructor].
      * inversion IH; subst. constructor; [|assumption].
        simpl. now rewrite Hc.
Qed.

End StringFacts.

(** ** filepath.Clean is idempotent *)

Section CleanFacts.
Import Strings Filepath.

(** A path element that [Clean] keeps as it is. *)
Definition real (e : string) : Prop :=
  nosep e = true /\ e <> "" /\ e <> "." /\ e <> "..".

(** The shape of the output buffer: real elements above leading [..]
    elements, which only an unrooted path has. *)
Inductive wf_out (rooted : bool) : list string -> Prop :=
| wf_dots : forall n, (rooted = true -> n = 0) ->
                      wf_out rooted (repeat ".." n)
| wf_real : forall e out, real e -> wf_out rooted out ->
                          wf_out rooted (e :: out).

Definition render (rooted : bool) (out : list string) : string :=
  if rooted then "/" ++ Join (rev out) "/"
  else match out with
       | [] => "."
       | _ => Join (rev out) "/"
       end.

Lemma Clean_unfold (path : string) :
  path <> "" ->
  Clean path =
    render (HasPrefix path "/")
      (fold_left (clean_step (HasPrefix path "/")) (Split path Separator) []).
Proof.
  intros H. unfold Clean, render.
  destruct (String.eqb_spec path ""); [contradiction | reflexivity].
Qed.

Lemma clean_step_real rooted out e :
  real e -> clean_step rooted out e = e :: out.
Proof.
  intros (_ & H1 & H2 & H3). unfold clean_step.
  destruct (String.eqb_spec e ""); [contradiction|].
  destruct (String.eqb_spec e "."); [contradiction|].
  destruct (String.eqb_spec e ".."); [contradiction|].
  reflexivity.
Qed.

Lemma wf_out_nil rooted : wf_out rooted [].
Proof. apply (@wf_dots rooted 0). reflexivity. Qed.

Lemma clean_step_wf rooted out e :
  nosep e = true -> wf_out rooted out -> wf_out rooted (clean_step rooted out e).
Proof.
  intros He Hwf. unfold clean_step.
  destruct (String.eqb_spec e ""); [assumption|].
  destruct (String.eqb_spec e "."); [assumption|].
  destruct (String.eqb_spec e "..").
  - destruct out as [|top rest].
    + destruct rooted; [apply wf_out_nil|].
      apply (@wf_dots false 1). discriminate.
    + destruct (String.eqb_spec top "..").
      * destruct rooted; [assumption|].
        inversion Hwf as [k Hk Heq | ? ? Hr ? ]; subst.
        -- apply (@wf_dots false (S k)). discriminate.
        -- destruct Hr as (_ & _ & _ & Hr). contradiction.
      * inversion Hwf as [k Hk Heq | ? ? Hr Hrest ]; subst.
        -- destruct k; simpl in Heq; [discriminate|].
           inversion Heq; subst. contradiction.
        -- assumption.
  - apply wf_real; [|assumption]. repeat split; assumption.
Qed.

Lemma fold_clean_wf rooted segs out :
  Forall (fun e => nosep e = true) segs -> wf_out rooted out ->
  wf_out rooted (fold_left (clean_step rooted) segs out).
Proof.
  revert out; induction segs as [|e segs IH]; intros out Hs Hwf; simpl.
  - assumption.
  - inversion Hs; subst. apply IH; [assumption|].
    now apply clean_step_wf.
Qed.

Lemma wf_out_nosep rooted out :
  wf_out rooted out -> Forall (fun e => nosep e = true) out.
Proof.
  induction 1 as [n Hn | e out He Hwf IH].
  - induction n; simpl; constructor; [reflexivity|].
    apply IHn. intros Hr. specialize (Hn Hr). discriminate.
  - constructor; [apply He | assumption].
Qed.

Lemma fold_clean_rev rooted out :
  wf_out rooted out -> fold_left (clean_step rooted) (rev out) [] = out.
Proof.
  induction 1 as [n Hn | e out He Hwf IH].
  - induction n as [|n IHn]; [reflexivity|].
    simpl. rewrite fold_left_app. simpl.
    destruct rooted; [specialize (Hn eq_refl); discriminate|].
    rewrite IHn by discriminate.
    destruct n; reflexivity.
  - simpl. rewrite fold_left_app. simpl. rewrite IH.
    now apply clean_step_real.
Qed.

Lemma wf_out_last_nosep_nonempty rooted out e l :
  wf_out rooted out -> rev out = e :: l ->
  nosep e = true /\ e <> "".
Proof.
  intros Hwf Hrev.
  assert (Hin : In e out).
  { apply in_rev. rewrite Hrev. now left. }
  clear Hrev. induction Hwf as [n Hn | x out Hx Hwf IH].
  - apply repeat_spec in Hin. subst. split; [reflexivity | discriminate].
  - destruct Hin as [<- | Hin]; [|now apply IH].
    destruct Hx as (H1 & H2 & _). now split.
Qed.

Lemma Join_cons_nonempty e l :
  e <> "" -> Join (e :: l) "/" <> "" /\
             HasPrefix (Join (e :: l) "/") "/" = HasPrefix e "/".
Proof.
  intros He. destruct e as [|c e]; [contradiction|].
  destruct l; simpl; rewrite ?HasPrefix_empty; split;
    try discriminate; reflexivity.
Qed.

Lemma Clean_render rooted out :
  wf_out rooted out -> Clean (render rooted out) = render rooted out.
Proof.
  intros Hwf.
  pose proof (wf_out_nosep Hwf) as Hns.
  destruct rooted.
  - unfold render. rewrite Clean_unfold by discriminate.
    rewrite (HasPrefix_app "/" (Join (rev out) "/")).
    change (Split ("/" ++ Join (rev out) "/") Separator)
      with ("" :: Split (Join (rev out) "/") "/").
    destruct out as [|e out].
    + reflexivity.
    + rewrite Split_Join.
      * cbn [fold_left]. change (clean_step true [] "") with (@nil string).
        rewrite (fold_clean_rev Hwf). reflexivity.
      * intros Hnil. apply (f_equal (@List.length string)) in Hnil.
        rewrite length_rev in Hnil. discriminate.
      * apply Forall_rev. assumption.
  - destruct out as [|e out]; [reflexivity|].
    unfold render.
    destruct (rev (e :: out)) as [|f l] eqn:Hrev.
    { apply (f_equal (@List.length string)) in Hrev.
      rewrite length_rev in Hrev. discriminate. }
    destruct (wf_out_last_nosep_nonempty Hwf Hrev) as [Hf Hne].
    destruct (Join_cons_nonempty l Hne) as [Hj Hp].
    rewrite Clean_unfold by assumption.
    rewrite Hp.
    assert (Hpf : HasPrefix f "/" = false).
    { destruct f as [|c f]; [contradiction|]. simpl in *.
      apply andb_true_iff in Hf as [Hc _]. apply negb_true_iff in Hc.
      now rewrite Hc. }
    rewrite Hpf. unfold Separator.
    rewrite Split_Join.
    + rewrite <- Hrev. rewrite (fold_clean_rev Hwf).
      unfold render. rewrite Hrev. reflexivity.
    + discriminate.
    + rewrite <- Hrev. apply Forall_rev. assumption.
Qed.

Lemma Clean_idempotent (path : string) : Clean (Clean path) = Clean path.
Proof.
  destruct (String.eqb_spec path "") as [->|Hne]; [reflexivity|].
  rewrite (Clean_unfold Hne).
  apply Clean_render.
  apply fold_clean_wf; [apply Split_all_nosep | apply wf_out_nil].
Qed.

Lemma Clean_nonempty (path : string) : Clean path <> "".
Proof.
  destruct (String.eqb_spec path "") as [->|Hne]; [discriminate|].
  rewrite (Clean_unfold Hne).
  set (rooted := HasPrefix path "/").
  assert (Hwf : wf_out rooted
            (fold_left (clean_step rooted) (Split path Separator) [])).
  { apply fold_clean_wf; [apply Split_all_nosep | apply wf_out_nil]. }
  destruct rooted; unfold render; [discriminate|].
  destruct (fold_left _ _ _) as [|e out] eqn:Hf; [discriminate|].
  destruct (rev (e :: out)) as [|f l] eqn:Hrev.
  { apply (f_equal (@List.length string)) in Hrev.
    rewrite length_rev in Hrev. discriminate. }
  destruct (wf_out_last_nosep_nonempty Hwf Hrev) as [_ Hne'].
  apply (Join_cons_nonempty l Hne').
Qed.

End CleanFacts.

(** ** PathMapper *)

Section PathMapperFacts.
Import Strings Filepath PathMapper.

Lemma find_none_of_existsb (A : Type) (f : A -> bool) (l : list A) :
  existsb f l = false -> find f l = None.
Proof.
  induction l as [|x l IH]; simpl; [reflexivity|].
  destruct (f x); simpl; [discriminate | exact IH].
Qed.

Lemma find_some_of_existsb (A : Type) (f : A -> bool) (l : list A) :
  existsb f l = true -> exists x, find f l = Some x.
Proof.
  induction l as [|x l IH]; simpl; [discriminate|].
  destruct (f x); simpl; [eauto | exact IH].
Qed.

(** When one entry only passes the test, every visiting order finds it. *)
Lemma find_unique_perm (A : Type) (f : A -> bool) (l l' : list A) (x : A) :
  Permutation l l' -> In x l -> f x = true ->
  (forall y, In y l -> f y = true -> y = x) ->
  find f l' = Some x.
Proof.
  intros Hp Hin Hfx Huniq.
  destruct (find f l') as [y|] eqn:Hf.
  - apply find_some in Hf as [Hy Hfy].
    f_equal. apply Huniq; [|assumption].
    apply (Permutation_in _ (Permutation_sym Hp) Hy).
  - exfalso. pose proof (find_none _ _ Hf x (Permutation_in _ Hp Hin)) as Hn.
    rewrite Hfx in Hn. discriminate.
Qed.

Lemma IsTransformedPath_Clean pm path :
  IsTransformedPath pm (Clean path) =
  HasPrefix (Clean path) (baseTransformDir pm).
Proof.
  unfold IsTransformedPath.
  destruct (String.eqb_spec (Clean path) "") as [H|_].
  - now apply Clean_nonempty in H.
  - now rewrite Clean_idempotent.
Qed.

(** The successful branch of [TransformPath]. *)
Lemma TransformPath_rule pm path sysDir secureDir :
  path <> "" ->
  HasPrefix (Clean path) (baseTransformDir pm) = false ->
  find (fun e => under (Clean path) (fst e)) (systemDirs pm)
    = Some (sysDir, secureDir) ->
  TransformPath pm path =
    (Replace1 (Clean path) sysDir secureDir,
     shouldCreateSymlink pm (Clean path), None).
Proof.
  intros Hne Hbase Hfind. unfold TransformPath.
  destruct (String.eqb_spec path ""); [contradiction|].
  rewrite IsTransformedPath_Clean, Hbase, Hfind. reflexivity.
Qed.

(** A non-empty path for which [IsTransformedPath] and [IsSystemPath] are
    both false is never transformed: [TransformPath] returns the error "no
    transformation rule matched for path: ..." with an empty path and no
    symlink, whatever the order in which the mappings are visited. *)
Lemma TransformPath_no_rule (pm : PathMapper) (p : string) :
  p <> "" ->
  IsTransformedPath pm p = false ->
  IsSystemPath pm p = false ->
  TransformPath pm p =
    ("", false, Errorf ("no transformation rule matched for path: " ++ p)).
Proof.
  intros Hne Htr Hsys. unfold TransformPath.
  unfold IsTransformedPath in Htr. unfold IsSystemPath in Hsys.
  destruct (String.eqb_spec p ""); [contradiction|].
  rewrite IsTransformedPath_Clean, Htr.
  rewrite (find_none_of_existsb _ _ Hsys). reflexivity.
Qed.

Example TransformPath_no_rule_example :
  TransformPath NewPathMapper "/some/random/path" =
    ("", false,
     Errorf "no transformation rule matched for path: /some/random/path").
Proof.
  apply (@TransformPath_no_rule NewPathMapper "/some/random/path");
    [discriminate | reflexivity | reflexivity].
Qed.

(** C1 fails on the code.  [IsTransformedPath] tests the secure root as a
    prefix of the text of the path, with no separator after it, where the
    tests of the system prefixes and of the symlink directories add one.
    The path [/optional/bin] is not [/opt] nor under it and is under no
    system prefix, and [TransformPath] takes it for a transformed path and
    returns it with no error, in whatever order the mappings are visited.
    The repository's test of [IsTransformedPath] expects false for this
    path. *)
Theorem TransformPath_accepts_secure_root_sibling
    (order : list (string * string)) :
  under "/optional/bin" (baseTransformDir NewPathMapper) = false
  /\ IsSystemPath NewPathMapper "/optional/bin" = false
  /\ IsTransformedPath (with_order NewPathMapper order) "/optional/bin" = true
  /\ TransformPath (with_order NewPathMapper order) "/optional/bin"
     = ("/optional/bin", false, None).
Proof. repeat split. Qed.

(** The claim of C5 fails: the two inputs are sent to different paths. *)
Lemma TransformPath_normalization_counterexample :
  fst (fst (TransformPath NewPathMapper "/usr/local/../bin/app"))
  <> fst (fst (TransformPath NewPathMapper "/bin/app")).
Proof. vm_compute. discriminate. Qed.

Lemma default_rule_unique (norm : string) (rule : string * string) :
  In rule (systemDirs NewPathMapper) ->
  under norm (fst rule) = true ->
  forallb (fun e => negb (under norm (fst e)) || String.eqb (fst e) (fst rule))
          (systemDirs NewPathMapper) = true ->
  forall y, In y (systemDirs NewPathMapper) ->
            under norm (fst y) = true -> y = rule.
Proof.
  intros Hin Hu Hall y Hy Huy.
  rewrite forallb_forall in Hall.
  specialize (Hall y Hy). rewrite Huy in Hall. simpl in Hall.
  apply String.eqb_eq in Hall.
  simpl in Hin, Hy.
  repeat (destruct Hin as [<- | Hin]);
    try contradiction;
    repeat (destruct Hy as [<- | Hy]);
    try contradiction; try reflexivity; discriminate.
Qed.

(** C5, amended.  [TransformPath] normalizes [/usr/local/../bin/app] to
    [/usr/bin/app], so it returns [/opt/usr/bin/app], the result for
    [/usr/bin/app], while [/bin/app] is sent to [/opt/bin/app]; the three
    calls ask for a symlink.  This holds in whatever order the default
    mappings are visited. *)
Theorem TransformPath_normalizes_before_matching
    (order : list (string * string)) :
  Permutation (systemDirs NewPathMapper) order ->
  let pm := with_order NewPathMapper order in
  TransformPath pm "/usr/local/../bin/app" = ("/opt/usr/bin/app", true, None)
  /\ TransformPath pm "/usr/bin/app" = ("/opt/usr/bin/app", true, None)
  /\ TransformPath pm "/bin/app" = ("/opt/bin/app", true, None).
Proof.
  intros Hperm pm.
  assert (Husr : forall norm,
             under norm "/usr" = true ->
             forallb (fun e => negb (under norm (fst e))
                               || String.eqb (fst e) "/usr")
                     (systemDirs NewPathMapper) = true ->
             find (fun e => under norm (fst e)) order
             = Some ("/usr", "/opt/usr")).
  { intros norm Hu Hall.
    apply (find_unique_perm (fun e => under norm (fst e)) Hperm
             (x := ("/usr", "/opt/usr"))).
    - simpl. tauto.
    - exact Hu.
    - apply default_rule_unique; [simpl; tauto | exact Hu | exact Hall]. }
  assert (Hbin : find (fun e => under "/bin/app" (fst e)) order
                 = Some ("/bin", "/opt/bin")).
  { apply (find_unique_perm (fun e => under "/bin/app" (fst e)) Hperm
             (x := ("/bin", "/opt/bin"))).
    - simpl. tauto.
    - reflexivity.
    - apply default_rule_unique; [simpl; tauto | reflexivity | reflexivity]. }
  split; [|split].
  - rewrite (@TransformPath_rule pm _ "/usr" "/opt/usr");
      [reflexivity | discriminate | reflexivity |].
    apply Husr; reflexivity.
  - rewrite (@TransformPath_rule pm _ "/usr" "/opt/usr");
      [reflexivity | discriminate | reflexivity |].
    apply Husr; reflexivity.
  - rewrite (@TransformPath_rule pm _ "/bin" "/opt/bin");
      [reflexivity | discriminate | reflexivity | exact Hbin].
Qed.

Lemma TransformPath_normalizes_before_matching_witness :
  TransformPath NewPathMapper "/usr/local/../bin/app"
    = ("/opt/usr/bin/app", true, None)
  /\ TransformPath NewPathMapper "/usr/bin/app"
    = ("/opt/usr/bin/app", true, None)
  /\ TransformPath NewPathMapper "/bin/app" = ("/opt/bin/app", true, None).
Proof.
  exact (@TransformPath_normalizes_before_matching
           (systemDirs NewPathMapper) (Permutation_refl _)).
Defined.

End PathMapperFacts.


(** ** Validator *)

Section ValidatorFacts.
Import Strings Filepath Validator.

(** C4 fails on the code.  [ValidatePathTraversal] looks for [..] in the
    path that [filepath.Clean] returns, and [Clean] has already resolved
    every [..] of a rooted path: the path of the repository's own test
    case "Basic traversal" is accepted. *)
Theorem ValidatePathTraversal_accepts_dotdot :
  Clean "/opt/myapp/../../../etc/passwd" = "/etc/passwd"
  /\ existsb (String.eqb "..") (Split "/opt/myapp/../../../etc/passwd" "/")
     = true
  /\ ValidatePathTraversal NewValidator "/opt/myapp/../../../etc/passwd"
     = None.
Proof. vm_compute. repeat split. Qed.

End ValidatorFacts.

(** ** The symlink queue *)

Section SymlinkFacts.
Import Strings Filepath PathMapper Validator Symlink.

Variable os : OS.

Definition unique_targets (p : SymlinkProcessor) : Prop :=
  NoDup (map Target (symlinkQueue p)).

Lemma queued_target_spec (q : list SymlinkRequest) (request : SymlinkRequest) :
  existsb (fun existing => String.eqb (Target existing) (Target request)) q
  = true <-> In (Target request) (map Target q).
Proof.
  rewrite existsb_exists, in_map_iff. split.
  - intros (x & Hin & Heq). apply String.eqb_eq in Heq. eauto.
  - intros (x & Heq & Hin). exists x. split; [assumption|].
    now apply String.eqb_eq.
Qed.

(** A call of [QueueSymlink] either fails and leaves the processor as it
    was, or appends a request whose target was not queued. *)
Lemma QueueSymlink_cases (p : SymlinkProcessor) (w : World os)
    (request : SymlinkRequest) :
  (exists msg, QueueSymlink os p w request = (p, Some msg))
  \/ (~ In (Target request) (map Target (symlinkQueue p))
      /\ QueueSymlink os p w request
         = (set_queue p (symlinkQueue p ++ [request])%list, None)).
Proof.
  unfold QueueSymlink.
  destruct (ValidatePath (validator p) (Source request)); [left; eauto|].
  destruct (ValidatePath (validator p) (Target request)); [left; eauto|].
  destruct (ValidateSymlink os (validator p) w (Source request)
              (Target request)); [left; eauto|].
  destruct (existsb _ (symlinkQueue p)) eqn:Hdup; [left; eauto|].
  right. split; [|reflexivity].
  intros Hin. apply queued_target_spec in Hin. congruence.
Qed.

Lemma QueueSymlink_unique (p : SymlinkProcessor) (w : World os)
    (request : SymlinkRequest) :
  unique_targets p -> unique_targets (fst (QueueSymlink os p w request)).
Proof.
  intros Hinv.
  destruct (QueueSymlink_cases p w request) as [[msg ->] | [Hnew ->]];
    [exact Hinv|].
  unfold unique_targets. simpl. rewrite map_app. simpl.
  apply NoDup_rev in Hinv.
  rewrite <- (rev_involutive (map Target (symlinkQueue p) ++ [Target request])).
  apply NoDup_rev. rewrite rev_app_distr. simpl.
  constructor; [|assumption].
  now rewrite <- in_rev.
Qed.

Lemma ProcessPath_unique (p : SymlinkProcessor) (w : World os)
    (originalPath transformedPath : string) :
  unique_targets p ->
  unique_targets (fst (ProcessPath os p w originalPath transformedPath)).
Proof.
  intros Hinv. unfold ProcessPath.
  destruct (TransformPath (pathMapper p) originalPath)
    as [[transformed needsSymlink] [e|]]; [exact Hinv|].
  destruct needsSymlink; [|exact Hinv].
  now apply QueueSymlink_unique.
Qed.

Lemma ProcessQueuedSymlinks_queue (p : SymlinkProcessor) (w : World os) :
  symlinkQueue (fst (fst (ProcessQueuedSymlinks os p w))) = [].
Proof.
  unfold ProcessQueuedSymlinks.
  destruct (symlinkQueue p) as [|r q] eqn:Hq; [exact Hq|].
  destruct (process_queue os p w (r :: q) []) as [w' errs].
  now destruct (0 <? Z.of_nat (List.length errs))%Z.
Qed.

Lemma step_unique (s s' : SymlinkProcessor * World os) (op : option Op) :
  step os s op s' -> unique_targets (fst s) -> unique_targets (fst s').
Proof.
  intros Hstep Hinv. destruct Hstep; simpl in *.
  - now apply QueueSymlink_unique.
  - now apply ProcessPath_unique.
  - unfold unique_targets. rewrite ProcessQueuedSymlinks_queue. constructor.
  - exact Hinv.
  - exact Hinv.
Qed.

Lemma steps_unique (s s' : SymlinkProcessor * World os)
    (ops : list (option Op)) :
  steps os s ops s' -> unique_targets (fst s) -> unique_targets (fst s').
Proof.
  induction 1 as [s | s op s' ops s'' Hstep _ IH]; intros Hinv.
  - exact Hinv.
  - apply IH. exact (step_unique Hstep Hinv).
Qed.

(** C6.  Starting from the empty queue of a new processor, after any
    sequence of calls of [QueueSymlink], [ProcessPath],
    [ProcessQueuedSymlinks] and [SetDryRun], whatever happens to the file
    system in between, no two queued requests have the same target; and a
    call of [QueueSymlink] for a target that is already queued returns an
    error and leaves the processor, hence the queue and its length, as it
    was. *)
Theorem symlink_queue_targets_unique
    (p0 p : SymlinkProcessor) (w0 w : World os) (ops : list (option Op)) :
  symlinkQueue p0 = [] ->
  steps os (p0, w0) ops (p, w) ->
  NoDup (map Target (symlinkQueue p))
  /\ forall (request : SymlinkRequest) (w' : World os),
       In (Target request) (map Target (symlinkQueue p)) ->
       exists msg, QueueSymlink os p w' request = (p, Some msg).
Proof.
  intros Hempty Hsteps. split.
  - apply (steps_unique Hsteps). unfold unique_targets. simpl.
    rewrite Hempty. constructor.
  - intros request w' Hin.
    destruct (QueueSymlink_cases p w' request) as [Herr | [Hnew _]];
      [exact Herr | contradiction].
Qed.

(** *** ProcessQueuedSymlinks *)

Definition errs_of (tr : list (SymlinkRequest * error)) : list string :=
  flat_map (fun a => match snd a with Some e => [e] | None => [] end) tr.

Lemma errs_of_length (tr : list (SymlinkRequest * error)) :
  List.length (errs_of tr) = List.length (filter failed tr).
Proof.
  induction tr as [|[r [e|]] tr IH]; simpl; [reflexivity | | exact IH].
  unfold failed at 1. simpl. now rewrite IH.
Qed.

Lemma attempts_requests (p : SymlinkProcessor) (w : World os)
    (queue : list SymlinkRequest) :
  map fst (attempts os p w queue) = queue.
Proof.
  revert w; induction queue as [|r q IH]; intros w; simpl;
    [reflexivity | now rewrite IH].
Qed.

Lemma process_queue_spec (p : SymlinkProcessor) (w : World os)
    (queue : list SymlinkRequest) (errs : list string) :
  process_queue os p w queue errs =
    (world_after os p w queue, (errs ++ errs_of (attempts os p w queue))%list).
Proof.
  revert w errs; induction queue as [|r q IH]; intros w errs; simpl.
  - now rewrite app_nil_r.
  - destruct (createSymlink os p w r) as [w' [e|]]; simpl; rewrite IH.
    + now rewrite <- app_assoc.
    + reflexivity.
Qed.

Lemma dry_run_no_failure (p : SymlinkProcessor) (w : World os)
    (queue : list SymlinkRequest) :
  dryRun p = true ->
  filter failed (attempts os p w queue) = []
  /\ world_after os p w queue = w.
Proof.
  intros Hdry. revert w; induction queue as [|r q IH]; intros w; simpl;
    [split; reflexivity|].
  unfold createSymlink. rewrite Hdry. simpl. apply IH.
Qed.

Lemma set_queue_empty (p : SymlinkProcessor) :
  symlinkQueue p = [] -> set_queue p [] = p.
Proof. destruct p; simpl; intros ->; reflexivity. Qed.

(** C9.  [ProcessQueuedSymlinks] makes one pass that calls [createSymlink]
    for every queued request, in order, whether or not an earlier one
    failed: the file system it returns is the one after all these calls.
    The queue of the returned processor is empty.  With [n] the number of
    failed requests, the call returns the error "failed to create n
    symlinks" when [n > 0] and no error when [n = 0]; in dry-run mode no
    request fails and the file system is not changed. *)
Theorem ProcessQueuedSymlinks_best_effort
    (p : SymlinkProcessor) (w : World os) :
  let tr := attempts os p w (symlinkQueue p) in
  let n := Z.of_nat (List.length (filter failed tr)) in
  map fst tr = symlinkQueue p
  /\ ProcessQueuedSymlinks os p w =
       (set_queue p [], world_after os p w (symlinkQueue p),
        if (0 <? n)%Z
        then Errorf ("failed to create " ++ itoa n ++ " symlinks")
        else None)
  /\ symlinkQueue (fst (fst (ProcessQueuedSymlinks os p w))) = []
  /\ (snd (ProcessQueuedSymlinks os p w) <> None <-> (0 < n)%Z)
  /\ (dryRun p = true ->
      ProcessQueuedSymlinks os p w = (set_queue p [], w, None)).
Proof.
  intros tr n.
  assert (Hmain : ProcessQueuedSymlinks os p w =
       (set_queue p [], world_after os p w (symlinkQueue p),
        if (0 <? n)%Z
        then Errorf ("failed to create " ++ itoa n ++ " symlinks")
        else None)).
  { unfold ProcessQueuedSymlinks, n, tr.
    destruct (symlinkQueue p) as [|r q] eqn:Hq.
    - simpl. now rewrite (set_queue_empty p Hq).
    - rewrite process_queue_spec. cbn [app]. cbv beta iota.
      rewrite errs_of_length.
      now destruct (0 <? _)%Z. }
  split; [apply attempts_requests|].
  split; [exact Hmain|].
  split; [apply ProcessQueuedSymlinks_queue|].
  split.
  - rewrite Hmain. simpl.
    destruct (Z.ltb_spec 0 n); split; intros H'; try lia;
      try discriminate; congruence.
  - intros Hdry. rewrite Hmain. unfold n, tr.
    destruct (@dry_run_no_failure p w (symlinkQueue p) Hdry) as [-> ->].
    reflexivity.
Qed.

End SymlinkFacts.

(** ** The script validator *)

Section ScriptValidatorFacts.
Import Strings Filepath PathMapper Utf8 Regexp Bufio ScriptValidator.

(** *** Properties that the scan keeps *)

Section Invariant.
Variable P : scan -> Prop.
Hypothesis P_warning : forall m st, P st -> P (add_warning m st).
Hypothesis P_risk : forall r st, P st -> P (add_risk r st).
Hypothesis P_error : forall m st, P st -> P (add_error m st).
Hypothesis P_modification : forall p st, P st -> P (add_modification p st).

Lemma check_protected_keeps paths ln risk line st :
  P st -> P (check_protected paths ln risk line st).
Proof.
  revert st; induction paths as [|path paths IH]; intros st H; simpl;
    [exact H|].
  apply IH. destruct (Contains line path); auto.
Qed.

Lemma check_patterns_keeps patterns ln line st st' :
  check_patterns patterns ln line st = Return st' -> P st -> P st'.
Proof.
  revert st; induction patterns as [|pattern patterns IH]; intros st; simpl.
  - intros [= <-]. auto.
  - destruct (MustCompile pattern) as [re|msg]; simpl; [|discriminate].
    intros Hret H. apply (IH _ Hret).
    destruct (MatchString re line); auto.
Qed.

Lemma check_commands_keeps sv commands ln line st st' :
  check_commands sv commands ln line st = Return st' -> P st -> P st'.
Proof.
  revert st; induction commands as [|[cmd risk] commands IH]; intros st;
    simpl.
  - intros [= <-]. auto.
  - destruct (MustCompile _) as [re|msg]; simpl; [|discriminate].
    intros Hret H. apply (IH _ Hret).
    destruct (MatchString re line); auto.
    apply check_protected_keeps. auto.
Qed.

Lemma check_paths_keeps pm paths ln st :
  P st -> P (check_paths pm paths ln st).
Proof.
  revert st; induction paths as [|path paths IH]; intros st H; simpl;
    [exact H|].
  apply IH.
  destruct (Contains path "$" || Contains path "`"); [exact H|].
  destruct (TransformPath pm path) as [[t needs] [e|]]; auto.
  destruct needs; auto.
Qed.

Lemma scan_line_keeps sv ln line st st' :
  scan_line sv ln line st = Return st' -> P st -> P st'.
Proof.
  unfold scan_line.
  destruct (_ || _); [intros [= <-]; auto|].
  destruct (check_patterns _ ln line st) as [st1|] eqn:H1; cbn [bind];
    [|discriminate].
  destruct (check_commands sv _ ln line st1) as [st2|] eqn:H2; cbn [bind];
    [|discriminate].
  intros Hret H.
  assert (H2' : P st2).
  { eapply check_commands_keeps; [exact H2|].
    eapply check_patterns_keeps; [exact H1 | exact H]. }
  destruct (pathMapper sv) as [pm|].
  - destruct (extractPaths line) as [paths|]; cbn [bind] in Hret;
      [|discriminate].
    injection Hret as <-. now apply check_paths_keeps.
  - injection Hret as <-. exact H2'.
Qed.

Lemma scan_lines_keeps sv ln lines st st' :
  scan_lines sv ln lines st = Return st' -> P st -> P st'.
Proof.
  revert ln st; induction lines as [|line lines IH]; intros ln st; simpl.
  - intros [= <-]. auto.
  - destruct (scan_line sv _ line st) as [st1|] eqn:H1; simpl;
      [|discriminate].
    intros Hret H. apply (IH _ _ Hret).
    eapply scan_line_keeps; [exact H1 | exact H].
Qed.
End Invariant.

(** *** The scan returns when the patterns compile *)

Definition compiles (pattern : string) : bool :=
  match Compile pattern with Some _ => true | None => false end.

Definition patterns_compile (sv : ScriptValidator) : bool :=
  forallb compiles (dangerousPatterns sv)
  && forallb (fun c => compiles ("\b" ++ fst c ++ "\b")) (dangerousCommands sv).

Lemma MustCompile_compiles pattern :
  compiles pattern = true -> exists re, MustCompile pattern = Return re.
Proof.
  unfold compiles, MustCompile. destruct (Compile pattern); [eauto|discriminate].
Qed.

Lemma check_patterns_returns patterns ln line st :
  forallb compiles patterns = true ->
  exists st', check_patterns patterns ln line st = Return st'.
Proof.
  revert st; induction patterns as [|pattern patterns IH]; intros st; simpl.
  - eauto.
  - intros H. apply andb_true_iff in H as [Hc Hrest].
    destruct (MustCompile_compiles _ Hc) as [re ->]. simpl. now apply IH.
Qed.

Lemma check_commands_returns sv commands ln line st :
  forallb (fun c => compiles ("\b" ++ fst c ++ "\b")) commands = true ->
  exists st', check_commands sv commands ln line st = Return st'.
Proof.
  revert st; induction commands as [|[cmd risk] commands IH]; intros st;
    simpl.
  - eauto.
  - intros H. apply andb_true_iff in H as [Hc Hrest].
    destruct (MustCompile_compiles _ Hc) as [re ->]. simpl. now apply IH.
Qed.

Lemma extractPaths_returns line : exists paths, extractPaths line = Return paths.
Proof.
  unfold extractPaths.
  destruct (MustCompile_compiles
              ("(?:^|\s+)(/[^\s;|><" ++ dquote ++ "']+)") eq_refl) as [re ->].
  simpl. eauto.
Qed.

Lemma scan_line_returns sv ln line st :
  patterns_compile sv = true -> exists st', scan_line sv ln line st = Return st'.
Proof.
  intros H. apply andb_true_iff in H as [Hp Hc]. unfold scan_line.
  destruct (_ || _); [eauto|].
  destruct (check_patterns_returns _ ln line st Hp) as [st1 ->]. cbn [bind].
  destruct (check_commands_returns sv _ ln line st1 Hc) as [st2 ->].
  cbn [bind].
  destruct (pathMapper sv) as [pm|]; [|eauto].
  destruct (extractPaths_returns line) as [paths ->]. cbn [bind]. eauto.
Qed.

Lemma scan_lines_returns sv ln lines st :
  patterns_compile sv = true -> exists st', scan_lines sv ln lines st = Return st'.
Proof.
  intros H. revert ln st; induction lines as [|line lines IH]; intros ln st;
    simpl; [eauto|].
  destruct (scan_line_returns sv (wrap64 (ln + 1)) line st H) as [st1 ->].
  cbn [bind]. apply IH.
Qed.

Lemma default_patterns_compile : patterns_compile NewScriptValidator = true.
Proof. vm_compute. reflexivity. Qed.

(** *** The verdict *)

Lemma ValidateScript_inv sv scriptName content r :
  ValidateScript sv scriptName content = Return (Some r, None) ->
  (TrimSpace content = ""
   /\ r = set_warnings initial ["Script content is empty"])
  \/ (TrimSpace content <> ""
      /\ exists st, Valid (result st) = true /\ r = finish sv st).
Proof.
  unfold ValidateScript.
  destruct (String.eqb_spec (TrimSpace content) "") as [He|Hne].
  - intros [= <-]. left. split; [assumption | reflexivity].
  - destruct (scan_lines sv 0 _ _) as [st|] eqn:Hscan; simpl; [|discriminate].
    destruct (ScanLines content); [|discriminate].
    intros [= <-]. right. split; [assumption|].
    exists st. split; [|reflexivity].
    apply (scan_lines_keeps (fun st => Valid (result st) = true)) in Hscan;
      auto.
    now destruct (existsb _ _).
Qed.

Lemma finish_valid sv st :
  Valid (result st) = true ->
  Valid (finish sv st) = verdict (securityLevel sv) (result st)
  /\ Errors (finish sv st) = Errors (result st)
  /\ Warnings (finish sv st) = Warnings (result st)
  /\ RiskLevel (finish sv st) = RiskLevel (result st).
Proof. intros H. unfold finish. cbn. now rewrite H. Qed.

Lemma verdict_low r :
  verdict SecurityLevelLow r =
  negb ((3 <? Z.of_nat (List.length (Errors r)))%Z || (8 <? RiskLevel r)%Z).
Proof. reflexivity. Qed.

Lemma verdict_medium r :
  verdict SecurityLevelMedium r =
  negb ((0 <? Z.of_nat (List.length (Errors r)))%Z || (6 <? RiskLevel r)%Z).
Proof. reflexivity. Qed.

Lemma verdict_high r :
  verdict SecurityLevelHigh r =
  negb ((0 <? Z.of_nat (List.length (Errors r)))%Z
        || (3 <? Z.of_nat (List.length (Warnings r)))%Z
        || (4 <? RiskLevel r)%Z).
Proof. reflexivity. Qed.

(** C7.  A result that [ValidateScript] returns for a script that is not
    empty is invalid exactly when: at the level Low, there are more than
    3 errors or the risk is above 8; at Medium, there is an error or the
    risk is above 6; at High, there is an error, or more than 3 warnings,
    or the risk is above 4.  The result for an empty script is valid.
    And [ValidateScript] does return a result when the patterns of the
    validator compile and no line is too long for the scanner. *)
Theorem ValidateScript_verdict (sv : ScriptValidator)
    (scriptName content : string) :
  (forall r,
      ValidateScript sv scriptName content = Return (Some r, None) ->
      (TrimSpace content = "" -> Valid r = true)
      /\ (TrimSpace content <> "" ->
          (securityLevel sv = SecurityLevelLow ->
           (Valid r = false <->
            (3 < List.length (Errors r))%nat \/ (8 < RiskLevel r)%Z))
          /\ (securityLevel sv = SecurityLevelMedium ->
              (Valid r = false <->
               Errors r <> [] \/ (6 < RiskLevel r)%Z))
          /\ (securityLevel sv = SecurityLevelHigh ->
              (Valid r = false <->
               Errors r <> [] \/ (3 < List.length (Warnings r))%nat
               \/ (4 < RiskLevel r)%Z))))
  /\ (patterns_compile sv = true -> ScanLines content <> None ->
      exists r, ValidateScript sv scriptName content = Return (Some r, None)).
Proof.
  split.
  - intros r Hret.
    destruct (ValidateScript_inv _ _ _ Hret)
      as [[He ->] | [Hne (st & Hvalid & ->)]].
    + split; [reflexivity | contradiction].
    + split; [contradiction|]. intros _.
      assert (Hnil : forall l : list string,
                 (0 <? Z.of_nat (List.length l))%Z = true <-> l <> []).
      { intros l. rewrite Z.ltb_lt. destruct l; simpl; split;
          try congruence; try lia. }
      destruct (finish_valid sv st Hvalid) as (-> & -> & -> & ->).
      split; [|split]; intros Hlevel; rewrite Hlevel;
        rewrite ?verdict_low, ?verdict_medium, ?verdict_high;
        rewrite negb_false_iff, !orb_true_iff, ?Hnil, !Z.ltb_lt;
        intuition lia.
  - intros Hcompile Hscan. unfold ValidateScript.
    destruct (String.eqb (TrimSpace content) ""); [eauto|].
    match goal with
    | |- context [scan_lines sv 0 ?lines ?st] =>
        destruct (scan_lines_returns sv 0 lines st Hcompile) as [st' ->]
    end.
    simpl. destruct (ScanLines content); [eauto | contradiction].
Qed.

End ScriptValidatorFacts.

(** ** What a line adds to the result *)

(** The scan only ever appends to the lists of the result and adds to its
    risk, so that what a line does to the result is a [delta] that does not
    depend on the result so far. *)
Section Deltas.
Import Strings Filepath PathMapper Utf8 Regexp Bufio ScriptValidator.

Record delta := {
  d_warnings : list string;
  d_errors : list string;
  d_risks : list Z;
  d_mods : list string
}.

Definition d_zero : delta :=
  {| d_warnings := []; d_errors := []; d_risks := []; d_mods := [] |}.

Definition d_app (a b : delta) : delta :=
  {| d_warnings := (d_warnings a ++ d_warnings b)%list;
     d_errors := (d_errors a ++ d_errors b)%list;
     d_risks := (d_risks a ++ d_risks b)%list;
     d_mods := (d_mods a ++ d_mods b)%list |}.

Definition d_warning (m : string) : delta :=
  {| d_warnings := [m]; d_errors := []; d_risks := []; d_mods := [] |}.
Definition d_error (m : string) : delta :=
  {| d_warnings := []; d_errors := [m]; d_risks := []; d_mods := [] |}.
Definition d_risk (r : Z) : delta :=
  {| d_warnings := []; d_errors := []; d_risks := [r]; d_mods := [] |}.
Definition d_mod (p : string) : delta :=
  {| d_warnings := []; d_errors := []; d_risks := []; d_mods := [p] |}.

(** [r += x] for each [x] in turn. *)
Definition add_risks (r : Z) (xs : list Z) : Z :=
  fold_left (fun acc x => wrap64 (acc + x)) xs r.

Definition apply_delta (d : delta) (st : scan) : scan := {|
  result := {|
    Valid := Valid (result st);
    Warnings := (Warnings (result st) ++ d_warnings d)%list;
    Errors := (Errors (result st) ++ d_errors d)%list;
    RiskLevel := add_risks (RiskLevel (result st)) (d_risks d);
    DetailedInfo := DetailedInfo (result st) |};
  pathModifications := (pathModifications st ++ d_mods d)%list
|}.

Lemma apply_zero st : apply_delta d_zero st = st.
Proof.
  destruct st as [[v w e r i] m]. unfold apply_delta. simpl.
  now rewrite !app_nil_r.
Qed.

Lemma apply_app a b st :
  apply_delta b (apply_delta a st) = apply_delta (d_app a b) st.
Proof.
  unfold apply_delta, add_risks. simpl.
  now rewrite !app_assoc, fold_left_app.
Qed.

Lemma add_warning_delta m st : add_warning m st = apply_delta (d_warning m) st.
Proof.
  destruct st as [[v w e r i] p]. unfold apply_delta, add_warning. simpl.
  now rewrite !app_nil_r.
Qed.

Lemma add_error_delta m st : add_error m st = apply_delta (d_error m) st.
Proof.
  destruct st as [[v w e r i] p]. unfold apply_delta, add_error. simpl.
  now rewrite !app_nil_r.
Qed.

Lemma add_risk_delta x st : add_risk x st = apply_delta (d_risk x) st.
Proof.
  destruct st as [[v w e r i] p]. unfold apply_delta, add_risk. simpl.
  now rewrite !app_nil_r.
Qed.

Lemma add_modification_delta q st :
  add_modification q st = apply_delta (d_mod q) st.
Proof.
  destruct st as [[v w e r i] p]. unfold apply_delta, add_modification. simpl.
  now rewrite !app_nil_r.
Qed.

Definition gmap (A B : Type) (f : A -> B) (m : go A) : go B :=
  match m with
  | Return a => Return (f a)
  | Panic msg => Panic msg
  end.

(** *** The delta of each loop *)

Definition protected_hit (lineNumber riskLevel : Z) (path : string) : delta :=
  d_app (d_error (line_prefix lineNumber
                    ++ "Command operates on protected path: " ++ path))
        (d_app (d_risk (Z.quot riskLevel 2)) (d_mod path)).

Fixpoint protected_delta (paths : list string) (lineNumber riskLevel : Z)
    (line : string) : delta :=
  match paths with
  | [] => d_zero
  | path :: rest =>
      d_app (if Contains line path
             then protected_hit lineNumber riskLevel path else d_zero)
            (protected_delta rest lineNumber riskLevel line)
  end.

Lemma check_protected_delta paths ln risk line st :
  check_protected paths ln risk line st =
  apply_delta (protected_delta paths ln risk line) st.
Proof.
  revert st; induction paths as [|path paths IH]; intros st; simpl.
  - now rewrite apply_zero.
  - rewrite IH, <- apply_app. f_equal.
    destruct (Contains line path); [|now rewrite apply_zero].
    unfold protected_hit.
    now rewrite <- !apply_app, <- add_error_delta, <- add_risk_delta,
      <- add_modification_delta.
Qed.

Definition pattern_hit (lineNumber : Z) (pattern : string) : delta :=
  d_app (d_warning (line_prefix lineNumber
                      ++ "Potentially dangerous pattern: " ++ pattern))
        (d_risk 2).

Fixpoint patterns_delta (patterns : list string) (lineNumber : Z)
    (line : string) : go delta :=
  match patterns with
  | [] => Return d_zero
  | pattern :: rest =>
      re <- MustCompile pattern ;;
      d <- patterns_delta rest lineNumber line ;;
      Return (d_app (if MatchString re line
                     then pattern_hit lineNumber pattern else d_zero) d)
  end.

Lemma check_patterns_delta patterns ln line st :
  check_patterns patterns ln line st =
  gmap (fun d => apply_delta d st) (patterns_delta patterns ln line).
Proof.
  revert st; induction patterns as [|pattern patterns IH]; intros st; simpl.
  - now rewrite apply_zero.
  - destruct (MustCompile pattern) as [re|msg]; simpl; [|reflexivity].
    rewrite IH.
    destruct (patterns_delta patterns ln line) as [d|msg]; simpl;
      [|reflexivity].
    rewrite <- apply_app. do 2 f_equal.
    destruct (MatchString re line); [|now rewrite apply_zero].
    unfold pattern_hit.
    now rewrite <- apply_app, <- add_warning_delta, <- add_risk_delta.
Qed.

Definition command_hit (sv : ScriptValidator) (lineNumber : Z)
    (line cmd : string) (riskLevel : Z) : delta :=
  d_app (d_app (d_warning (line_prefix lineNumber
                             ++ "Potentially risky command: " ++ cmd))
               (d_risk (Z.quot riskLevel 3)))
        (protected_delta (protectedPaths sv) lineNumber riskLevel line).

(** What one command adds, once its pattern is compiled. *)
Definition command_delta (sv : ScriptValidator) (lineNumber : Z)
    (line : string) (c : string * Z) : go delta :=
  re <- MustCompile ("\b" ++ fst c ++ "\b") ;;
  Return (if MatchString re line
          then command_hit sv lineNumber line (fst c) (snd c) else d_zero).

Fixpoint commands_delta (sv : ScriptValidator) (commands : list (string * Z))
    (lineNumber : Z) (line : string) : go delta :=
  match commands with
  | [] => Return d_zero
  | c :: rest =>
      dc <- command_delta sv lineNumber line c ;;
      d <- commands_delta sv rest lineNumber line ;;
      Return (d_app dc d)
  end.

Lemma check_commands_delta sv commands ln line st :
  check_commands sv commands ln line st =
  gmap (fun d => apply_delta d st) (commands_delta sv commands ln line).
Proof.
  revert st; induction commands as [|[cmd risk] commands IH]; intros st;
    simpl.
  - now rewrite apply_zero.
  - unfold command_delta. simpl.
    destruct (MustCompile _) as [re|msg]; simpl; [|reflexivity].
    rewrite IH.
    destruct (commands_delta sv commands ln line) as [d|msg]; simpl;
      [|reflexivity].
    rewrite <- apply_app. do 2 f_equal.
    destruct (MatchString re line); [|now rewrite apply_zero].
    unfold command_hit.
    now rewrite check_protected_delta, <- !apply_app, <- add_warning_delta,
      <- add_risk_delta.
Qed.

Definition path_delta (pm : PathMapper) (lineNumber : Z) (path : string)
  : delta :=
  if Contains path "$" || Contains path "`" then d_zero
  else
    let '(_, needsSymlink, err) := TransformPath pm path in
    match err with
    | Some _ =>
        d_warning (line_prefix lineNumber
                     ++ "Path cannot be transformed: " ++ path)
    | None =>
        if needsSymlink then
          d_warning (line_prefix lineNumber
                       ++ "Path would require symlink: " ++ path)
        else d_zero
    end.

Fixpoint paths_delta (pm : PathMapper) (paths : list string) (lineNumber : Z)
  : delta :=
  match paths with
  | [] => d_zero
  | path :: rest =>
      d_app (path_delta pm lineNumber path) (paths_delta pm rest lineNumber)
  end.

Lemma check_paths_delta pm paths ln st :
  check_paths pm paths ln st = apply_delta (paths_delta pm paths ln) st.
Proof.
  revert st; induction paths as [|path paths IH]; intros st; simpl.
  - now rewrite apply_zero.
  - rewrite IH, <- apply_app. f_equal. unfold path_delta.
    destruct (Contains path "$" || Contains path "`");
      [now rewrite apply_zero|].
    destruct (TransformPath pm path) as [[t needs] [e|]].
    + now rewrite add_warning_delta.
    + destruct needs; [now rewrite add_warning_delta | now rewrite apply_zero].
Qed.

Definition skipped (line : string) : bool :=
  String.eqb (TrimSpace line) "" || HasPrefix (TrimSpace line) "#".

Definition line_delta (sv : ScriptValidator) (lineNumber : Z) (line : string)
  : go delta :=
  if skipped line then Return d_zero
  else
    d1 <- patterns_delta (dangerousPatterns sv) lineNumber line ;;
    d2 <- commands_delta sv (dangerousCommands sv) lineNumber line ;;
    match pathMapper sv with
    | Some pm =>
        paths <- extractPaths line ;;
        Return (d_app (d_app d1 d2) (paths_delta pm paths lineNumber))
    | None => Return (d_app d1 d2)
    end.

Lemma scan_line_delta sv ln line st :
  scan_line sv ln line st =
  gmap (fun d => apply_delta d st) (line_delta sv ln line).
Proof.
  unfold scan_line, line_delta, skipped.
  destruct (_ || _); [simpl; now rewrite apply_zero|].
  rewrite check_patterns_delta.
  destruct (patterns_delta _ ln line) as [d1|msg]; cbn [bind gmap];
    [|reflexivity].
  rewrite check_commands_delta.
  destruct (commands_delta sv _ ln line) as [d2|msg]; cbn [bind gmap];
    [|reflexivity].
  destruct (pathMapper sv) as [pm|].
  - destruct (extractPaths line) as [paths|msg]; cbn [bind gmap];
      [|reflexivity].
    now rewrite check_paths_delta, <- !apply_app.
  - now rewrite apply_app.
Qed.

Fixpoint lines_delta (sv : ScriptValidator) (lineNumber : Z)
    (lines : list string) : go delta :=
  match lines with
  | [] => Return d_zero
  | line :: rest =>
      let lineNumber := wrap64 (lineNumber + 1) in
      d1 <- line_delta sv lineNumber line ;;
      d2 <- lines_delta sv lineNumber rest ;;
      Return (d_app d1 d2)
  end.

Lemma scan_lines_delta sv ln lines st :
  scan_lines sv ln lines st =
  gmap (fun d => apply_delta d st) (lines_delta sv ln lines).
Proof.
  revert ln st; induction lines as [|line lines IH]; intros ln st; simpl.
  - now rewrite apply_zero.
  - rewrite scan_line_delta.
    destruct (line_delta sv _ line) as [d1|msg]; cbn [bind gmap];
      [|reflexivity].
    rewrite IH.
    destruct (lines_delta sv _ lines) as [d2|msg]; cbn [bind gmap];
      [|reflexivity].
    now rewrite apply_app.
Qed.

End Deltas.

(** ** The result of ValidateScript from the deltas of its lines *)

Section ValidateScriptDelta.
Import Strings Filepath PathMapper Utf8 Regexp Bufio ScriptValidator.

(** The result before the first line is read. *)
Definition start (sv : ScriptValidator) (content : string) : scan := {|
  result :=
    if existsb (fun interpreter => HasPrefix content interpreter)
               (shellInterpreters sv)
    then initial
    else set_warnings initial
           ["Script does not start with a valid shell interpreter line (shebang)"];
  pathModifications := [] |}.

Lemma firstn_while_all (A : Type) (f : A -> bool) (l : list A) :
  forallb f l = true -> firstn_while f l = l.
Proof.
  induction l as [|x l IH]; simpl; [reflexivity|].
  intros H. apply andb_true_iff in H as [-> Hl]. now rewrite IH.
Qed.

Lemma ValidateScript_delta sv scriptName content lines :
  TrimSpace content <> "" ->
  ScanLines content = Some lines ->
  ValidateScript sv scriptName content =
  gmap (fun d => (Some (finish sv (apply_delta d (start sv content))), None))
       (lines_delta sv 0 lines).
Proof.
  intros Hne Hscan. unfold ValidateScript.
  destruct (String.eqb_spec (TrimSpace content) ""); [contradiction|].
  rewrite Hscan. unfold ScanLines in Hscan.
  destruct (forallb _ _) eqn:Hall; [|discriminate].
  injection Hscan as <-.
  rewrite (firstn_while_all _ _ Hall), scan_lines_delta.
  fold (start sv content).
  now destruct (lines_delta sv 0 _).
Qed.

(** *** The order of the commands *)

Definition d_equiv (a b : delta) : Prop :=
  Permutation (d_warnings a) (d_warnings b)
  /\ Permutation (d_errors a) (d_errors b)
  /\ Permutation (d_risks a) (d_risks b)
  /\ Permutation (d_mods a) (d_mods b).

Definition go_equiv (x y : go delta) : Prop :=
  match x, y with
  | Return a, Return b => d_equiv a b
  | Panic _, Panic _ => True
  | _, _ => False
  end.

Lemma d_equiv_refl a : d_equiv a a.
Proof. repeat split; apply Permutation_refl. Qed.

Lemma d_equiv_trans a b c : d_equiv a b -> d_equiv b c -> d_equiv a c.
Proof.
  intros (H1 & H2 & H3 & H4) (G1 & G2 & G3 & G4).
  repeat split; eapply Permutation_trans; eassumption.
Qed.

Lemma d_app_equiv a a' b b' :
  d_equiv a a' -> d_equiv b b' -> d_equiv (d_app a b) (d_app a' b').
Proof.
  intros (H1 & H2 & H3 & H4) (G1 & G2 & G3 & G4).
  repeat split; simpl; now apply Permutation_app.
Qed.

Lemma d_app_swap a b c : d_equiv (d_app a (d_app b c)) (d_app b (d_app a c)).
Proof.
  repeat split; simpl; rewrite !app_assoc;
    apply Permutation_app_tail, Permutation_app_comm.
Qed.

Lemma go_equiv_refl x : go_equiv x x.
Proof. destruct x; simpl; [apply d_equiv_refl | exact I]. Qed.

Lemma go_equiv_trans x y z : go_equiv x y -> go_equiv y z -> go_equiv x z.
Proof.
  destruct x, y, z; simpl; try tauto. apply d_equiv_trans.
Qed.

Lemma go_equiv_bind (x y : go delta) (f g : delta -> go delta) :
  go_equiv x y ->
  (forall a b, d_equiv a b -> go_equiv (f a) (g b)) ->
  go_equiv (bind x f) (bind y g).
Proof. destruct x, y; simpl; try tauto. intros H Hf. now apply Hf. Qed.

Lemma commands_delta_perm sv cs cs' ln line :
  Permutation cs cs' ->
  go_equiv (commands_delta sv cs ln line) (commands_delta sv cs' ln line).
Proof.
  induction 1 as [| c l l' _ IH | c c' l | l l' l'' _ IH1 _ IH2].
  - apply go_equiv_refl.
  - simpl. destruct (command_delta sv ln line c) as [dc|]; simpl;
      [|exact I].
    apply go_equiv_bind; [exact IH|].
    intros a b Hab. simpl. apply d_app_equiv; [apply d_equiv_refl | exact Hab].
  - simpl.
    destruct (command_delta sv ln line c) as [dc|],
             (command_delta sv ln line c') as [dc'|]; simpl; try exact I.
    destruct (commands_delta sv l ln line) as [d|]; simpl; [|exact I].
    apply d_app_swap.
  - eapply go_equiv_trans; eassumption.
Qed.

Lemma commands_delta_with_commands sv order cs ln line :
  commands_delta (with_commands sv order) cs ln line
  = commands_delta sv cs ln line.
Proof. induction cs as [|c cs IH]; simpl; [reflexivity | now rewrite IH]. Qed.

Lemma line_delta_perm sv order ln line :
  Permutation (dangerousCommands sv) order ->
  go_equiv (line_delta sv ln line) (line_delta (with_commands sv order) ln line).
Proof.
  intros Hperm. unfold line_delta.
  destruct (skipped line); [apply go_equiv_refl|].
  change (dangerousPatterns (with_commands sv order))
    with (dangerousPatterns sv).
  change (dangerousCommands (with_commands sv order)) with order.
  change (pathMapper (with_commands sv order)) with (pathMapper sv).
  rewrite commands_delta_with_commands.
  destruct (patterns_delta _ ln line) as [d1|]; cbn [bind]; [|exact I].
  apply go_equiv_bind; [now apply commands_delta_perm|].
  intros a b Hab.
  destruct (pathMapper sv) as [pm|].
  - destruct (extractPaths line) as [paths|]; cbn [bind]; [|exact I].
    simpl. repeat apply d_app_equiv; try apply d_equiv_refl. exact Hab.
  - simpl. apply d_app_equiv; [apply d_equiv_refl | exact Hab].
Qed.

Lemma lines_delta_perm sv order ln lines :
  Permutation (dangerousCommands sv) order ->
  go_equiv (lines_delta sv ln lines)
           (lines_delta (with_commands sv order) ln lines).
Proof.
  intros Hperm. revert ln; induction lines as [|line lines IH]; intros ln;
    simpl; [apply d_equiv_refl|].
  apply go_equiv_bind; [now apply line_delta_perm|].
  intros a b Hab.
  apply go_equiv_bind; [apply IH|].
  intros a' b' Hab'. simpl. now apply d_app_equiv.
Qed.

Lemma wrap64_add_l a b : wrap64 (wrap64 a + b) = wrap64 (a + b).
Proof.
  unfold wrap64.
  replace ((a + 9223372036854775808) mod 18446744073709551616
           - 9223372036854775808 + b + 9223372036854775808)%Z
    with ((a + 9223372036854775808) mod 18446744073709551616 + b)%Z by lia.
  rewrite Zplus_mod_idemp_l. f_equal. f_equal. lia.
Qed.

Lemma add_risks_perm r xs ys :
  Permutation xs ys -> add_risks r xs = add_risks r ys.
Proof.
  intros H. revert r.
  induction H as [| x l l' _ IH | x y l | l l' l'' _ IH1 _ IH2]; intros r.
  - reflexivity.
  - simpl. apply IH.
  - unfold add_risks. simpl. f_equal.
    rewrite !wrap64_add_l. f_equal. lia.
  - now rewrite IH1.
Qed.

(** The verdict, the number of errors and the risk depend on the delta
    up to the order of its lists. *)
Lemma finish_equiv sv sv' st d d' :
  securityLevel sv = securityLevel sv' ->
  d_equiv d d' ->
  let r := finish sv (apply_delta d st) in
  let r' := finish sv' (apply_delta d' st) in
  Valid r = Valid r'
  /\ List.length (Errors r) = List.length (Errors r')
  /\ List.length (Warnings r) = List.length (Warnings r')
  /\ RiskLevel r = RiskLevel r'.
Proof.
  intros Hlevel (Hw & He & Hr & Hm). cbn.
  rewrite <- Hlevel, (add_risks_perm _ Hr).
  unfold verdict. cbn.
  rewrite !length_app, (Permutation_length Hw), (Permutation_length He).
  repeat split; reflexivity.
Qed.

End ValidateScriptDelta.

Section Scenario1.
Import Strings Filepath PathMapper Utf8 Regexp Bufio ScriptValidator.

(** The script of the first end-to-end scenario. *)
Definition scenario1_script : string :=
  "#!/bin/sh" ++ String "010" "rm -rf /etc/important"
    ++ String "010" "chmod 777 /etc/passwd".

Definition medium : ScriptValidator :=
  WithSecurityLevel SecurityLevelMedium NewScriptValidator.

(** C8.  At the level Medium, the script [#!/bin/sh], [rm -rf
    /etc/important], [chmod 777 /etc/passwd] is rejected: its result has
    one error, that the [chmod] line operates on the protected path
    [/etc/passwd], a risk of 11, and [Valid] is false.  This holds in
    whatever order the dangerous commands are visited. *)
Theorem ValidateScript_scenario1_rejected (order : list (string * Z)) :
  Permutation defaultDangerousCommands order ->
  exists r,
    ValidateScript (with_commands medium order) "postinst" scenario1_script
    = Return (Some r, None)
    /\ List.length (Errors r) = 1%nat
    /\ In "Line 3: Command operates on protected path: /etc/passwd" (Errors r)
    /\ RiskLevel r = 11%Z
    /\ Valid r = false.
Proof.
  intros Hperm.
  set (sv := with_commands medium order).
  assert (Hne : TrimSpace scenario1_script <> "") by (vm_compute; discriminate).
  assert (Hscan : ScanLines scenario1_script
                  = Some ["#!/bin/sh"; "rm -rf /etc/important";
                          "chmod 777 /etc/passwd"]) by reflexivity.
  rewrite (@ValidateScript_delta sv "postinst" _ _ Hne Hscan).
  pose proof (@lines_delta_perm medium order 0
                ["#!/bin/sh"; "rm -rf /etc/important"; "chmod 777 /etc/passwd"]
                Hperm) as Heq.
  fold sv in Heq.
  assert (Hbase : exists d,
             lines_delta medium 0
               ["#!/bin/sh"; "rm -rf /etc/important"; "chmod 777 /etc/passwd"]
             = Return d
             /\ d_errors d
                = ["Line 3: Command operates on protected path: /etc/passwd"]
             /\ add_risks 0 (d_risks d) = 11%Z).
  { eexists. split; [vm_compute; reflexivity|]. split; reflexivity. }
  destruct Hbase as (d & Hd & He & Hr). rewrite Hd in Heq.
  destruct (lines_delta sv 0 _) as [d'|]; [|contradiction].
  destruct Heq as (_ & He' & Hr' & _).
  rewrite He in He'. apply Permutation_length_1_inv in He'.
  eexists. split; [reflexivity|].
  assert (Hstart : result (start sv scenario1_script) = initial)
    by reflexivity.
  cbn [finish apply_delta result Errors RiskLevel Valid].
  rewrite Hstart. cbn [Errors RiskLevel Valid initial app].
  rewrite He', <- (add_risks_perm 0 Hr'), Hr.
  split; [reflexivity|]. split; [now left|]. split; reflexivity.
Qed.

Lemma ValidateScript_scenario1_rejected_witness :
  exists r,
    ValidateScript medium "postinst" scenario1_script = Return (Some r, None)
    /\ List.length (Errors r) = 1%nat
    /\ In "Line 3: Command operates on protected path: /etc/passwd" (Errors r)
    /\ RiskLevel r = 11%Z
    /\ Valid r = false.
Proof.
  exact (@ValidateScript_scenario1_rejected defaultDangerousCommands
           (Permutation_refl _)).
Defined.

End Scenario1.

(** ** The walk of copyFiles *)

Section BuilderFacts.
Import Strings Filepath PathMapper Validator Symlink Builder.

Lemma TransformPath_error pm path err :
  snd (TransformPath pm path) = Some err ->
  TransformPath pm path = ("", false, Some err).
Proof.
  unfold TransformPath.
  destruct (String.eqb path ""); [simpl; now intros [= <-]|].
  destruct (IsTransformedPath pm (Clean path)); [discriminate|].
  destruct (find _ _) as [[sysDir secureDir]|]; [discriminate|].
  simpl. now intros [= <-].
Qed.

(** An entry that the function of the walk goes on to transform. *)
Definition reaches_transform (b : Builder) (e : WalkEntry) : Prop :=
  walkErr e = None
  /\ existsb (fun excludeDir => HasPrefix (srcPath e) excludeDir)
             (ExcludeDirs b) = false
  /\ relErr e = None
  /\ relPath e <> ".".

(** C2, amended.  When [TransformPath] fails for the absolute path of an
    entry, the function of the walk does not return that failure: it goes
    on with the untransformed absolute path and queues no symlink.  The
    path is validated by [ValidatePath] and [ValidatePathTraversal], whose
    errors are returned, and when both accept it the entry is made in the
    build directory under the untransformed path. *)
Theorem walkFn_transform_failure_falls_back
    (os : OS) (b : Builder) (w : World os) (e : WalkEntry) (err : string) :
  reaches_transform b e ->
  snd (TransformPath (PathMapper b) (Join2 "/" (relPath e))) = Some err ->
  let absPath := Join2 "/" (relPath e) in
  walkFn os b w e =
    match ValidatePath (PathValidator b) absPath with
    | Some err =>
        (b, w, Errorf ("path validation failed for " ++ absPath ++ ": " ++ err))
    | None =>
        match ValidatePathTraversal (PathValidator b) absPath with
        | Some err =>
            (b, w, Errorf ("path traversal check failed for " ++ absPath
                             ++ ": " ++ err))
        | None =>
            (b, fst (copy_entry os b w e (Join2 (BuildDir b) absPath)),
             snd (copy_entry os b w e (Join2 (BuildDir b) absPath)))
        end
    end.
Proof.
  intros (Hwalk & Hexcl & Hrel & Hroot) Herr absPath. unfold walkFn.
  rewrite Hwalk, Hexcl, Hrel.
  destruct (String.eqb_spec (relPath e) "."); [contradiction|].
  fold absPath. fold absPath in Herr.
  rewrite (TransformPath_error _ _ Herr).
  destruct (ValidatePath (PathValidator b) absPath); [reflexivity|].
  destruct (ValidatePathTraversal (PathValidator b) absPath); [reflexivity|].
  now destruct (copy_entry os b w e (Join2 (BuildDir b) absPath)).
Qed.

(** C3 fails on the code.  With [PreservePerms] false the mode is set to
    0644 and the test of the execute bit then reads that 0644, not the
    mode of the source: the mode is 0644 whatever the source, and the
    branch to 0755 is never taken. *)
Theorem file_mode_ignores_execute_bit :
  (forall infoMode : Z, file_mode false infoMode = 420%Z)
  /\ Z.land 493 64 <> 0%Z
  /\ file_mode false 493 <> 493%Z.
Proof.
  split; [reflexivity|]. split; vm_compute; discriminate.
Qed.

End BuilderFacts.

(** ** Runs on the file system in memory *)

Section Runs.
Import Strings Filepath PathMapper Validator Symlink Builder.

Definition builder0 : Builder := NewBuilder "/src" "/out" "/tmp/build".

(** A file of the source tree that no mapping rule matches. *)
Definition data_entry : WalkEntry := {|
  srcPath := "/src/srv/data.txt";
  walkErr := None;
  isDir := false;
  mode := 420;
  relPath := "srv/data.txt";
  relErr := None
|}.

Definition data_world : World MemFS.os :=
  [("/src/srv/data.txt", MemFS.File "hello" 420)].

(** The claim of C2 fails: the transformation of [/srv/data.txt] fails,
    and the walk returns no error and copies the file into the build
    directory under the untransformed path. *)
Lemma walkFn_transform_failure_counterexample :
  snd (TransformPath (PathMapper builder0) "/srv/data.txt")
  = Some "no transformation rule matched for path: /srv/data.txt"
  /\ snd (walkFn MemFS.os builder0 data_world data_entry) = None
  /\ MemFS.lookup (snd (fst (walkFn MemFS.os builder0 data_world data_entry)))
       "/tmp/build/srv/data.txt"
     = Some (MemFS.File "hello" 420).
Proof. vm_compute. repeat split. Qed.

Lemma walkFn_transform_failure_falls_back_witness :
  walkFn MemFS.os builder0 data_world data_entry =
    (builder0,
     fst (copy_entry MemFS.os builder0 data_world data_entry
            "/tmp/build/srv/data.txt"),
     snd (copy_entry MemFS.os builder0 data_world data_entry
            "/tmp/build/srv/data.txt")).
Proof.
  apply (@walkFn_transform_failure_falls_back MemFS.os builder0 data_world
           data_entry "no transformation rule matched for path: /srv/data.txt").
  - repeat split. discriminate.
  - reflexivity.
Defined.

(** An executable of the source tree, mode 0755. *)
Definition tool_entry : WalkEntry := {|
  srcPath := "/src/usr/share/app/run";
  walkErr := None;
  isDir := false;
  mode := 493;
  relPath := "usr/share/app/run";
  relErr := None
|}.

(** The executable is staged with the mode 0644. *)
Lemma copyFiles_executable_staged_0644 :
  let w := [("/src/usr/share/app/run", MemFS.File "#!/bin/sh" 493)] in
  let out := copyFiles MemFS.os builder0 w [tool_entry] in
  snd out = None
  /\ MemFS.lookup (snd (fst out)) "/tmp/build/opt/usr/share/app/run"
     = Some (MemFS.File "#!/bin/sh" 420).
Proof. vm_compute. repeat split. Qed.

Definition processor0 : Symlink.SymlinkProcessor :=
  Builder.SymlinkProcessor builder0.

Definition app_request : SymlinkRequest := {|
  Source := "/opt/secure/bin/app";
  Target := "/system/bin/app";
  Description := "Test application symlink"
|}.

Definition other_request : SymlinkRequest := {|
  Source := "/opt/secure/bin/another-app";
  Target := "/system/bin/app";
  Description := "Duplicate target symlink"
|}.

Definition tool_request : SymlinkRequest := {|
  Source := "/opt/secure/bin/tool";
  Target := "/system/bin/tool";
  Description := "Test tool symlink"
|}.

Lemma symlink_queue_targets_unique_witness :
  let p := fst (QueueSymlink MemFS.os processor0 [] app_request) in
  NoDup (map Target (symlinkQueue p))
  /\ forall (request : SymlinkRequest) (w' : World MemFS.os),
       In (Target request) (map Target (symlinkQueue p)) ->
       exists msg, QueueSymlink MemFS.os p w' request = (p, Some msg).
Proof.
  intros p.
  apply (@symlink_queue_targets_unique MemFS.os processor0 p [] []
           [Some (OpQueueSymlink app_request)]).
  - reflexivity.
  - eapply steps_cons; [apply step_queue | apply steps_nil].
Defined.

(** The second scenario of the queue: the same target again. *)
Lemma QueueSymlink_duplicate_target_example :
  let p := fst (QueueSymlink MemFS.os processor0 [] app_request) in
  symlinkQueue p = [app_request]
  /\ QueueSymlink MemFS.os p [] other_request
     = (p, Some "duplicate symlink target: /system/bin/app").
Proof. vm_compute. split; reflexivity. Qed.

(** A queue of two requests, gone through while the target of the first
    exists already. *)
Lemma ProcessQueuedSymlinks_best_effort_witness :
  let p := set_queue processor0 [app_request; tool_request] in
  let w := [("/system/bin/app", MemFS.File "" 420)] in
  ProcessQueuedSymlinks MemFS.os p w
  = (set_queue p [],
     world_after MemFS.os p w [app_request; tool_request],
     Some "failed to create 1 symlinks")
  /\ MemFS.lookup (world_after MemFS.os p w [app_request; tool_request])
       "/system/bin/tool" = Some (MemFS.Link "/opt/secure/bin/tool").
Proof.
  intros p w. split; [|reflexivity].
  destruct (ProcessQueuedSymlinks_best_effort MemFS.os p w)
    as (_ & H & _).
  exact H.
Defined.

End Runs.

(** ** The lines of a text *)

Section LineFacts.
Import Strings Bufio.

Lemma append_assoc (a b c : string) : (a ++ b) ++ c = a ++ (b ++ c).
Proof. induction a as [|x a IH]; simpl; [reflexivity | now rewrite IH]. Qed.

Lemma append_nil_r (a : string) : a ++ "" = a.
Proof. induction a as [|x a IH]; simpl; [reflexivity | now rewrite IH]. Qed.

Lemma length_append (a b : string) :
  String.length (a ++ b) = String.length a + String.length b.
Proof. induction a as [|x a IH]; simpl; [reflexivity | now rewrite IH]. Qed.

(** A string without a line feed. *)
Fixpoint nonl (s : string) : bool :=
  match s with
  | EmptyString => true
  | String c s' => negb (Ascii.eqb c "010") && nonl s'
  end.

(** The text of lines that each end with a line feed. *)
Fixpoint unlines (ls : list string) : string :=
  match ls with
  | [] => ""
  | l :: rest => l ++ String "010" (unlines rest)
  end.

(** The tokens of [ScanLines], before [dropCR]. *)
Definition lines_of (s : string) : list string := tokens (Split s "010").

Lemma Split_nonempty (s : string) (sep : ascii) : Split s sep <> [].
Proof.
  destruct s as [|c s]; simpl; [discriminate|].
  destruct (Ascii.eqb c sep); [discriminate|].
  destruct (Split s sep); discriminate.
Qed.

Lemma tokens_cons (l : string) (segments : list string) :
  segments <> [] -> tokens (l :: segments) = l :: tokens segments.
Proof. destruct segments; [congruence | reflexivity]. Qed.

Lemma Split_line (l rest : string) :
  nonl l = true ->
  Split (l ++ String "010" rest) "010" = l :: Split rest "010".
Proof.
  induction l as [|c l IH]; simpl; [reflexivity|].
  intros H. apply andb_true_iff in H as [Hc Hl].
  apply negb_true_iff in Hc. rewrite Hc, (IH Hl). reflexivity.
Qed.

Lemma lines_of_unlines (ls : list string) :
  Forall (fun l => nonl l = true) ls -> lines_of (unlines ls) = ls.
Proof.
  unfold lines_of. induction 1 as [|l ls Hl _ IH]; [reflexivity|].
  simpl unlines. rewrite Split_line by exact Hl.
  rewrite tokens_cons by apply Split_nonempty. now rewrite IH.
Qed.

Lemma unlines_app (a b : list string) :
  unlines (a ++ b) = unlines a ++ unlines b.
Proof.
  induction a as [|l a IH]; simpl; [reflexivity|].
  now rewrite IH, append_assoc.
Qed.

(** A text that ends with a line feed is the text of its lines. *)
Lemma ends_with_nl_unlines (t : string) :
  exists ls, Forall (fun l => nonl l = true) ls
             /\ t ++ String "010" "" = unlines ls.
Proof.
  induction t as [|c t (ls & Hls & Heq)].
  - exists [""]. split; [repeat constructor | reflexivity].
  - simpl. rewrite Heq.
    destruct (Ascii.eqb_spec c "010") as [->|Hc].
    + exists ("" :: ls). split; [constructor; [reflexivity|assumption]|].
      reflexivity.
    + destruct ls as [|l ls].
      * destruct t; discriminate.
      * exists (String c l :: ls). split; [|reflexivity].
        inversion Hls; subst. constructor; [|assumption].
        simpl. apply Ascii.eqb_neq in Hc. now rewrite Hc.
Qed.

Lemma unlines_lines_of (t : string) :
  unlines (lines_of (t ++ String "010" "")) = t ++ String "010" ""
  /\ Forall (fun l => nonl l = true) (lines_of (t ++ String "010" "")).
Proof.
  destruct (ends_with_nl_unlines t) as (ls & Hls & Heq).
  rewrite Heq, lines_of_unlines by exact Hls. now split.
Qed.

Lemma unlines_flat_map (A : Type) (f : A -> list string) (l : list A) :
  unlines (flat_map f l) = String.concat "" (map (fun x => unlines (f x)) l).
Proof.
  induction l as [|x l IH]; [reflexivity|].
  simpl flat_map. rewrite unlines_app, IH. simpl.
  destruct (map _ l) eqn:Hm; [|reflexivity].
  simpl. now rewrite append_nil_r.
Qed.

Lemma Forall_flat_map (A B : Type) (P : B -> Prop) (f : A -> list B)
    (l : list A) :
  (forall x, In x l -> Forall P (f x)) -> Forall P (flat_map f l).
Proof.
  induction l as [|x l IH]; intros H; simpl; [constructor|].
  apply Forall_app. split; [apply H; now left|].
  apply IH. intros y Hy. apply H. now right.
Qed.

(** [ScanLines] from the lines of the text. *)
Lemma ScanLines_lines_of (s : string) :
  ScanLines s =
    if forallb (fun t => (len t <? MaxScanTokenSize)%Z) (lines_of s)
    then Some (map dropCR (lines_of s)) else None.
Proof. reflexivity. Qed.

End LineFacts.

(** ** The deltas of the blocks of a script *)

Section BlockDeltas.
Import Strings Filepath PathMapper Utf8 Regexp Bufio ScriptValidator.

(** Two computations that panic together or return related deltas. *)
Definition go_rel (R : delta -> delta -> Prop) (x y : go delta) : Prop :=
  match x, y with
  | Return a, Return b => R a b
  | Panic _, Panic _ => True
  | _, _ => False
  end.

Lemma go_rel_bind (R S : delta -> delta -> Prop) (x y : go delta)
    (f g : delta -> go delta) :
  go_rel R x y ->
  (forall a b, R a b -> go_rel S (f a) (g b)) ->
  go_rel S (bind x f) (bind y g).
Proof. destruct x, y; simpl; try tauto. intros H Hf. now apply Hf. Qed.

(** The same numbers of warnings and errors, the same risks and the same
    modified paths: what does not depend on the number of the line. *)
Definition same_shape (a b : delta) : Prop :=
  List.length (d_warnings a) = List.length (d_warnings b)
  /\ List.length (d_errors a) = List.length (d_errors b)
  /\ d_risks a = d_risks b
  /\ d_mods a = d_mods b.

Lemma same_shape_refl a : same_shape a a.
Proof. repeat split. Qed.

Lemma same_shape_trans a b c :
  same_shape a b -> same_shape b c -> same_shape a c.
Proof.
  intros (H1 & H2 & H3 & H4) (G1 & G2 & G3 & G4).
  repeat split; congruence.
Qed.

Lemma same_shape_app a a' b b' :
  same_shape a a' -> same_shape b b' -> same_shape (d_app a b) (d_app a' b').
Proof.
  intros (H1 & H2 & H3 & H4) (G1 & G2 & G3 & G4).
  repeat split; simpl; rewrite ?length_app; congruence.
Qed.

Lemma go_shape_refl x : go_rel same_shape x x.
Proof. destruct x; simpl; [apply same_shape_refl | exact I]. Qed.

Lemma go_shape_trans x y z :
  go_rel same_shape x y -> go_rel same_shape y z -> go_rel same_shape x z.
Proof. destruct x, y, z; simpl; try tauto. apply same_shape_trans. Qed.

Lemma d_app_zero_l d : d_app d_zero d = d.
Proof. now destruct d. Qed.

Lemma d_app_assoc a b c : d_app (d_app a b) c = d_app a (d_app b c).
Proof. unfold d_app. simpl. now rewrite !app_assoc. Qed.

(** *** The number of the line *)

Lemma protected_delta_shape paths ln ln' risk line :
  same_shape (protected_delta paths ln risk line)
             (protected_delta paths ln' risk line).
Proof.
  induction paths as [|path paths IH]; simpl; [apply same_shape_refl|].
  apply same_shape_app; [|exact IH].
  destruct (Contains line path); repeat split.
Qed.

Lemma patterns_delta_shape patterns ln ln' line :
  go_rel same_shape (patterns_delta patterns ln line)
                    (patterns_delta patterns ln' line).
Proof.
  induction patterns as [|pattern patterns IH]; simpl; [apply same_shape_refl|].
  destruct (MustCompile pattern) as [re|]; simpl; [|exact I].
  eapply go_rel_bind; [exact IH|].
  intros a b Hab. simpl. apply same_shape_app; [|exact Hab].
  destruct (MatchString re line); repeat split.
Qed.

Lemma command_delta_shape sv ln ln' line c :
  go_rel same_shape (command_delta sv ln line c) (command_delta sv ln' line c).
Proof.
  unfold command_delta.
  destruct (MustCompile _) as [re|]; simpl; [|exact I].
  destruct (MatchString re line); [|apply same_shape_refl].
  unfold command_hit. apply same_shape_app; [repeat split|].
  apply protected_delta_shape.
Qed.

Lemma commands_delta_shape sv commands ln ln' line :
  go_rel same_shape (commands_delta sv commands ln line)
                    (commands_delta sv commands ln' line).
Proof.
  induction commands as [|c commands IH]; simpl; [apply same_shape_refl|].
  eapply go_rel_bind; [apply command_delta_shape|].
  intros a b Hab.
  eapply go_rel_bind; [exact IH|].
  intros a' b' Hab'. simpl. now apply same_shape_app.
Qed.

Lemma paths_delta_shape pm paths ln ln' :
  same_shape (paths_delta pm paths ln) (paths_delta pm paths ln').
Proof.
  induction paths as [|path paths IH]; simpl; [apply same_shape_refl|].
  apply same_shape_app; [|exact IH]. unfold path_delta.
  destruct (_ || _); [apply same_shape_refl|].
  destruct (TransformPath pm path) as [[t needs] [e|]]; [repeat split|].
  destruct needs; repeat split.
Qed.

Lemma line_delta_shape sv ln ln' line :
  go_rel same_shape (line_delta sv ln line) (line_delta sv ln' line).
Proof.
  unfold line_delta.
  destruct (skipped line); [apply same_shape_refl|].
  eapply go_rel_bind; [apply patterns_delta_shape|].
  intros a b Hab.
  eapply go_rel_bind; [apply commands_delta_shape|].
  intros a' b' Hab'.
  destruct (pathMapper sv) as [pm|].
  - destruct (extractPaths line) as [paths|]; cbn [bind]; [|exact I].
    simpl. repeat apply same_shape_app; try assumption.
    apply paths_delta_shape.
  - simpl. now apply same_shape_app.
Qed.

Lemma lines_delta_shape sv ln ln' lines :
  go_rel same_shape (lines_delta sv ln lines) (lines_delta sv ln' lines).
Proof.
  revert ln ln'; induction lines as [|line lines IH]; intros ln ln'; simpl;
    [apply same_shape_refl|].
  eapply go_rel_bind; [apply line_delta_shape|].
  intros a b Hab.
  eapply go_rel_bind; [apply IH|].
  intros a' b' Hab'. simpl. now apply same_shape_app.
Qed.

(** *** Blocks of lines *)

(** The number of the line after [n] more lines. *)
Fixpoint after (n : nat) (lineNumber : Z) : Z :=
  match n with
  | O => lineNumber
  | S n' => after n' (wrap64 (lineNumber + 1))
  end.

Lemma lines_delta_app sv ln l1 l2 :
  lines_delta sv ln (l1 ++ l2) =
  (d1 <- lines_delta sv ln l1 ;;
   d2 <- lines_delta sv (after (List.length l1) ln) l2 ;;
   Return (d_app d1 d2)).
Proof.
  revert ln; induction l1 as [|line l1 IH]; intros ln; simpl.
  - destruct (lines_delta sv ln l2) as [d|]; simpl; [|reflexivity].
    now rewrite d_app_zero_l.
  - destruct (line_delta sv _ line) as [d0|]; simpl; [|reflexivity].
    rewrite IH.
    destruct (lines_delta sv _ l1) as [d1|]; simpl; [|reflexivity].
    destruct (lines_delta sv _ l2) as [d2|]; simpl; [|reflexivity].
    now rewrite d_app_assoc.
Qed.

(** Each block of lines scanned on its own, from the line number 0. *)
Fixpoint blocks_delta (sv : ScriptValidator) (blocks : list (list string))
  : go delta :=
  match blocks with
  | [] => Return d_zero
  | block :: rest =>
      d1 <- lines_delta sv 0 block ;;
      d2 <- blocks_delta sv rest ;;
      Return (d_app d1 d2)
  end.

Lemma lines_delta_blocks sv ln blocks :
  go_rel same_shape (lines_delta sv ln (concat blocks))
                    (blocks_delta sv blocks).
Proof.
  revert ln; induction blocks as [|block blocks IH]; intros ln; simpl;
    [apply same_shape_refl|].
  rewrite lines_delta_app.
  eapply go_rel_bind; [apply lines_delta_shape|].
  intros a b Hab.
  eapply go_rel_bind; [apply IH|].
  intros a' b' Hab'. simpl. now apply same_shape_app.
Qed.

Lemma lines_delta_returns sv ln lines :
  patterns_compile sv = true -> exists d, lines_delta sv ln lines = Return d.
Proof.
  intros H.
  destruct (scan_lines_returns sv ln lines
              {| result := initial; pathModifications := [] |} H) as [st Hst].
  rewrite scan_lines_delta in Hst.
  destruct (lines_delta sv ln lines) as [d|]; [eauto | discriminate].
Qed.

End BlockDeltas.

(** ** The generated postinst script *)

Section GeneratedScript.
Import Strings Filepath PathMapper Utf8 Regexp Bufio ScriptValidator.
Import Symlink Builder.

Definition header_lines : list string := [
  "#!/bin/sh"; "";
  "# This script was generated by go-pkginstall to create necessary symlinks";
  ""; "set -e"; "" ].

(** The lines of the block of one request. *)
Definition block_lines (r : SymlinkRequest) : list string :=
  lines_of (symlink_block r).

Lemma script_header_unlines : script_header = unlines header_lines.
Proof. reflexivity. Qed.

(** A text that ends with a line feed. *)
Definition ends_nl (s : string) : Prop := exists t, s = t ++ String "010" "".

Lemma ends_nl_app (a b : string) : ends_nl b -> ends_nl (a ++ b).
Proof. intros [t ->]. exists (a ++ t). now rewrite append_assoc. Qed.

Lemma symlink_block_ends_nl (r : SymlinkRequest) : ends_nl (symlink_block r).
Proof.
  unfold symlink_block.
  do 28 apply ends_nl_app.
  now exists "".
Qed.

Lemma symlink_block_unlines (r : SymlinkRequest) :
  unlines (block_lines r) = symlink_block r
  /\ Forall (fun l => nonl l = true) (block_lines r).
Proof.
  unfold block_lines.
  destruct (symlink_block_ends_nl r) as [t ->].
  apply unlines_lines_of.
Qed.

Lemma lines_of_script (q : list SymlinkRequest) :
  lines_of (symlink_script q) = (header_lines ++ flat_map block_lines q)%list.
Proof.
  assert (Hs : symlink_script q
               = unlines (header_lines ++ flat_map block_lines q)%list).
  { unfold symlink_script.
    rewrite unlines_app, unlines_flat_map, script_header_unlines.
    do 2 f_equal. apply map_ext. intros r.
    symmetry. apply symlink_block_unlines. }
  rewrite Hs. apply lines_of_unlines.
  apply Forall_app. split; [repeat constructor|].
  apply Forall_flat_map. intros r _. apply symlink_block_unlines.
Qed.

Definition short (t : string) : bool := (len t <? MaxScanTokenSize)%Z.

(** The lines that the scanner reads from the block of a request. *)
Definition scanned (r : SymlinkRequest) : list string :=
  map dropCR (block_lines r).

Definition scans (r : SymlinkRequest) : bool :=
  match ScanLines (symlink_block r) with Some _ => true | None => false end.

Lemma scans_spec (r : SymlinkRequest) :
  ScanLines (symlink_block r) = if scans r then Some (scanned r) else None.
Proof.
  unfold scans. rewrite ScanLines_lines_of. fold (block_lines r).
  now destruct (forallb _ (block_lines r)).
Qed.

Lemma scans_short (r : SymlinkRequest) :
  scans r = forallb short (block_lines r).
Proof.
  unfold scans. rewrite ScanLines_lines_of. fold (block_lines r).
  unfold short. now destruct (forallb _ (block_lines r)).
Qed.

Lemma forallb_flat_map (A B : Type) (f : B -> bool) (g : A -> list B)
    (l : list A) :
  forallb f (flat_map g l) = forallb (fun x => forallb f (g x)) l.
Proof.
  induction l as [|x l IH]; simpl; [reflexivity|].
  now rewrite forallb_app, IH.
Qed.

Lemma forallb_eq (A : Type) (f g : A -> bool) (l : list A) :
  (forall x, f x = g x) -> forallb f l = forallb g l.
Proof.
  intros H. induction l as [|x l IH]; simpl; [reflexivity|].
  now rewrite H, IH.
Qed.

Lemma map_flat_map (A B C : Type) (f : B -> C) (g : A -> list B) (l : list A) :
  map f (flat_map g l) = concat (map (fun x => map f (g x)) l).
Proof.
  induction l as [|x l IH]; simpl; [reflexivity|].
  now rewrite map_app, IH.
Qed.

Lemma ScanLines_script (q : list SymlinkRequest) :
  ScanLines (symlink_script q) =
    if forallb scans q
    then Some (concat (map dropCR header_lines :: map scanned q))
    else None.
Proof.
  rewrite ScanLines_lines_of, lines_of_script, forallb_app.
  change (forallb _ header_lines) with true. cbn [andb].
  rewrite forallb_flat_map.
  rewrite (@forallb_eq _ _ scans q)
    by (intros r; now rewrite scans_short).
  destruct (forallb scans q); [|reflexivity].
  now rewrite map_app, map_flat_map.
Qed.

(** *** The script is not blank *)

Lemma trim_left_snoc (xs : list (rune * string)) (u : rune * string) :
  IsSpace (fst u) = false ->
  exists ys, trim_left (xs ++ [u]) = (ys ++ [u])%list.
Proof.
  intros Hu. induction xs as [|x xs [ys IH]]; simpl.
  - rewrite Hu. now exists [].
  - destruct (IsSpace (fst x)); [eauto|]. now exists (x :: xs).
Qed.

Lemma TrimSpace_hash (rest : string) : TrimSpace (String "#" rest) <> "".
Proof.
  unfold TrimSpace, decode.
  change (decode_fuel (String.length (String "#" rest)) (String "#" rest))
    with ((35%N, "#") :: decode_fuel (String.length rest) rest).
  change (trim_left ((35%N, "#") :: ?l)) with ((35%N, "#") :: l).
  cbn [rev].
  destruct (trim_left_snoc (rev (decode_fuel (String.length rest) rest))
              (35%N, "#") eq_refl) as [ys ->].
  rewrite rev_app_distr. simpl. discriminate.
Qed.

Lemma symlink_script_not_blank (q : list SymlinkRequest) :
  TrimSpace (symlink_script q) <> "".
Proof. apply TrimSpace_hash. Qed.

End GeneratedScript.

Section GeneratedScriptVerdict.
Import Strings Filepath PathMapper Utf8 Regexp Bufio ScriptValidator.
Import Symlink Builder.

(** The validator that [SetMaintainerScript] makes. *)
Definition script_validator (b : Builder) : ScriptValidator :=
  WithPathMapper (Builder.PathMapper b)
    (WithSecurityLevel SecurityLevelMedium NewScriptValidator).

Lemma script_validator_compiles b : patterns_compile (script_validator b) = true.
Proof. exact default_patterns_compile. Qed.

(** The block of a request scanned on its own. *)
Definition block_delta (b : Builder) (r : SymlinkRequest) : delta :=
  match lines_delta (script_validator b) 0 (scanned r) with
  | Return d => d
  | Panic _ => d_zero
  end.

Definition block_errors (b : Builder) (r : SymlinkRequest) : list string :=
  d_errors (block_delta b r).

Definition block_risks (b : Builder) (r : SymlinkRequest) : list Z :=
  d_risks (block_delta b r).

Lemma header_delta b :
  lines_delta (script_validator b) 0 (map dropCR header_lines) = Return d_zero.
Proof. vm_compute. reflexivity. Qed.

Lemma blocks_delta_requests b (q : list SymlinkRequest) :
  exists d,
    blocks_delta (script_validator b) (map scanned q) = Return d
    /\ d_errors d = flat_map (block_errors b) q
    /\ d_risks d = flat_map (block_risks b) q.
Proof.
  induction q as [|r q (d & Hd & He & Hr)]; simpl.
  - exists d_zero. repeat split.
  - destruct (lines_delta_returns (script_validator b) 0 (scanned r)
                (script_validator_compiles b)) as [d1 Hd1].
    rewrite Hd1, Hd. simpl. eexists. split; [reflexivity|].
    unfold block_errors, block_risks, block_delta. rewrite Hd1. simpl.
    now rewrite He, Hr.
Qed.

(** The result of the validation of the generated script, when no line
    is too long: its errors are as many as those of the blocks and its
    risk is the sum of their risks. *)
Lemma generated_script_result b (q : list SymlinkRequest) :
  forallb scans q = true ->
  exists r,
    ValidateScript (script_validator b) "postinst" (symlink_script q)
    = Return (Some r, None)
    /\ List.length (Errors r) = List.length (flat_map (block_errors b) q)
    /\ RiskLevel r = add_risks 0 (flat_map (block_risks b) q)
    /\ Valid r = negb ((0 <? Z.of_nat (List.length (Errors r)))%Z
                       || (6 <? RiskLevel r)%Z).
Proof.
  intros Hscans.
  pose proof (ScanLines_script q) as Hscan. rewrite Hscans in Hscan.
  rewrite (@ValidateScript_delta (script_validator b) "postinst" _ _
             (symlink_script_not_blank q) Hscan).
  pose proof (lines_delta_blocks (script_validator b) 0
                (map dropCR header_lines :: map scanned q)) as Hrel.
  cbn [blocks_delta] in Hrel. rewrite header_delta in Hrel.
  destruct (blocks_delta_requests b q) as (d2 & Hd2 & He & Hr).
  rewrite Hd2 in Hrel. cbn [bind] in Hrel. rewrite d_app_zero_l in Hrel.
  destruct (lines_delta (script_validator b) 0 _) as [d|]; [|contradiction].
  destruct Hrel as (_ & He' & Hr' & _).
  eexists. split; [reflexivity|].
  assert (Hstart : result (start (script_validator b) (symlink_script q))
                   = initial) by reflexivity.
  cbn [finish apply_delta result Errors RiskLevel Valid].
  rewrite Hstart. cbn [Errors RiskLevel Valid initial app andb].
  rewrite He', Hr', He, Hr.
  split; [reflexivity|]. split; [reflexivity|].
  change (securityLevel (script_validator b)) with SecurityLevelMedium.
  rewrite verdict_medium. cbn [Errors RiskLevel].
  now rewrite He', He.
Qed.

Lemma generated_script_too_long b (q : list SymlinkRequest) :
  forallb scans q = false ->
  ValidateScript (script_validator b) "postinst" (symlink_script q)
  = Return (None,
            Errorf "error scanning script: bufio.Scanner: token too long").
Proof.
  intros Hscans.
  pose proof (ScanLines_script q) as Hscan. rewrite Hscans in Hscan.
  unfold ValidateScript.
  destruct (String.eqb_spec (TrimSpace (symlink_script q)) "") as [He|_];
    [now apply symlink_script_not_blank in He|].
  rewrite Hscan.
  match goal with
  | |- context [scan_lines ?sv 0 ?lines ?st] =>
      destruct (scan_lines_returns sv 0 lines st
                  (script_validator_compiles b)) as [st' ->]
  end.
  reflexivity.
Qed.

(** C10, amended.  For a queue that is not empty, [createSymlinkScript]
    stores the generated script exactly when no line of it is too long
    for the scanner and the blocks of the queued requests, each scanned on
    its own at the level Medium, have no error and risks that add up to 6
    at most; otherwise it returns an error and the builder as it was.  The
    fixed lines of the script add no error and no risk. *)
Theorem createSymlinkScript_accepted_iff
    (b : Builder) (q : list SymlinkRequest) :
  symlinkQueue (Builder.SymlinkProcessor b) = q ->
  q <> [] ->
  (createSymlinkScript b
   = Return (set_script b "postinst" (symlink_script q), None)
   <-> (Forall (fun r => ScanLines (symlink_block r) <> None) q
        /\ Forall (fun r => block_errors b r = []) q
        /\ (add_risks 0 (flat_map (block_risks b) q) <= 6)%Z))
  /\ (createSymlinkScript b
      = Return (set_script b "postinst" (symlink_script q), None)
      \/ exists msg, createSymlinkScript b = Return (b, Some msg)).
Proof.
  intros Hq Hne.
  assert (Hcreate : createSymlinkScript b
                    = SetMaintainerScript b "postinst" (symlink_script q)).
  { unfold createSymlinkScript, GetQueuedSymlinks. rewrite Hq.
    destruct q; [contradiction | reflexivity]. }
  assert (Hset : SetMaintainerScript b "postinst" (symlink_script q) =
                 (out <- ValidateScript (script_validator b) "postinst"
                           (symlink_script q) ;;
                  match out with
                  | (_, Some err) =>
                      Return (b, Errorf ("script validation error: " ++ err))
                  | (None, None) =>
                      Panic "runtime error: invalid memory address or nil pointer dereference"
                  | (Some validationResult, None) =>
                      if negb (Valid validationResult) then
                        Return (b, Errorf (validation_message "postinst"
                                             validationResult))
                      else Return (set_script b "postinst" (symlink_script q),
                                   None)
                  end)) by reflexivity.
  assert (Hscans : forallb scans q = true <->
                   Forall (fun r => ScanLines (symlink_block r) <> None) q).
  { rewrite forallb_forall, Forall_forall.
    split; intros H r Hr; specialize (H r Hr); rewrite scans_spec in *;
      destruct (scans r); congruence. }
  assert (Herrs : List.length (flat_map (block_errors b) q) = 0%nat <->
                  Forall (fun r => block_errors b r = []) q).
  { clear. induction q as [|r q IH]; simpl.
    - split; [constructor | reflexivity].
    - rewrite length_app. split.
      + intros H. constructor.
        * destruct (block_errors b r); [reflexivity | simpl in H; lia].
        * apply IH. lia.
      + intros H. inversion H as [|? ? Hr Hrest]; subst.
        rewrite Hr. simpl. now apply IH. }
  rewrite Hcreate, Hset.
  destruct (forallb scans q) eqn:Hs.
  - destruct (generated_script_result b q Hs) as (r & -> & He & Hr & Hv).
    cbn [bind]. rewrite Hv, He, Hr, negb_involutive.
    destruct (Z.ltb_spec 0 (Z.of_nat (List.length (flat_map (block_errors b) q))))
      as [Hpos|Hzero]; cbn [orb].
    + split; [|right; eexists; reflexivity].
      split; [discriminate|]. intros (_ & Hno & _).
      apply Herrs in Hno. lia.
    + destruct (Z.ltb_spec 6 (add_risks 0 (flat_map (block_risks b) q)))
        as [Hhigh|Hlow].
      * split; [|right; eexists; reflexivity].
        split; [discriminate|]. intros (_ & _ & Hle). lia.
      * split; [|now left].
        split; [|reflexivity]. intros _.
        split; [now apply Hscans|]. split; [apply Herrs; lia | exact Hlow].
  - rewrite (generated_script_too_long b q Hs). cbn [bind].
    split; [|right; eexists; reflexivity].
    split; [discriminate|]. intros (Hall & _).
    apply Hscans in Hall. congruence.
Qed.

End GeneratedScriptVerdict.

Section GeneratedScriptRuns.
Import Strings Filepath PathMapper Utf8 Regexp Bufio ScriptValidator.
Import Symlink Builder.

(** The builder after the walk has met [/etc/init.d/myservice]. *)
Definition service_processor : Symlink.SymlinkProcessor :=
  fst (ProcessPath MemFS.os processor0 []
         "/etc/init.d/myservice" "/opt/etc/init.d/myservice").

Definition service_builder : Builder := set_processor builder0 service_processor.

(** The claim of C10 fails: the request for [/etc/init.d/myservice] passes
    the validation of [QueueSymlink], and the script generated for it is
    rejected at the level Medium, with no error and a risk of 20: each of
    the four lines that quote the target matches the pattern
    [/etc/init.d/] and the command [init]. *)
Lemma createSymlinkScript_rejected_counterexample :
  ProcessPath MemFS.os processor0 []
    "/etc/init.d/myservice" "/opt/etc/init.d/myservice"
  = (service_processor, None)
  /\ symlinkQueue service_processor
     = [{| Source := "/opt/etc/init.d/myservice";
           Target := "/etc/init.d/myservice";
           Description := "Automatically detected during build" |}]
  /\ (exists r,
         ValidateScript (script_validator service_builder) "postinst"
           (symlink_script (symlinkQueue service_processor))
         = Return (Some r, None)
         /\ Errors r = [] /\ RiskLevel r = 20%Z /\ Valid r = false)
  /\ exists msg,
       createSymlinkScript service_builder = Return (service_builder, Some msg).
Proof.
  split; [reflexivity|]. split; [reflexivity|]. split.
  - eexists. split; [vm_compute; reflexivity|]. repeat split.
  - eexists. vm_compute. reflexivity.
Qed.

Definition man_request : SymlinkRequest := {|
  Source := "/opt/usr/share/man/man1/app.1";
  Target := "/usr/share/man/man1/app.1";
  Description := "Automatically detected during build"
|}.

Definition man_builder : Builder :=
  set_processor builder0 (set_queue processor0 [man_request]).

Lemma createSymlinkScript_accepted_iff_witness :
  (createSymlinkScript man_builder
   = Return (set_script man_builder "postinst" (symlink_script [man_request]),
             None)
   <-> (Forall (fun r => ScanLines (symlink_block r) <> None) [man_request]
        /\ Forall (fun r => block_errors man_builder r = []) [man_request]
        /\ (add_risks 0 (flat_map (block_risks man_builder) [man_request])
            <= 6)%Z))
  /\ (createSymlinkScript man_builder
      = Return (set_script man_builder "postinst"
                  (symlink_script [man_request]), None)
      \/ exists msg,
          createSymlinkScript man_builder = Return (man_builder, Some msg)).
Proof.
  apply (@createSymlinkScript_accepted_iff man_builder [man_request]).
  - reflexivity.
  - discriminate.
Defined.

(** The script for the manual page is accepted. *)
Lemma createSymlinkScript_man_page_accepted :
  createSymlinkScript man_builder
  = Return (set_script man_builder "postinst" (symlink_script [man_request]),
            None).
Proof. vm_compute. reflexivity. Qed.

End GeneratedScriptRuns.

Section VerdictRuns.
Import Strings Bufio ScriptValidator.

Lemma ValidateScript_verdict_witness :
  (forall r,
      ValidateScript medium "postinst" scenario1_script
      = Return (Some r, None) ->
      (Utf8.TrimSpace scenario1_script = "" -> Valid r = true)
      /\ (Utf8.TrimSpace scenario1_script <> "" ->
          (securityLevel medium = SecurityLevelLow ->
           (Valid r = false <->
            (3 < List.length (Errors r))%nat \/ (8 < RiskLevel r)%Z))
          /\ (securityLevel medium = SecurityLevelMedium ->
              (Valid r = false <->
               Errors r <> [] \/ (6 < RiskLevel r)%Z))
          /\ (securityLevel medium = SecurityLevelHigh ->
              (Valid r = false <->
               Errors r <> [] \/ (3 < List.length (Warnings r))%nat
               \/ (4 < RiskLevel r)%Z))))
  /\ (patterns_compile medium = true ->
      ScanLines scenario1_script <> None ->
      exists r,
        ValidateScript medium "postinst" scenario1_script
        = Return (Some r, None)).
Proof.
  exact (ValidateScript_verdict medium "postinst" scenario1_script).
Defined.

End VerdictRuns.

(** ** The cases of the repository's tests *)

(** The model run on cases of the repository's tests, with the results that
    the tests expect. *)
Section RepositoryTests.
Import Strings Filepath PathMapper Validator ScriptValidator.

Definition fails (e : error) : bool :=
  match e with Some _ => true | None => false end.

Example TestIsTransformedPath :
  map (IsTransformedPath NewPathMapper)
    [""; "/opt/bin/app"; "/opt/bin/"; "/bin/app"; "/opt/../opt/bin"]
  = [false; true; true; false; true].
Proof. reflexivity. Qed.

Example TestIsSystemPath :
  map (IsSystemPath NewPathMapper)
    [""; "/bin"; "/etc/systemd/system"; "/usr/"; "/opt/bin/app";
     "/etc/../etc/hosts"; "/optical/drive"]
  = [false; true; true; true; false; true; false].
Proof. reflexivity. Qed.

Example TestShouldCreateSymlink :
  map (shouldCreateSymlink NewPathMapper)
    [""; "/etc/systemd/system"; "/etc/systemd/system/myapp.service";
     "/usr/bin/myapp"; "/var/log/myapp.log"; "/etc/systemdesk/"]
  = [false; true; true; true; false; false].
Proof. reflexivity. Qed.

Example TestTransformPath :
  map (TransformPath NewPathMapper)
    [""; "/opt/bin/app"; "/var/log/app.log"; "/bin/myapp";
     "/usr/local/../bin/app"; "/some/random/path"]
  = [("", false, Some "cannot transform empty path");
     ("/opt/bin/app", false, None);
     ("/opt/var/log/app.log", false, None);
     ("/opt/bin/myapp", true, None);
     ("/opt/usr/bin/app", true, None);
     ("", false,
      Some "no transformation rule matched for path: /some/random/path")].
Proof. reflexivity. Qed.

Example TestValidatePathTraversalEnhanced :
  map (fun p => fails (ValidatePathTraversal NewValidator p))
    ["/opt/myapp/config.json";
     "/opt/myapp/%2e%2e/%2e%2e/etc/passwd";
     "/opt/myapp/%252e%252e/etc/passwd";
     "/opt/myapp/..%2f../../etc/passwd";
     "/opt/myapp/．．/etc/passwd";
     "/opt/myapp//..//..//etc/passwd";
     "/opt/myapp/..\/../etc/passwd";
     "/opt/myapp/config.json" ++ String "000" "/../../../etc/passwd";
     "/opt/myapp/./config.json";
     "/opt/myapp/././config.json";
     "/opt/myapp/%c0%ae%c0%ae/etc/passwd";
     "/opt/myapp/~/etc/passwd";
     "/opt/myapp/$HOME/config"]
  = [false; true; true; true; true; true; true; true; false; false; true;
     false; false].
Proof. vm_compute. reflexivity. Qed.

Example TestExtractPaths :
  map extractPaths
    ["mkdir -p /opt/myapp"; "cp /opt/source /etc/dest"; "echo 'Hello World'";
     "rm -rf /etc/myapp /var/lib/myapp /usr/bin/myapp"]
  = [Return ["/opt/myapp"]; Return ["/opt/source"; "/etc/dest"]; Return [];
     Return ["/etc/myapp"; "/var/lib/myapp"; "/usr/bin/myapp"]].
Proof. vm_compute. reflexivity. Qed.

(** The scripts of [TestScriptValidator] that are to be valid: the simple
    script, the operations on transformed paths and the variables. *)
Example TestScriptValidator_valid :
  map (fun content =>
         match ValidateScript medium "postinst" content with
         | Return (Some r, None) => Some (Valid r)
         | _ => None
         end)
    [""; 
     "#!/bin/sh" ++ String "010" "echo " ++ dquote
       ++ "Package installed successfully" ++ dquote
       ++ String "010" "mkdir -p /opt/myapp/logs";
     "#!/bin/sh" ++ String "010" "echo " ++ dquote
       ++ "Creating config directory" ++ dquote
       ++ String "010" "mkdir -p /opt/etc/myapp"
       ++ String "010" "chmod 755 /opt/etc/myapp";
     "#!/bin/sh" ++ String "010" "APP_DIR=/opt/myapp"
       ++ String "010" "mkdir -p $APP_DIR/logs"
       ++ String "010" "chmod 755 $APP_DIR"]
  = [Some true; Some true; Some true; Some true].
Proof. vm_compute. reflexivity. Qed.

End RepositoryTests.

(* ===================================================================== *)
(** * Further properties of the code *)
(* ===================================================================== *)

(** ** PathMapper: when and where a path is sent *)

Section PathMapperRules.
Import Strings Filepath PathMapper.

Lemma HasPrefix_app_l (s a b : string) :
  HasPrefix s (a ++ b) = true -> HasPrefix s a = true.
Proof.
  revert s; induction a as [|c a IH]; intros s H; simpl in *.
  - apply HasPrefix_empty.
  - destruct s as [|d s]; simpl in *; [discriminate|].
    apply andb_true_iff in H as [Hc Hp].
    rewrite Hc. simpl. now apply IH.
Qed.

Lemma under_HasPrefix (norm dir : string) :
  under norm dir = true -> HasPrefix norm dir = true.
Proof.
  unfold under. intros H. apply orb_true_iff in H as [H|H].
  - apply String.eqb_eq in H. subst. apply HasPrefix_refl.
  - now apply HasPrefix_app_l in H.
Qed.

Lemma Replace1_prefix (s old new : string) :
  HasPrefix s old = true ->
  Replace1 s old new = new ++ drop (String.length old) s.
Proof.
  intros H. destruct s as [|c s].
  - destruct old; [reflexivity | discriminate].
  - cbn [Replace1]. now rewrite H.
Qed.

(** What [strings.Replace] makes of a path under [sysDir]: the secure
    directory and the rest of the path. *)
Lemma Replace1_under (norm sysDir secureDir : string) :
  under norm sysDir = true ->
  Replace1 norm sysDir secureDir
  = secureDir ++ drop (String.length sysDir) norm.
Proof. intros H. apply Replace1_prefix. now apply under_HasPrefix. Qed.

Lemma IsTransformedPath_norm pm path :
  path <> "" -> IsTransformedPath pm (Clean path) = IsTransformedPath pm path.
Proof.
  intros Hne. rewrite IsTransformedPath_Clean. unfold IsTransformedPath.
  destruct (String.eqb_spec path ""); [contradiction | reflexivity].
Qed.

(** The four ways out of [TransformPath]. *)
Lemma TransformPath_cases pm path :
  (path = "" /\
   TransformPath pm path = ("", false, Errorf "cannot transform empty path"))
  \/ (path <> "" /\ IsTransformedPath pm path = true /\
      TransformPath pm path = (Clean path, false, None))
  \/ (path <> "" /\ IsTransformedPath pm path = false /\
      IsSystemPath pm path = true /\
      exists sysDir secureDir,
        In (sysDir, secureDir) (systemDirs pm) /\
        under (Clean path) sysDir = true /\
        TransformPath pm path =
          (Replace1 (Clean path) sysDir secureDir,
           shouldCreateSymlink pm (Clean path), None))
  \/ (path <> "" /\ IsTransformedPath pm path = false /\
      IsSystemPath pm path = false /\
      TransformPath pm path =
        ("", false,
         Errorf ("no transformation rule matched for path: " ++ path))).
Proof.
  destruct (String.eqb_spec path "") as [->|Hne]; [left; now split|].
  right.
  destruct (IsTransformedPath pm path) eqn:Htr.
  - left. repeat split; try assumption.
    unfold TransformPath.
    destruct (String.eqb_spec path ""); [contradiction|].
    now rewrite (IsTransformedPath_norm pm Hne), Htr.
  - right.
    destruct (IsSystemPath pm path) eqn:Hsys.
    + left. repeat split; try assumption.
      unfold IsSystemPath in Hsys.
      destruct (String.eqb_spec path ""); [contradiction|].
      destruct (find_some_of_existsb _ _ Hsys) as [[sysDir secureDir] Hfind].
      exists sysDir, secureDir.
      destruct (find_some _ _ Hfind) as [Hin Hu].
      repeat split; try assumption.
      apply TransformPath_rule; try assumption.
      rewrite <- IsTransformedPath_Clean, (IsTransformedPath_norm pm Hne).
      exact Htr.
    + right. repeat split; try assumption.
      now apply TransformPath_no_rule.
Qed.

(** X1.  [TransformPath] returns no error exactly for a path that is not
    empty and that [IsTransformedPath] or [IsSystemPath] accepts, whatever
    the mappings and the order of their visit; when it returns an error
    the path it returns is empty and it asks for no symlink. *)
Theorem TransformPath_succeeds_iff (pm : PathMapper) (path : string) :
  (snd (TransformPath pm path) = None <->
   path <> "" /\
   (IsTransformedPath pm path = true \/ IsSystemPath pm path = true))
  /\ (snd (TransformPath pm path) <> None ->
      fst (TransformPath pm path) = ("", false)).
Proof.
  destruct (TransformPath_cases pm path)
    as [[He H] | [(Hne & Htr & H) | [(Hne & Htr & Hsys & s & t & _ & _ & H)
                                    | (Hne & Htr & Hsys & H)]]];
    rewrite H; simpl.
  - split; [split|reflexivity]; [discriminate | tauto].
  - split; [split|congruence]; auto.
  - split; [split|congruence]; auto.
  - split; [split|reflexivity]; [discriminate|].
    intros [_ [H1|H1]]; congruence.
Qed.

Lemma default_rule_target (sysDir secureDir : string) :
  In (sysDir, secureDir) (systemDirs NewPathMapper) ->
  secureDir = "/opt" ++ sysDir /\ HasPrefix sysDir "/" = true
  /\ sysDir <> "/".
Proof.
  simpl. intros H.
  repeat (destruct H as [H|H]; [inversion H; subst; repeat split; discriminate|]).
  contradiction.
Qed.

(** With the default mappings a system path is sent to [/opt] followed by
    the normalized path. *)
Lemma TransformPath_default_rule (pm : PathMapper) (path : string) :
  Permutation (systemDirs NewPathMapper) (systemDirs pm) ->
  IsTransformedPath pm path = false ->
  IsSystemPath pm path = true ->
  TransformPath pm path =
    ("/opt" ++ Clean path, shouldCreateSymlink pm (Clean path), None)
  /\ HasPrefix (Clean path) "/" = true /\ Clean path <> "/".
Proof.
  intros Hperm Htr Hsys.
  destruct (TransformPath_cases pm path)
    as [[He H] | [(Hne & Htr' & H) | [(Hne & _ & _ & s & t & Hin & Hu & H)
                                    | (Hne & _ & Hsys' & H)]]];
    try congruence.
  - subst. discriminate.
  - apply (Permutation_in _ (Permutation_sym Hperm)) in Hin.
    destruct (default_rule_target Hin) as (-> & Hroot & Hnr).
    pose proof (@under_HasPrefix _ _ Hu) as Hp.
    split; [|split].
    + rewrite H, (@Replace1_under _ _ _ Hu).
      rewrite append_assoc.
      now rewrite <- (@HasPrefix_inv _ _ Hp).
    + rewrite (@HasPrefix_inv _ _ Hp).
      destruct s as [|c s]; [discriminate|]. simpl in *.
      apply andb_true_iff in Hroot as [Hc _]. rewrite Hc.
      apply HasPrefix_empty.
    + intros Heq. rewrite Heq in Hu.
      unfold under in Hu. apply orb_true_iff in Hu as [Hu|Hu].
      * apply String.eqb_eq in Hu. congruence.
      * destruct s as [|c s]; [discriminate|]. simpl in Hu.
        apply andb_true_iff in Hu as [_ Hu].
        destruct s; discriminate.
Qed.

(** X2.  With the default mappings, in whatever order they are visited, a
    path under a system directory is sent to [/opt] followed by the
    normalized path, and the symlink is asked for by [shouldCreateSymlink]
    on the normalized path.  The secure root of the mapper has no part in
    the result: with another root than [/opt] the result is still under
    [/opt]. *)
Theorem TransformPath_default_rules_prepend_opt
    (pm : PathMapper) (path : string) :
  Permutation (systemDirs NewPathMapper) (systemDirs pm) ->
  IsTransformedPath pm path = false ->
  IsSystemPath pm path = true ->
  TransformPath pm path =
    ("/opt" ++ Clean path, shouldCreateSymlink pm (Clean path), None).
Proof. intros Hp Ht Hs. now apply TransformPath_default_rule. Qed.

End PathMapperRules.

(** ** The shape of a normalized rooted path *)

Section CleanShape.
Import Strings Filepath.

Lemma wf_out_true_real (out : list string) :
  wf_out true out <-> Forall real out.
Proof.
  split.
  - induction 1 as [n Hn | e out He Hwf IH].
    + rewrite (Hn eq_refl). constructor.
    + now constructor.
  - induction 1 as [|e out He Hall IH].
    + apply wf_out_nil.
    + now apply wf_real.
Qed.

(** [Clean] of a rooted path: the separator and real elements joined. *)
Lemma Clean_rooted (path : string) :
  HasPrefix path "/" = true ->
  exists out, Forall real out /\ Clean path = render true out.
Proof.
  intros Hr.
  assert (Hne : path <> "") by (intros ->; discriminate).
  rewrite (Clean_unfold Hne), Hr.
  eexists; split; [|reflexivity].
  apply wf_out_true_real.
  apply fold_clean_wf; [apply Split_all_nosep | apply wf_out_nil].
Qed.

Lemma Join_app (l1 l2 : list string) :
  l1 <> [] -> l2 <> [] ->
  Join (l1 ++ l2) "/" = Join l1 "/" ++ "/" ++ Join l2 "/".
Proof.
  intros H1 H2. induction l1 as [|e l1 IH]; [congruence|].
  destruct l1 as [|e' l1].
  - destruct l2; [congruence | reflexivity].
  - change (Join (e :: e' :: l1) "/") with (e ++ "/" ++ Join (e' :: l1) "/").
    change (Join ((e :: e' :: l1) ++ l2) "/")
      with (e ++ "/" ++ Join ((e' :: l1) ++ l2) "/").
    rewrite IH by discriminate.
    now rewrite !append_assoc.
Qed.

Lemma render_app (oa ob : list string) :
  oa <> [] -> ob <> [] ->
  render true oa ++ render true ob = render true (ob ++ oa).
Proof.
  intros Ha Hb. unfold render. rewrite rev_app_distr.
  rewrite Join_app.
  - now rewrite !append_assoc.
  - intros H. apply (f_equal (@List.length string)) in H.
    rewrite length_rev in H. destruct oa; [congruence | discriminate].
  - intros H. apply (f_equal (@List.length string)) in H.
    rewrite length_rev in H. destruct ob; [congruence | discriminate].
Qed.

(** A rooted path that [Clean] leaves as it is. *)
Definition clean_rooted (p : string) : Prop :=
  HasPrefix p "/" = true /\ Clean p = p.

Lemma clean_rooted_shape (p : string) :
  clean_rooted p ->
  exists out, Forall real out /\ p = render true out /\ (p <> "/" -> out <> []).
Proof.
  intros [Hr Hc]. destruct (Clean_rooted _ Hr) as (out & Hall & Heq).
  exists out. rewrite Hc in Heq. repeat split; try assumption.
  intros Hp ->. now apply Hp.
Qed.

Lemma clean_rooted_Clean (path : string) :
  HasPrefix path "/" = true -> clean_rooted (Clean path).
Proof.
  intros Hr. split; [|apply Clean_idempotent].
  destruct (Clean_rooted _ Hr) as (out & _ & ->).
  apply (HasPrefix_app "/").
Qed.

Lemma nosep_not_rooted (f : string) :
  nosep f = true -> HasPrefix f "/" = false.
Proof.
  destruct f as [|c f]; [reflexivity|]. simpl.
  intros H. apply andb_true_iff in H as [Hc _].
  apply negb_true_iff in Hc. now rewrite Hc.
Qed.

(** [Clean] keeps a path that is not rooted unrooted. *)
Lemma Clean_unrooted (path : string) :
  HasPrefix path "/" = false -> HasPrefix (Clean path) "/" = false.
Proof.
  intros Hr.
  destruct (String.eqb_spec path "") as [->|Hne]; [reflexivity|].
  rewrite (Clean_unfold Hne), Hr.
  assert (Hwf : wf_out false
            (fold_left (clean_step false) (Split path Separator) [])).
  { apply fold_clean_wf; [apply Split_all_nosep | apply wf_out_nil]. }
  unfold render.
  destruct (fold_left _ _ _) as [|e out] eqn:Hf; [reflexivity|].
  destruct (rev (e :: out)) as [|f l] eqn:Hrev.
  { apply (f_equal (@List.length string)) in Hrev.
    rewrite length_rev in Hrev. discriminate. }
  destruct (wf_out_last_nosep_nonempty Hwf Hrev) as [Hf' Hne'].
  destruct (Join_cons_nonempty l Hne') as [_ ->].
  now apply nosep_not_rooted.
Qed.

Lemma Clean_rooted_inv (path : string) :
  HasPrefix (Clean path) "/" = true -> HasPrefix path "/" = true.
Proof.
  intros H. destruct (HasPrefix path "/") eqn:Hp; [reflexivity|].
  apply Clean_unrooted in Hp. congruence.
Qed.

(** Two normalized rooted paths, neither of them the root, written one
    after the other make a normalized rooted path. *)
Lemma clean_rooted_app (a b : string) :
  clean_rooted a -> clean_rooted b -> a <> "/" -> b <> "/" ->
  clean_rooted (a ++ b).
Proof.
  intros Ha Hb Hna Hnb.
  destruct (clean_rooted_shape Ha) as (oa & Hra & -> & Hoa).
  destruct (clean_rooted_shape Hb) as (ob & Hrb & -> & Hob).
  rewrite render_app by auto.
  split; [apply (HasPrefix_app "/")|].
  apply Clean_render. apply wf_out_true_real.
  apply Forall_app. now split.
Qed.

End CleanShape.

Section PathMapperIdempotent.
Import Strings Filepath PathMapper.

Lemma TransformPath_transformed pm t :
  Clean t = t -> HasPrefix t (baseTransformDir pm) = true ->
  TransformPath pm t = (t, false, None).
Proof.
  intros Hc Hp.
  assert (Hne : t <> "") by (rewrite <- Hc; apply Clean_nonempty).
  destruct (TransformPath_cases pm t)
    as [[He H] | [(_ & Htr & H) | [(_ & Htr & _) | (_ & Htr & _)]]];
    try contradiction.
  - now rewrite H, Hc.
  - unfold IsTransformedPath in Htr.
    destruct (String.eqb_spec t ""); [contradiction|]. congruence.
  - unfold IsTransformedPath in Htr.
    destruct (String.eqb_spec t ""); [contradiction|]. congruence.
Qed.

(** X3.  With the default mappings and the secure root [/opt],
    [TransformPath] is idempotent: the path it returns is a transformed
    path, which a second call returns as it is and without a symlink, in
    whatever order the mappings are visited. *)
Theorem TransformPath_default_idempotent
    (pm : PathMapper) (path t : string) (needsSymlink : bool) :
  Permutation (systemDirs NewPathMapper) (systemDirs pm) ->
  baseTransformDir pm = "/opt" ->
  TransformPath pm path = (t, needsSymlink, None) ->
  IsTransformedPath pm t = true /\ TransformPath pm t = (t, false, None).
Proof.
  intros Hperm Hbase Hrun.
  assert (Hgoal : Clean t = t /\ HasPrefix t "/opt" = true).
  { destruct (TransformPath_cases pm path)
      as [[He H] | [(Hne & Htr & H) | [(Hne & Htr & Hsys & _)
                                      | (Hne & Htr & Hsys & H)]]];
      try (rewrite H in Hrun; discriminate).
    - rewrite H in Hrun. inversion Hrun; subst t.
      split; [apply Clean_idempotent|].
      unfold IsTransformedPath in Htr.
      destruct (String.eqb_spec path ""); [contradiction|].
      now rewrite Hbase in Htr.
    - destruct (TransformPath_default_rule pm path Hperm Htr Hsys)
        as (H & Hroot & Hnr).
      rewrite H in Hrun. inversion Hrun; subst t.
      split; [|apply (HasPrefix_app "/opt")].
      apply (@clean_rooted_app "/opt" (Clean path)).
      + split; reflexivity.
      + apply clean_rooted_Clean. now apply Clean_rooted_inv.
      + discriminate.
      + assumption. }
  destruct Hgoal as [Hc Hp].
  assert (Hne : t <> "") by (rewrite <- Hc; apply Clean_nonempty).
  split.
  - unfold IsTransformedPath.
    destruct (String.eqb_spec t ""); [contradiction|].
    now rewrite Hc, Hbase.
  - apply TransformPath_transformed; [assumption | now rewrite Hbase].
Qed.

End PathMapperIdempotent.

Section PathMapperMappings.
Import Strings Filepath PathMapper.

Lemma map_set_has (m : list (string * string)) (key value : string) :
  In (key, value) (map_set m key value).
Proof.
  induction m as [|[k v] m IH]; simpl; [now left|].
  destruct (String.eqb k key); simpl; auto.
Qed.

Lemma map_set_In (m : list (string * string)) (key value k v : string) :
  NoDup (map fst m) ->
  In (k, v) (map_set m key value) ->
  (k = key /\ v = value) \/ (k <> key /\ In (k, v) m).
Proof.
  induction m as [|[k0 v0] m IH]; simpl; intros Hnd Hin.
  - destruct Hin as [Hin|[]]. inversion Hin. now left.
  - inversion Hnd as [|? ? Hnot Hnd']; subst.
    destruct (String.eqb_spec k0 key) as [->|Hk].
    + destruct Hin as [Hin|Hin]; [inversion Hin; now left|].
      right. split; [|now right].
      intros ->. apply Hnot. apply (in_map fst) in Hin. exact Hin.
    + destruct Hin as [Hin|Hin].
      * inversion Hin; subst. right. split; [assumption | now left].
      * destruct (IH Hnd' Hin) as [?|[? ?]]; [now left|].
        right. split; [assumption | now right].
Qed.

(** X4.  After [AddSystemDirMapping] with a source and a target that are
    not empty, a path that is the source directory or under it, that is
    not a transformed path and is under no other source directory of the
    mapper, is sent to the new target: the source directory at its head is
    replaced by the target, whether the source was a key of the map before
    or not, and in whatever order the map is visited. *)
Theorem AddSystemDirMapping_TransformPath
    (pm : PathMapper) (sourceDir targetDir : string)
    (order : list (string * string)) (path : string) :
  sourceDir <> "" -> targetDir <> "" ->
  NoDup (map fst (systemDirs pm)) ->
  Permutation (systemDirs (AddSystemDirMapping pm sourceDir targetDir)) order ->
  path <> "" ->
  IsTransformedPath pm path = false ->
  under (Clean path) sourceDir = true ->
  (forall k v, In (k, v) (systemDirs pm) -> k <> sourceDir ->
               under (Clean path) k = false) ->
  TransformPath (with_order (AddSystemDirMapping pm sourceDir targetDir) order)
                path
  = (targetDir ++ drop (String.length sourceDir) (Clean path),
     shouldCreateSymlink pm (Clean path), None).
Proof.
  intros Hs Ht Hnd Hperm Hne Htr Hu Hother.
  unfold AddSystemDirMapping in *.
  destruct (String.eqb_spec sourceDir ""); [contradiction|].
  destruct (String.eqb_spec targetDir ""); [contradiction|].
  cbn [negb andb systemDirs] in Hperm. cbn [negb andb].
  rewrite <- (@Replace1_under (Clean path) sourceDir targetDir Hu).
  rewrite (@TransformPath_rule _ path sourceDir targetDir);
    [reflexivity | assumption | |].
  - unfold IsTransformedPath in Htr.
    destruct (String.eqb_spec path ""); [contradiction | exact Htr].
  - cbn [with_order systemDirs].
    apply (find_unique_perm (fun e => under (Clean path) (fst e)) Hperm
             (x := (sourceDir, targetDir))).
    + apply map_set_has.
    + exact Hu.
    + intros [k v] Hin Huk.
      destruct (@map_set_In _ _ _ _ _ Hnd Hin) as [[-> ->]|[Hk Hin']];
        [reflexivity|].
      simpl in Huk. rewrite (Hother k v Hin' Hk) in Huk. discriminate.
Qed.

End PathMapperMappings.

Section PathMapperRuns.
Import Strings Filepath PathMapper.

Lemma TransformPath_default_rules_prepend_opt_witness :
  TransformPath (WithBaseTransformDir "/secure" NewPathMapper) "/usr/bin/./app"
  = ("/opt/usr/bin/app", true, None).
Proof.
  apply (@TransformPath_default_rules_prepend_opt
           (WithBaseTransformDir "/secure" NewPathMapper) "/usr/bin/./app");
    [apply Permutation_refl | reflexivity | reflexivity].
Defined.

Lemma TransformPath_default_idempotent_witness :
  IsTransformedPath NewPathMapper "/opt/etc/app.conf" = true
  /\ TransformPath NewPathMapper "/opt/etc/app.conf"
     = ("/opt/etc/app.conf", false, None).
Proof.
  apply (@TransformPath_default_idempotent
           NewPathMapper "/etc/../etc/app.conf" "/opt/etc/app.conf" false);
    [apply Permutation_refl | reflexivity | reflexivity].
Defined.

Lemma AddSystemDirMapping_TransformPath_witness :
  TransformPath (AddSystemDirMapping NewPathMapper "/bin" "/custom/bin")
                "/bin/app"
  = ("/custom/bin/app", true, None).
Proof.
  apply (@AddSystemDirMapping_TransformPath
           NewPathMapper "/bin" "/custom/bin"
           (systemDirs (AddSystemDirMapping NewPathMapper "/bin" "/custom/bin"))
           "/bin/app");
    try discriminate; try reflexivity.
  - repeat constructor; simpl; intuition discriminate.
  - simpl. intros k v Hin Hk.
    repeat (destruct Hin as [Hin|Hin];
            [inversion Hin; subst; try reflexivity; now elim Hk|]).
    contradiction.
Defined.

End PathMapperRuns.

(** ** Validator *)

Section CleanLength.
Import Strings Filepath.

(** The bytes of the elements of a path, a separator counted with each. *)
Fixpoint size (l : list string) : nat :=
  match l with
  | [] => 0
  | e :: rest => S (String.length e) + size rest
  end.

Lemma size_app (a b : list string) : size (a ++ b) = size a + size b.
Proof. induction a as [|e a IH]; simpl; [reflexivity | lia]. Qed.

Lemma size_rev (l : list string) : size (rev l) = size l.
Proof.
  induction l as [|e l IH]; simpl; [reflexivity|].
  rewrite size_app, IH. simpl. lia.
Qed.

Lemma length_Join (l : list string) :
  l <> [] -> S (String.length (Join l "/")) = size l.
Proof.
  induction l as [|e l IH]; [congruence|]. intros _.
  destruct l as [|e' l].
  - simpl. lia.
  - specialize (IH ltac:(discriminate)).
    change (Join (e :: e' :: l) "/") with (e ++ "/" ++ Join (e' :: l) "/").
    change (size (e :: e' :: l)) with (S (String.length e) + size (e' :: l)).
    rewrite <- IH, !length_append.
    change (String.length "/") with 1. lia.
Qed.

Lemma length_Split (s : string) :
  S (String.length s) = size (Split s "/").
Proof.
  induction s as [|c s IH]; [reflexivity|].
  simpl. destruct (Ascii.eqb c "/").
  - simpl. lia.
  - destruct (Split s "/") as [|h t]; simpl in *; lia.
Qed.

Lemma size_clean_step (rooted : bool) (out : list string) (e : string) :
  size (clean_step rooted out e) <= size out + S (String.length e).
Proof.
  unfold clean_step.
  destruct (String.eqb_spec e ""); [lia|].
  destruct (String.eqb_spec e "."); [lia|].
  destruct (String.eqb_spec e "..") as [->|].
  - destruct out as [|top rest]; [destruct rooted; simpl; lia|].
    destruct (String.eqb top ".."); [destruct rooted|]; simpl; lia.
  - simpl. lia.
Qed.

Lemma size_fold_clean (rooted : bool) (segs out : list string) :
  size (fold_left (clean_step rooted) segs out) <= size out + size segs.
Proof.
  revert out; induction segs as [|e segs IH]; intros out; simpl; [lia|].
  specialize (IH (clean_step rooted out e)).
  pose proof (size_clean_step rooted out e). lia.
Qed.

(** [Clean] does not make a rooted path longer. *)
Lemma length_Clean_rooted (path : string) :
  HasPrefix path "/" = true ->
  String.length (Clean path) <= String.length path.
Proof.
  intros Hr.
  assert (Hne : path <> "") by (intros ->; discriminate).
  rewrite (Clean_unfold Hne), Hr.
  destruct path as [|c path]; [contradiction|].
  simpl in Hr. apply andb_true_iff in Hr as [Hc _].
  unfold Separator. cbn [Split]. rewrite Hc.
  cbn [fold_left]. change (clean_step true [] "") with (@nil string).
  pose proof (size_fold_clean true (Split path "/") []) as Hsz.
  pose proof (length_Split path) as Hlen.
  unfold render.
  destruct (fold_left (clean_step true) (Split path "/") []) as [|e out] eqn:Hf.
  - simpl. lia.
  - assert (Hj : S (String.length (Join (rev (e :: out)) "/"))
                 = size (rev (e :: out))).
    { apply length_Join. intros H.
      apply (f_equal (@List.length string)) in H.
      rewrite length_rev in H. discriminate. }
    rewrite size_rev in Hj.
    change (String.length ("/" ++ Join (rev (e :: out)) "/"))
      with (S (String.length (Join (rev (e :: out)) "/"))).
    change (size []) with 0 in Hsz.
    change (String.length (String c path)) with (S (String.length path)).
    lia.
Qed.

End CleanLength.

Section ValidatorClosure.
Import Strings Filepath Validator.

(** The conditions under which [ValidatePath] returns no error. *)
Lemma ValidatePath_None (v : Validator) (path : string) :
  ValidatePath v path = None <->
  path <> "" /\ IsAbs path = true
  /\ (len path <= MaxPathLength (policy v))%Z
  /\ (Clean path = path \/ DisallowDotDot (policy v) = false
      \/ Contains path ".." = false)
  /\ forbidden v (Clean path) = false.
Proof.
  unfold ValidatePath.
  destruct (String.eqb_spec path "") as [->|Hne].
  { split; [discriminate | intros [H _]; now elim H]. }
  destruct (IsAbs path); cbn [negb].
  2:{ split; [discriminate | intros (_ & H & _); discriminate]. }
  destruct (Z.ltb_spec (MaxPathLength (policy v)) (len path)).
  { split; [discriminate | intros (_ & _ & H' & _); lia]. }
  destruct (String.eqb_spec (Clean path) path) as [Hc|Hc]; cbn [negb andb].
  - destruct (forbidden v (Clean path)).
    + split; [discriminate | intros (_ & _ & _ & _ & H'); discriminate].
    + destruct (HasPrefix _ _); split; auto; intros _; repeat split; auto.
  - destruct (DisallowDotDot (policy v)); cbn [andb].
    + destruct (Contains path "..").
      * split; [discriminate|].
        intros (_ & _ & _ & [H'|[H'|H']] & _); congruence.
      * destruct (forbidden v (Clean path)).
        -- split; [discriminate | intros (_ & _ & _ & _ & H'); discriminate].
        -- destruct (HasPrefix _ _); split; auto; intros _; repeat split; auto.
    + destruct (forbidden v (Clean path)).
      * split; [discriminate | intros (_ & _ & _ & _ & H'); discriminate].
      * destruct (HasPrefix _ _); split; auto; intros _; repeat split; auto.
Qed.

(** X5.  [ValidatePath] is closed under normalization: when it accepts a
    path it accepts the path that [filepath.Clean] makes of it, which is
    the path that the checks of the forbidden directories were made on. *)
Theorem ValidatePath_accepts_Clean (v : Validator) (path : string) :
  ValidatePath v path = None -> ValidatePath v (Clean path) = None.
Proof.
  intros H. apply ValidatePath_None in H as (Hne & Habs & Hlen & _ & Hforb).
  apply ValidatePath_None. unfold IsAbs in *.
  repeat split.
  - apply Clean_nonempty.
  - now apply clean_rooted_Clean.
  - pose proof (length_Clean_rooted _ Habs). unfold len in *. lia.
  - left. apply Clean_idempotent.
  - now rewrite Clean_idempotent.
Qed.

End ValidatorClosure.

Section ValidatorClosureRuns.
Import Strings Filepath Validator.

Lemma ValidatePath_accepts_Clean_witness :
  ValidatePath NewValidator (Clean "/etc//myapp/./app.conf") = None.
Proof.
  apply (@ValidatePath_accepts_Clean NewValidator "/etc//myapp/./app.conf").
  reflexivity.
Defined.

End ValidatorClosureRuns.

Section TraversalCheck.
Import Strings Filepath Validator.

(** Whether an element of the list is [..]. *)
Definition has_dotdot (parts : list string) : bool :=
  existsb (fun part => String.eqb part "..") parts.

Lemma dotdot_part_S (i : nat) (parts : list string) :
  dotdot_part (S i) parts = has_dotdot parts.
Proof.
  revert i; induction parts as [|part rest IH]; intros i; simpl;
    [reflexivity|].
  now rewrite IH, andb_true_r.
Qed.

Lemma dotdot_part_0 (part : string) (rest : list string) :
  dotdot_part 0 (part :: rest) = has_dotdot rest.
Proof. simpl. now rewrite andb_false_r, dotdot_part_S. Qed.

Lemma has_dotdot_real (l : list string) :
  Forall real l -> has_dotdot l = false.
Proof.
  induction 1 as [|e l (_ & _ & _ & He) _ IH]; simpl; [reflexivity|].
  rewrite IH. destruct (String.eqb_spec e ".."); [contradiction | reflexivity].
Qed.

Lemma rev_repeat (A : Type) (x : A) (n : nat) :
  rev (repeat x n) = repeat x n.
Proof.
  induction n as [|n IH]; [reflexivity|].
  simpl. rewrite IH. clear IH.
  induction n as [|n IH]; [reflexivity|].
  simpl. now rewrite IH.
Qed.

(** The elements of the output buffer in the order of the path: the
    leading [..] elements, then real elements. *)
Lemma wf_out_rev (rooted : bool) (out : list string) :
  wf_out rooted out ->
  exists k reals,
    rev out = (repeat ".." k ++ reals)%list /\ Forall real reals
    /\ (rooted = true -> k = 0).
Proof.
  induction 1 as [n Hn | e out He Hwf (k & reals & Hrev & Hreal & Hk)].
  - exists n, []. rewrite rev_repeat, app_nil_r. repeat split; auto.
  - exists k, (reals ++ [e])%list. simpl. rewrite Hrev, app_assoc.
    repeat split; auto. apply Forall_app. split; auto.
Qed.

Lemma Split_dotdot_sep (rest : string) :
  Split ("../" ++ rest) "/" = ".." :: Split rest "/".
Proof. apply (Split_app_sep ".." rest). reflexivity. Qed.

(** The parts of the normalized path hold a [..] after the first part
    exactly when the path starts with two [..] elements. *)
Lemma Clean_dotdot_part (path : string) :
  path <> "" ->
  (Contains (Clean path) ".." && dotdot_part 0 (Split (Clean path) "/") = true
   <-> Clean path = "../.." \/ HasPrefix (Clean path) "../../" = true).
Proof.
  intros Hne. split.
  - intros H. apply andb_true_iff in H as [_ H].
    rewrite (Clean_unfold Hne) in *.
    set (rooted := HasPrefix path "/") in *.
    assert (Hwf : wf_out rooted
              (fold_left (clean_step rooted) (Split path Separator) [])).
    { apply fold_clean_wf; [apply Split_all_nosep | apply wf_out_nil]. }
    set (out := fold_left (clean_step rooted) (Split path Separator) []) in *.
    pose proof (wf_out_nosep Hwf) as Hns.
    destruct (wf_out_rev Hwf) as (k & reals & Hrev & Hreal & Hk).
    assert (Hnil : out = [] -> rev out = []) by (now intros ->).
    assert (Hrns : Forall (fun e => nosep e = true) (rev out))
      by now apply Forall_rev.
    destruct rooted; unfold render in *.
    + specialize (Hk eq_refl). subst k. simpl in Hrev.
      exfalso.
      change (Split ("/" ++ Join (rev out) "/") "/")
        with ("" :: Split (Join (rev out) "/") "/") in H.
      rewrite dotdot_part_0 in H.
      destruct (rev out) as [|e l] eqn:Hro.
      * discriminate.
      * rewrite Split_Join in H by (auto; discriminate).
        rewrite Hrev, has_dotdot_real in H by assumption. discriminate.
    + destruct out as [|e0 out0] eqn:Hout; [discriminate|].
      rewrite <- Hout in *.
      destruct (rev out) as [|e l] eqn:Hro.
      { subst out. apply (f_equal (@List.length string)) in Hro.
        rewrite length_rev in Hro. discriminate. }
      rewrite Split_Join in H by (auto; discriminate).
      rewrite dotdot_part_0 in H.
      destruct k as [|[|k]].
      * simpl in Hrev. subst reals. inversion Hreal; subst.
        rewrite has_dotdot_real in H by assumption. discriminate.
      * simpl in Hrev. inversion Hrev; subst.
        rewrite has_dotdot_real in H by assumption. discriminate.
      * simpl in Hrev. inversion Hrev; subst.
        destruct (repeat ".." k ++ reals)%list as [|x l']; [now left|].
        right.
        change (Join (".." :: ".." :: x :: l') "/")
          with ("../../" ++ Join (x :: l') "/").
        apply (HasPrefix_app "../../").
  - intros [H|H].
    + rewrite H. reflexivity.
    + apply HasPrefix_inv in H. rewrite H.
      change ("../../" ++ drop (String.length "../../") (Clean path))
        with ("../" ++ "../" ++ drop (String.length "../../") (Clean path)).
      rewrite !Split_dotdot_sep. reflexivity.
Qed.

Definition basic_traversal : error :=
  Errorf "path traversal detected: contains '..' patterns".

(** X6.  The first check of [ValidatePathTraversal] is made on the path
    that [filepath.Clean] returns, so it reports a traversal exactly for a
    path whose normal form starts with two [..] elements, a relative path
    that climbs two levels or more above its start.  It never reports one
    for an absolute path, whose [..] elements [Clean] has resolved. *)
Theorem ValidatePathTraversal_basic_check (v : Validator) (path : string) :
  (ValidatePathTraversal v path = basic_traversal <->
   path <> "" /\
   (Clean path = "../.." \/ HasPrefix (Clean path) "../../" = true))
  /\ (IsAbs path = true -> ValidatePathTraversal v path <> basic_traversal).
Proof.
  assert (Hiff : ValidatePathTraversal v path = basic_traversal <->
                 path <> "" /\
                 (Clean path = "../.."
                  \/ HasPrefix (Clean path) "../../" = true)).
  { unfold ValidatePathTraversal, basic_traversal.
    destruct (String.eqb_spec path "") as [->|Hne].
    { split; [discriminate | intros [H _]; now elim H]. }
    pose proof (Clean_dotdot_part Hne) as Hc.
    destruct (Contains (Clean path) ".."
              && dotdot_part 0 (Split (Clean path) "/")).
    - split; [intros _; split; [assumption | now apply Hc] | reflexivity].
    - assert (Hno : ~ (Clean path = "../.."
                       \/ HasPrefix (Clean path) "../../" = true)).
      { intros H. apply Hc in H. discriminate. }
      split; [|intros [_ H]; contradiction].
      intros H. exfalso.
      destruct (find (Contains path) encodedDotDot); [discriminate|].
      destruct (find (Contains path) unicodeDotDot); [discriminate|].
      destruct (Contains path "//" && _); [discriminate|].
      destruct (Contains path (String "000" "")); discriminate. }
  split; [exact Hiff|].
  intros Habs H. apply Hiff in H as [Hne [H|H]].
  - unfold IsAbs in Habs. apply clean_rooted_Clean in Habs as [Hr _].
    rewrite H in Hr. discriminate.
  - unfold IsAbs in Habs. apply clean_rooted_Clean in Habs as [Hr _].
    apply HasPrefix_inv in H. rewrite H in Hr. discriminate.
Qed.

End TraversalCheck.

(** ** The symlink queue holds validated requests *)

Section QueueValidated.
Import Strings Filepath PathMapper Validator Symlink.

Variable os : OS.

(** What [QueueSymlink] has checked of a request that it queues. *)
Definition validated (v : Validator) (request : SymlinkRequest) : Prop :=
  ValidatePath v (Source request) = None
  /\ ValidatePath v (Target request) = None
  /\ forbidden v (Target request) = false
  /\ HasPrefix (Target request) (Source request) = false.

Definition queue_validated (v : Validator) (p : SymlinkProcessor) : Prop :=
  validator p = v /\ Forall (validated v) (symlinkQueue p).

Lemma QueueSymlink_validated (p : SymlinkProcessor) (w : World os)
    (request : SymlinkRequest) :
  (exists msg, QueueSymlink os p w request = (p, Some msg))
  \/ (validated (validator p) request
      /\ QueueSymlink os p w request
         = (set_queue p (symlinkQueue p ++ [request])%list, None)).
Proof.
  unfold QueueSymlink, ValidateSymlink, validated.
  destruct (ValidatePath (validator p) (Source request)); [left; eexists; reflexivity|].
  destruct (ValidatePath (validator p) (Target request)); [left; eexists; reflexivity|].
  destruct (forbidden (validator p) (Target request)); [left; eexists; reflexivity|].
  destruct (Lstat os w (Target request)); [left; eexists; reflexivity|].
  destruct (HasPrefix (Target request) (Source request)); [left; eexists; reflexivity|].
  destruct (existsb _ (symlinkQueue p)); [left; eexists; reflexivity|].
  right. repeat split.
Qed.

Lemma QueueSymlink_keeps (v : Validator) (p : SymlinkProcessor) (w : World os)
    (request : SymlinkRequest) :
  queue_validated v p -> queue_validated v (fst (QueueSymlink os p w request)).
Proof.
  intros [Hv Hq].
  destruct (QueueSymlink_validated p w request) as [[msg ->] | [Hr ->]];
    [now split|].
  split; [exact Hv|]. simpl. apply Forall_app. split; [exact Hq|].
  constructor; [now rewrite <- Hv | constructor].
Qed.

Lemma step_validated (v : Validator) (s s' : SymlinkProcessor * World os)
    (op : option Op) :
  step os s op s' -> queue_validated v (fst s) -> queue_validated v (fst s').
Proof.
  intros Hstep Hinv. destruct Hstep; simpl in *.
  - now apply QueueSymlink_keeps.
  - unfold ProcessPath.
    destruct (TransformPath (pathMapper p) originalPath)
      as [[transformed needsSymlink] [e|]]; [exact Hinv|].
    destruct needsSymlink; [|exact Hinv].
    now apply QueueSymlink_keeps.
  - destruct Hinv as [Hv _]. split.
    + unfold ProcessQueuedSymlinks.
      destruct (symlinkQueue p); [exact Hv|].
      destruct (process_queue os p w _ []) as [w' errs].
      now destruct (0 <? Z.of_nat (List.length errs))%Z.
    + rewrite ProcessQueuedSymlinks_queue. constructor.
  - exact Hinv.
  - exact Hinv.
Qed.

Lemma steps_validated (v : Validator) (s s' : SymlinkProcessor * World os)
    (ops : list (option Op)) :
  steps os s ops s' -> queue_validated v (fst s) -> queue_validated v (fst s').
Proof.
  induction 1 as [s | s op s' ops s'' Hstep _ IH]; intros Hinv.
  - exact Hinv.
  - apply IH. exact (step_validated Hstep Hinv).
Qed.

(** X7.  Starting from the empty queue of a new processor, after any
    sequence of calls of [QueueSymlink], [ProcessPath],
    [ProcessQueuedSymlinks] and [SetDryRun], whatever happens to the file
    system in between, the validator of the processor is the one it was
    made with and every queued request has passed its checks:
    [ValidatePath] accepts the source and the target, the target is not a
    forbidden path nor under one, and the source is not a prefix of the
    target. *)
Theorem symlink_queue_validated
    (p0 p : SymlinkProcessor) (w0 w : World os) (ops : list (option Op)) :
  symlinkQueue p0 = [] ->
  steps os (p0, w0) ops (p, w) ->
  validator p = validator p0
  /\ forall request, In request (symlinkQueue p) ->
       ValidatePath (validator p0) (Source request) = None
       /\ ValidatePath (validator p0) (Target request) = None
       /\ forbidden (validator p0) (Target request) = false
       /\ HasPrefix (Target request) (Source request) = false.
Proof.
  intros Hempty Hsteps.
  destruct (@steps_validated (validator p0) _ _ _ Hsteps) as [Hv Hq].
  { split; [reflexivity|]. simpl. rewrite Hempty. constructor. }
  split; [exact Hv|].
  intros request Hin. simpl in Hq.
  rewrite Forall_forall in Hq. exact (Hq request Hin).
Qed.

End QueueValidated.

Section QueueValidatedRuns.
Import Strings Filepath PathMapper Validator Symlink Builder.

Lemma symlink_queue_validated_witness :
  let p := fst (ProcessPath MemFS.os processor0 []
                  "/usr/share/applications/app.desktop" "") in
  validator p = validator processor0
  /\ forall request, In request (symlinkQueue p) ->
       ValidatePath (validator processor0) (Source request) = None
       /\ ValidatePath (validator processor0) (Target request) = None
       /\ forbidden (validator processor0) (Target request) = false
       /\ HasPrefix (Target request) (Source request) = false.
Proof.
  intros p.
  apply (@symlink_queue_validated MemFS.os processor0 p [] []
           [Some (OpProcessPath "/usr/share/applications/app.desktop" "")]).
  - reflexivity.
  - eapply steps_cons; [apply step_path | apply steps_nil].
Defined.

(** The queue of this run holds the request for the desktop file. *)
Example ProcessPath_queues_desktop_file :
  symlinkQueue (fst (ProcessPath MemFS.os processor0 []
                       "/usr/share/applications/app.desktop" ""))
  = [ {| Source := "/opt/usr/share/applications/app.desktop";
         Target := "/usr/share/applications/app.desktop";
         Description := "Automatically detected during build" |} ].
Proof. reflexivity. Qed.

End QueueValidatedRuns.

(** ** The script validator: what the result depends on *)

Section ValidateScriptLines.
Import Strings Filepath PathMapper Utf8 Regexp Bufio ScriptValidator.

(** The lines that the scanner hands to the loop: those before the first
    line that is too long. *)
Definition read_lines (content : string) : list string :=
  map dropCR
      (firstn_while (fun t => (len t <? MaxScanTokenSize)%Z)
                    (tokens (Split content "010"))).

Definition too_long : error :=
  Errorf "error scanning script: bufio.Scanner: token too long".

(** [ValidateScript] for a script that is not empty, from the delta of
    the lines read. *)
Lemma ValidateScript_lines sv scriptName content :
  TrimSpace content <> "" ->
  ValidateScript sv scriptName content =
  (d <- lines_delta sv 0 (read_lines content) ;;
   match ScanLines content with
   | None => Return (None, too_long)
   | Some _ =>
       Return (Some (finish sv (apply_delta d (start sv content))), None)
   end).
Proof.
  intros Hne. unfold ValidateScript.
  destruct (String.eqb_spec (TrimSpace content) ""); [contradiction|].
  fold (read_lines content). rewrite scan_lines_delta.
  fold (start sv content).
  now destruct (lines_delta sv 0 (read_lines content)).
Qed.

Lemma read_lines_all content lines :
  ScanLines content = Some lines -> read_lines content = lines.
Proof.
  unfold ScanLines, read_lines.
  destruct (forallb _ _) eqn:Hall; [|discriminate].
  intros [= <-]. now rewrite (firstn_while_all _ _ Hall).
Qed.

Lemma ValidateScript_empty sv scriptName content :
  TrimSpace content = "" ->
  ValidateScript sv scriptName content =
  Return (Some (set_warnings initial ["Script content is empty"]), None).
Proof.
  intros He. unfold ValidateScript. now rewrite He.
Qed.

(** The scan keeps [Valid] as it is. *)
Lemma apply_delta_fields d st :
  Valid (result (apply_delta d st)) = Valid (result st)
  /\ Warnings (result (apply_delta d st))
     = (Warnings (result st) ++ d_warnings d)%list
  /\ Errors (result (apply_delta d st))
     = (Errors (result st) ++ d_errors d)%list
  /\ RiskLevel (result (apply_delta d st))
     = add_risks (RiskLevel (result st)) (d_risks d).
Proof. repeat split. Qed.

Lemma start_fields sv content :
  Valid (result (start sv content)) = true
  /\ Errors (result (start sv content)) = []
  /\ RiskLevel (result (start sv content)) = 0%Z
  /\ (List.length (Warnings (result (start sv content))) <= 1)%nat.
Proof.
  unfold start. cbn [result].
  destruct (existsb _ _); cbn; repeat split; lia.
Qed.

End ValidateScriptLines.

Section ValidateScriptOrder.
Import Strings Filepath PathMapper Utf8 Regexp Bufio ScriptValidator.

(** Two results with the same verdict and the same findings, up to the
    order of the messages. *)
Definition same_findings (r r' : ScriptValidationResult) : Prop :=
  Valid r = Valid r' /\ RiskLevel r = RiskLevel r'
  /\ Permutation (Warnings r) (Warnings r')
  /\ Permutation (Errors r) (Errors r').

(** Two outcomes of [ValidateScript] of the same kind: two panics, the
    same error, or results with the same findings. *)
Definition same_outcome
    (x y : go (option ScriptValidationResult * error)) : Prop :=
  match x, y with
  | Return (Some r, e), Return (Some r', e') => e = e' /\ same_findings r r'
  | Return (None, e), Return (None, e') => e = e'
  | Panic _, Panic _ => True
  | _, _ => False
  end.

Lemma finish_same_findings sv sv' st d d' :
  securityLevel sv = securityLevel sv' ->
  d_equiv d d' ->
  same_findings (finish sv (apply_delta d st)) (finish sv' (apply_delta d' st)).
Proof.
  intros Hlevel Heq.
  destruct (@finish_equiv sv sv' st d d' Hlevel Heq) as (Hv & _ & _ & Hr).
  destruct Heq as (Hw & He & _ & _).
  repeat split; try assumption; cbn; now apply Permutation_app_head.
Qed.

(** X8.  The outcome of [ValidateScript] does not depend on the order in
    which the [range] loop visits the map of the dangerous commands: for
    two orders the two calls panic both, or return the same error both, or
    return results with the same verdict, the same risk and the same
    warnings and errors up to their order. *)
Theorem ValidateScript_order_independent
    (sv : ScriptValidator) (order : list (string * Z))
    (scriptName content : string) :
  Permutation (dangerousCommands sv) order ->
  same_outcome (ValidateScript sv scriptName content)
               (ValidateScript (with_commands sv order) scriptName content).
Proof.
  intros Hperm.
  destruct (String.eqb_spec (TrimSpace content) "") as [He|Hne].
  - rewrite !ValidateScript_empty by assumption. simpl.
    repeat split; apply Permutation_refl.
  - rewrite !ValidateScript_lines by assumption.
    pose proof (@lines_delta_perm sv order 0 (read_lines content) Hperm) as Heq.
    destruct (lines_delta sv 0 (read_lines content)) as [d|],
             (lines_delta (with_commands sv order) 0 (read_lines content))
               as [d'|]; simpl in Heq; try contradiction; cbn [bind];
      [|exact I].
    destruct (ScanLines content); simpl; [|reflexivity].
    split; [reflexivity|].
    change (start (with_commands sv order) content) with (start sv content).
    now apply finish_same_findings.
Qed.

End ValidateScriptOrder.

Section ValidateScriptLevel.
Import Strings Filepath PathMapper Utf8 Regexp Bufio ScriptValidator.

Lemma commands_delta_level sv level cs ln line :
  commands_delta (WithSecurityLevel level sv) cs ln line
  = commands_delta sv cs ln line.
Proof. induction cs as [|c cs IH]; simpl; [reflexivity | now rewrite IH]. Qed.

Lemma lines_delta_level sv level ln lines :
  lines_delta (WithSecurityLevel level sv) ln lines = lines_delta sv ln lines.
Proof.
  revert ln; induction lines as [|line lines IH]; intros ln; simpl;
    [reflexivity|].
  rewrite IH. unfold line_delta.
  change (dangerousPatterns (WithSecurityLevel level sv))
    with (dangerousPatterns sv).
  change (dangerousCommands (WithSecurityLevel level sv))
    with (dangerousCommands sv).
  change (pathMapper (WithSecurityLevel level sv)) with (pathMapper sv).
  now rewrite commands_delta_level.
Qed.

(** The findings of a script at a level, from those at any other. *)
Lemma ValidateScript_at_level sv level scriptName content r :
  ValidateScript sv scriptName content = Return (Some r, None) ->
  exists r',
    ValidateScript (WithSecurityLevel level sv) scriptName content
    = Return (Some r', None)
    /\ Warnings r' = Warnings r /\ Errors r' = Errors r
    /\ RiskLevel r' = RiskLevel r
    /\ Valid r' = (String.eqb (TrimSpace content) "" || verdict level r).
Proof.
  destruct (String.eqb_spec (TrimSpace content) "") as [He|Hne].
  - rewrite !ValidateScript_empty by assumption. intros [= <-].
    eexists. repeat split.
  - rewrite !ValidateScript_lines by assumption.
    rewrite lines_delta_level.
    destruct (lines_delta sv 0 (read_lines content)) as [d|]; cbn [bind];
      [|discriminate].
    destruct (ScanLines content); [|discriminate].
    intros [= <-]. eexists. split; [reflexivity|].
    change (start (WithSecurityLevel level sv) content)
      with (start sv content).
    destruct (start_fields sv content) as (Hv & _).
    unfold finish. cbn [Valid Warnings Errors RiskLevel orb].
    repeat split.
    cbn [apply_delta result Valid]. rewrite Hv.
    unfold verdict. cbn [Warnings Errors RiskLevel]. reflexivity.
Qed.

Lemma verdict_monotone r :
  (verdict SecurityLevelHigh r = true -> verdict SecurityLevelMedium r = true)
  /\ (verdict SecurityLevelMedium r = true -> verdict SecurityLevelLow r = true).
Proof.
  rewrite verdict_high, verdict_medium, verdict_low.
  rewrite !negb_true_iff, !orb_false_iff, !Z.ltb_ge. lia.
Qed.

(** X9.  The findings of a script do not depend on the security level, and
    the levels are ordered: a script that [ValidateScript] accepts at the
    level High is accepted at Medium, and one accepted at Medium is
    accepted at Low, with the same warnings, errors and risk. *)
Theorem ValidateScript_level_monotone
    (sv : ScriptValidator) (scriptName content : string)
    (rh : ScriptValidationResult) :
  ValidateScript (WithSecurityLevel SecurityLevelHigh sv) scriptName content
  = Return (Some rh, None) ->
  exists rm rl,
    ValidateScript (WithSecurityLevel SecurityLevelMedium sv) scriptName content
    = Return (Some rm, None)
    /\ ValidateScript (WithSecurityLevel SecurityLevelLow sv) scriptName content
       = Return (Some rl, None)
    /\ (Warnings rm = Warnings rh /\ Errors rm = Errors rh
        /\ RiskLevel rm = RiskLevel rh)
    /\ (Warnings rl = Warnings rh /\ Errors rl = Errors rh
        /\ RiskLevel rl = RiskLevel rh)
    /\ (Valid rh = true -> Valid rm = true)
    /\ (Valid rm = true -> Valid rl = true).
Proof.
  intros Hh.
  destruct (ValidateScript_at_level _ SecurityLevelHigh _ _ Hh)
    as (rh' & Hh' & _ & _ & _ & Hvh).
  change (WithSecurityLevel SecurityLevelHigh
            (WithSecurityLevel SecurityLevelHigh sv))
    with (WithSecurityLevel SecurityLevelHigh sv) in Hh'.
  rewrite Hh in Hh'. injection Hh' as <-.
  destruct (ValidateScript_at_level _ SecurityLevelMedium _ _ Hh)
    as (rm & Hm & Hw & He & Hr & Hvm).
  destruct (ValidateScript_at_level _ SecurityLevelLow _ _ Hh)
    as (rl & Hl & Hw' & He' & Hr' & Hvl).
  exists rm, rl.
  change (WithSecurityLevel SecurityLevelMedium
            (WithSecurityLevel SecurityLevelHigh sv))
    with (WithSecurityLevel SecurityLevelMedium sv) in Hm.
  change (WithSecurityLevel SecurityLevelLow
            (WithSecurityLevel SecurityLevelHigh sv))
    with (WithSecurityLevel SecurityLevelLow sv) in Hl.
  repeat split; try assumption.
  - rewrite Hvh, Hvm. destruct (String.eqb _ _); [reflexivity|]. simpl.
    apply verdict_monotone.
  - rewrite Hvm, Hvl. destruct (String.eqb _ _); [reflexivity|]. simpl.
    apply verdict_monotone.
Qed.

(** X10.  The verdict is a [switch] on the three levels with no default
    case: at a level that is none of Low, Medium and High every result
    that [ValidateScript] returns is valid, whatever its errors and its
    risk. *)
Theorem ValidateScript_unknown_level_accepts
    (sv : ScriptValidator) (scriptName content : string)
    (r : ScriptValidationResult) :
  securityLevel sv <> SecurityLevelLow ->
  securityLevel sv <> SecurityLevelMedium ->
  securityLevel sv <> SecurityLevelHigh ->
  ValidateScript sv scriptName content = Return (Some r, None) ->
  Valid r = true.
Proof.
  intros Hl Hm Hh Hret.
  destruct (ValidateScript_inv _ _ _ Hret)
    as [[He ->] | [Hne (st & Hvalid & ->)]]; [reflexivity|].
  destruct (finish_valid sv st Hvalid) as (-> & _).
  unfold verdict.
  destruct (Z.eqb_spec (securityLevel sv) SecurityLevelLow); [contradiction|].
  destruct (Z.eqb_spec (securityLevel sv) SecurityLevelMedium);
    [contradiction|].
  destruct (Z.eqb_spec (securityLevel sv) SecurityLevelHigh);
    [contradiction | reflexivity].
Qed.

End ValidateScriptLevel.

Section ValidateScriptFindings.
Import Strings Filepath PathMapper Utf8 Regexp Bufio ScriptValidator.




(** *** Where the errors come from *)

(** An error of the scan: a protected path that a line holds. *)
Definition protected_finding (sv : ScriptValidator) (lines : list string)
    (err : string) : Prop :=
  exists lineNumber line path,
    In line lines /\ In path (protectedPaths sv)
    /\ Contains line path = true
    /\ err = line_prefix lineNumber
               ++ "Command operates on protected path: " ++ path.

Lemma protected_delta_errors paths ln risk line err :
  In err (d_errors (protected_delta paths ln risk line)) ->
  exists path, In path paths /\ Contains line path = true
    /\ err = line_prefix ln ++ "Command operates on protected path: " ++ path.
Proof.
  induction paths as [|path paths IH]; simpl; [contradiction|].
  rewrite in_app_iff. intros [H|H].
  - destruct (Contains line path) eqn:Hc; simpl in H; [|contradiction].
    destruct H as [<-|[]]. exists path. auto.
  - destruct (IH H) as (p & Hin & Hc & He). exists p. auto.
Qed.

Lemma patterns_delta_errors patterns ln line d :
  patterns_delta patterns ln line = Return d -> d_errors d = [].
Proof.
  revert d; induction patterns as [|pattern patterns IH]; intros d; simpl.
  - now intros [= <-].
  - destruct (MustCompile pattern) as [re|]; cbn [bind]; [|discriminate].
    destruct (patterns_delta patterns ln line) as [d'|]; cbn [bind];
      [|discriminate].
    intros [= <-]. simpl. rewrite (IH d' eq_refl).
    now destruct (MatchString re line).
Qed.

Lemma commands_delta_errors sv commands ln line d err :
  commands_delta sv commands ln line = Return d ->
  In err (d_errors d) ->
  exists path, In path (protectedPaths sv) /\ Contains line path = true
    /\ err = line_prefix ln ++ "Command operates on protected path: " ++ path.
Proof.
  revert d; induction commands as [|c commands IH]; intros d; simpl.
  - intros [= <-] [].
  - unfold command_delta.
    destruct (MustCompile _) as [re|]; cbn [bind]; [|discriminate].
    destruct (commands_delta sv commands ln line) as [d'|]; cbn [bind];
      [|discriminate].
    intros [= <-]. simpl. rewrite in_app_iff. intros [H|H].
    + destruct (MatchString re line); [|contradiction].
      simpl in H. now apply protected_delta_errors in H.
    + now apply (IH d').
Qed.

Lemma paths_delta_errors pm paths ln : d_errors (paths_delta pm paths ln) = [].
Proof.
  induction paths as [|path paths IH]; simpl; [reflexivity|].
  rewrite IH, app_nil_r. unfold path_delta.
  destruct (_ || _); [reflexivity|].
  destruct (TransformPath pm path) as [[t needs] [e|]]; [reflexivity|].
  now destruct needs.
Qed.

Lemma line_delta_errors sv ln line d err :
  line_delta sv ln line = Return d ->
  In err (d_errors d) ->
  exists path, In path (protectedPaths sv) /\ Contains line path = true
    /\ err = line_prefix ln ++ "Command operates on protected path: " ++ path.
Proof.
  unfold line_delta. destruct (skipped line); [intros [= <-] []|].
  destruct (patterns_delta _ ln line) as [d1|] eqn:H1; cbn [bind];
    [|discriminate].
  destruct (commands_delta sv _ ln line) as [d2|] eqn:H2; cbn [bind];
    [|discriminate].
  pose proof (patterns_delta_errors _ _ _ H1) as He1.
  destruct (pathMapper sv) as [pm|].
  - destruct (extractPaths line) as [paths|]; cbn [bind]; [|discriminate].
    intros [= <-]. simpl.
    rewrite He1, paths_delta_errors, app_nil_r. simpl.
    intros Hin. eapply commands_delta_errors; eassumption.
  - intros [= <-]. simpl. rewrite He1. simpl.
    intros Hin. eapply commands_delta_errors; eassumption.
Qed.

Lemma lines_delta_errors sv ln lines d err :
  lines_delta sv ln lines = Return d ->
  In err (d_errors d) -> protected_finding sv lines err.
Proof.
  revert ln d; induction lines as [|line lines IH]; intros ln d; simpl.
  - intros [= <-] [].
  - destruct (line_delta sv _ line) as [d1|] eqn:H1; cbn [bind];
      [|discriminate].
    destruct (lines_delta sv _ lines) as [d2|] eqn:H2; cbn [bind];
      [|discriminate].
    intros [= <-]. simpl. rewrite in_app_iff. intros [H|H].
    + destruct (@line_delta_errors _ _ _ _ _ H1 H) as (path & Hin & Hc & He).
      exists (wrap64 (ln + 1)), line, path. repeat split; auto. now left.
    + destruct (IH _ _ H2 H) as (n & l & p & Hl & Hp & Hc & He).
      exists n, l, p. repeat split; auto. now right.
Qed.

(** X12.  Every error of a result of [ValidateScript] is the finding of a
    protected path on a line that holds this path; a script none of whose
    lines holds a protected path as a substring has no error, whatever
    its commands. *)
Theorem ValidateScript_errors_are_protected_paths
    (sv : ScriptValidator) (scriptName content : string)
    (lines : list string) (r : ScriptValidationResult) :
  ScanLines content = Some lines ->
  ValidateScript sv scriptName content = Return (Some r, None) ->
  (forall err, In err (Errors r) ->
     exists lineNumber line path,
       In line lines /\ In path (protectedPaths sv)
       /\ Contains line path = true
       /\ err = line_prefix lineNumber
                  ++ "Command operates on protected path: " ++ path)
  /\ ((forall line path, In line lines -> In path (protectedPaths sv) ->
         Contains line path = false) ->
      Errors r = []).
Proof.
  intros Hscan Hret.
  assert (Hall : forall err, In err (Errors r) -> protected_finding sv lines err).
  { destruct (String.eqb_spec (TrimSpace content) "") as [He|Hne].
    - rewrite ValidateScript_empty in Hret by assumption.
      injection Hret as <-. intros err [].
    - rewrite (@ValidateScript_lines sv scriptName content Hne) in Hret.
      rewrite (read_lines_all _ Hscan), Hscan in Hret.
      destruct (lines_delta sv 0 lines) as [d|] eqn:Hd; cbn [bind] in Hret;
        [|discriminate].
      injection Hret as <-. intros err.
      destruct (start_fields sv content) as (_ & He & _).
      unfold finish. cbn [Errors apply_delta result]. rewrite He. simpl.
      now apply (@lines_delta_errors _ _ _ _ _ Hd). }
  split; [exact Hall|].
  intros Hno. destruct (Errors r) as [|err errs]; [reflexivity|].
  destruct (Hall err (or_introl eq_refl)) as (n & l & p & Hl & Hp & Hc & _).
  rewrite (Hno l p Hl Hp) in Hc. discriminate.
Qed.

(** *** A pattern that does not compile *)





End ValidateScriptFindings.

Section ValidateScriptTooLong.
Import Strings Filepath PathMapper Utf8 Regexp Bufio ScriptValidator.

Lemma ScanLines_too_long content line :
  In line (tokens (Split content "010")) ->
  (MaxScanTokenSize <= len line)%Z ->
  ScanLines content = None.
Proof.
  intros Hin Hlen. unfold ScanLines.
  destruct (forallb _ _) eqn:Hall; [|reflexivity].
  rewrite forallb_forall in Hall. specialize (Hall line Hin).
  apply Z.ltb_lt in Hall. lia.
Qed.

(** X14.  The scanner reads lines of less than 65536 bytes: for a script
    that is not empty and holds a longer line, [ValidateScript] returns no
    result and the error of the scanner, whatever the lines before it
    hold, when the patterns of the validator compile. *)
Theorem ValidateScript_line_too_long
    (sv : ScriptValidator) (scriptName content line : string) :
  patterns_compile sv = true ->
  TrimSpace content <> "" ->
  In line (tokens (Split content "010")) ->
  (65536 <= len line)%Z ->
  ValidateScript sv scriptName content =
  Return (None, Errorf "error scanning script: bufio.Scanner: token too long").
Proof.
  intros Hc Hne Hin Hlen.
  rewrite (@ValidateScript_lines sv scriptName content Hne).
  destruct (lines_delta_returns sv 0 (read_lines content) Hc) as [d ->].
  cbn [bind]. now rewrite (@ScanLines_too_long content line Hin Hlen).
Qed.

End ValidateScriptTooLong.

Section ValidateScriptRuns.
Import Strings Filepath PathMapper Utf8 Regexp Bufio ScriptValidator.

Lemma ValidateScript_order_independent_witness :
  same_outcome
    (ValidateScript medium "postinst" scenario1_script)
    (ValidateScript (with_commands medium (rev defaultDangerousCommands))
                    "postinst" scenario1_script).
Proof.
  apply (@ValidateScript_order_independent medium
           (rev defaultDangerousCommands) "postinst" scenario1_script).
  apply Permutation_rev.
Defined.

(** A script that echoes a greeting. *)
Definition greeting_script : string :=
  "#!/bin/sh" ++ String "010" "echo hello" ++ String "010" "".

Definition no_findings : ScriptValidationResult := {|
  Valid := true;
  Warnings := [];
  Errors := [];
  RiskLevel := 0;
  DetailedInfo := [("path_modifications", [])]
|}.

Lemma ValidateScript_level_monotone_witness :
  exists rm rl,
    ValidateScript (WithSecurityLevel SecurityLevelMedium NewScriptValidator)
                   "postinst" greeting_script
    = Return (Some rm, None)
    /\ ValidateScript (WithSecurityLevel SecurityLevelLow NewScriptValidator)
                      "postinst" greeting_script
       = Return (Some rl, None)
    /\ (Warnings rm = Warnings no_findings /\ Errors rm = Errors no_findings
        /\ RiskLevel rm = RiskLevel no_findings)
    /\ (Warnings rl = Warnings no_findings /\ Errors rl = Errors no_findings
        /\ RiskLevel rl = RiskLevel no_findings)
    /\ (Valid no_findings = true -> Valid rm = true)
    /\ (Valid rm = true -> Valid rl = true).
Proof.
  apply (@ValidateScript_level_monotone NewScriptValidator "postinst"
           greeting_script no_findings).
  vm_compute. reflexivity.
Defined.

(** The script of the first scenario at a level that is none of the
    three: it is accepted with its error. *)
Lemma ValidateScript_unknown_level_accepts_witness :
  exists r,
    ValidateScript (WithSecurityLevel 7 NewScriptValidator)
                   "postinst" scenario1_script
    = Return (Some r, None)
    /\ Errors r = ["Line 3: Command operates on protected path: /etc/passwd"]
    /\ Valid r = true.
Proof.
  eexists. split; [vm_compute; reflexivity|].
  split; [reflexivity|].
  apply (@ValidateScript_unknown_level_accepts
           (WithSecurityLevel 7 NewScriptValidator) "postinst"
           scenario1_script);
    [discriminate | discriminate | discriminate |].
  vm_compute. reflexivity.
Defined.



Lemma ValidateScript_errors_are_protected_paths_witness :
  exists r,
    ValidateScript medium "postinst" scenario1_script = Return (Some r, None)
    /\ (forall err, In err (Errors r) ->
          exists lineNumber line path,
            In line ["#!/bin/sh"; "rm -rf /etc/important";
                     "chmod 777 /etc/passwd"]
            /\ In path (protectedPaths medium)
            /\ Contains line path = true
            /\ err = line_prefix lineNumber
                       ++ "Command operates on protected path: " ++ path).
Proof.
  eexists. split; [vm_compute; reflexivity|].
  apply (@ValidateScript_errors_are_protected_paths medium "postinst"
           scenario1_script
           ["#!/bin/sh"; "rm -rf /etc/important"; "chmod 777 /etc/passwd"]);
    [reflexivity | vm_compute; reflexivity].
Defined.


(** [s] written [2^k] times. *)
Fixpoint doubled (k : nat) (s : string) : string :=
  match k with
  | O => s
  | S k' => doubled k' (s ++ s)
  end.

Lemma length_doubled (k : nat) (s : string) :
  String.length (doubled k s) = 2 ^ k * String.length s.
Proof.
  revert s; induction k as [|k IH]; intros s; simpl; [lia|].
  rewrite IH, length_append. lia.
Qed.

Lemma nonl_append (a b : string) :
  nonl a = true -> nonl b = true -> nonl (a ++ b) = true.
Proof.
  induction a as [|c a IH]; simpl; [auto|].
  intros H Hb. apply andb_true_iff in H as [-> Ha]. simpl. auto.
Qed.

Lemma nonl_doubled (k : nat) (s : string) :
  nonl s = true -> nonl (doubled k s) = true.
Proof.
  revert s; induction k as [|k IH]; intros s H; simpl; [exact H|].
  apply IH. now apply nonl_append.
Qed.

Lemma Split_nonl (s : string) : nonl s = true -> Split s "010" = [s].
Proof.
  induction s as [|c s IH]; simpl; [reflexivity|].
  intros H. apply andb_true_iff in H as [Hc Hs].
  apply negb_true_iff in Hc. rewrite Hc, (IH Hs). reflexivity.
Qed.

(** A line of 65536 bytes. *)
Definition long_line : string := doubled 16 "a".

Definition long_script : string :=
  "#!/bin/sh" ++ String "010" long_line.

Lemma len_long_line : len long_line = 65536%Z.
Proof.
  unfold len, long_line. rewrite length_doubled.
  rewrite Nat2Z.inj_mul, Nat2Z.inj_pow. reflexivity.
Qed.

Lemma tokens_long_script :
  tokens (Split long_script "010") = ["#!/bin/sh"; long_line].
Proof.
  unfold long_script.
  rewrite (@Split_line "#!/bin/sh" long_line eq_refl).
  rewrite Split_nonl by (apply nonl_doubled; reflexivity).
  cbn [tokens].
  destruct (String.eqb_spec long_line "") as [H|_]; [|reflexivity].
  pose proof len_long_line as Hl. rewrite H in Hl. discriminate.
Qed.

Lemma ValidateScript_line_too_long_witness :
  ValidateScript NewScriptValidator "postinst" long_script =
  Return (None, Errorf "error scanning script: bufio.Scanner: token too long").
Proof.
  apply (@ValidateScript_line_too_long NewScriptValidator "postinst"
           long_script long_line).
  - exact default_patterns_compile.
  - exact (@TrimSpace_hash ("!/bin/sh" ++ String "010" long_line)).
  - rewrite tokens_long_script. right. left. reflexivity.
  - rewrite len_long_line. discriminate.
Defined.

End ValidateScriptRuns.

(** ** The maintainer scripts of the builder *)

Section MaintainerScripts.
Import Strings Filepath PathMapper Utf8 Regexp Bufio ScriptValidator.
Import Symlink Builder BuildCommand.

Definition script_names : list string :=
  ["preinst"; "postinst"; "prerm"; "postrm"].

Lemma script_name_spec (scriptName : string) :
  existsb (String.eqb scriptName) script_names = true <->
  In scriptName script_names.
Proof.
  rewrite existsb_exists. split.
  - intros (x & Hin & Heq). apply String.eqb_eq in Heq. now subst.
  - intros Hin. exists scriptName. split; [assumption | apply String.eqb_refl].
Qed.

(** The validator of [SetMaintainerScript] returns for every script. *)
Lemma script_validator_returns (b : Builder) (scriptName content : string) :
  ValidateScript (script_validator b) scriptName content
  = Return (None, too_long)
  \/ exists r,
       ValidateScript (script_validator b) scriptName content
       = Return (Some r, None)
       /\ (Valid r = true -> Errors r = [] /\ (RiskLevel r <= 6)%Z).
Proof.
  destruct (String.eqb_spec (TrimSpace content) "") as [He|Hne].
  - right. rewrite ValidateScript_empty by assumption.
    eexists. split; [reflexivity|]. intros _. split; [reflexivity|].
    simpl. lia.
  - rewrite (@ValidateScript_lines _ scriptName content Hne).
    destruct (lines_delta_returns (script_validator b) 0 (read_lines content)
                (script_validator_compiles b)) as [d ->].
    cbn [bind]. destruct (ScanLines content); [|now left].
    right. eexists. split; [reflexivity|].
    destruct (start_fields (script_validator b) content) as (Hv & _).
    set (st := apply_delta d (start (script_validator b) content)).
    destruct (finish_valid (script_validator b) st Hv) as (-> & -> & _ & ->).
    change (securityLevel (script_validator b)) with SecurityLevelMedium.
    rewrite verdict_medium, negb_true_iff, orb_false_iff, !Z.ltb_ge.
    intros [He Hr]. split; [|exact Hr].
    destruct (Errors (result st)); [reflexivity | simpl in He; lia].
Qed.

(** X15.  [SetMaintainerScript] never panics, whatever the script.  It
    either returns an error and leaves the builder as it was, or stores
    the script under its name; it stores a script only under one of the
    four names of maintainer scripts and only when [ValidateScript], at
    the level Medium and with the path mapper of the builder, returns a
    valid result, which then has no error and a risk of 6 at most. *)
Theorem SetMaintainerScript_outcome
    (b : Builder) (scriptName content : string) :
  (exists msg, SetMaintainerScript b scriptName content = Return (b, Some msg))
  \/ (SetMaintainerScript b scriptName content
      = Return (set_script b scriptName content, None)
      /\ In scriptName ["preinst"; "postinst"; "prerm"; "postrm"]
      /\ exists r,
           ValidateScript (script_validator b) scriptName content
           = Return (Some r, None)
           /\ Valid r = true /\ Errors r = [] /\ (RiskLevel r <= 6)%Z).
Proof.
  unfold SetMaintainerScript.
  destruct (existsb (String.eqb scriptName) _) eqn:Hname; cbn [negb];
    [|left; eexists; reflexivity].
  apply script_name_spec in Hname.
  fold (script_validator b).
  destruct (script_validator_returns b scriptName content)
    as [-> | (r & -> & Hr)]; cbn [bind].
  - left. eexists. reflexivity.
  - destruct (Valid r) eqn:Hv; cbn [negb].
    + right. split; [reflexivity|]. split; [exact Hname|].
      exists r. destruct (Hr eq_refl). repeat split; assumption.
    + left. eexists. reflexivity.
Qed.

(** *** The script that the build command loads *)

Variable ReadFile : string -> string * error.

(** X16.  [loadMaintainerScript] names a script by the start of the base
    name of its file: when it returns no error the name is one of the
    four names of maintainer scripts and a prefix of the base name, the
    content is that of the file, and [SetMaintainerScript] does not
    refuse the name. *)
Theorem loadMaintainerScript_name_accepted
    (b : Builder) (path content scriptName : string) :
  loadMaintainerScript ReadFile path = (content, scriptName, None) ->
  In scriptName ["preinst"; "postinst"; "prerm"; "postrm"]
  /\ HasPrefix (Base path) scriptName = true
  /\ ReadFile path = (content, None)
  /\ SetMaintainerScript b scriptName content
     <> Return (b, Errorf ("invalid maintainer script name: " ++ scriptName)).
Proof.
  unfold loadMaintainerScript.
  destruct (ReadFile path) as [c [err|]]; [discriminate|].
  assert (Hgoal : forall name,
             In name script_names -> HasPrefix (Base path) name = true ->
             In name script_names /\ HasPrefix (Base path) name = true
             /\ (c, @None string) = (c, None)
             /\ SetMaintainerScript b name c
                <> Return (b, Errorf ("invalid maintainer script name: " ++ name))).
  { intros name Hin Hp. repeat split; try assumption.
    unfold SetMaintainerScript.
    apply script_name_spec in Hin. unfold script_names in Hin.
    rewrite Hin. cbn [negb]. fold (script_validator b).
    destruct (script_validator_returns b name c) as [-> | (r & -> & _)];
      cbn [bind]; [discriminate|].
    destruct (Valid r); cbn [negb]; discriminate. }
  destruct (HasPrefix (Base path) "preinst") eqn:H1.
  { intros [= <- <-]. apply Hgoal; [simpl; tauto | exact H1]. }
  destruct (HasPrefix (Base path) "postinst") eqn:H2.
  { intros [= <- <-]. apply Hgoal; [simpl; tauto | exact H2]. }
  destruct (HasPrefix (Base path) "prerm") eqn:H3.
  { intros [= <- <-]. apply Hgoal; [simpl; tauto | exact H3]. }
  destruct (HasPrefix (Base path) "postrm") eqn:H4.
  { intros [= <- <-]. apply Hgoal; [simpl; tauto | exact H4]. }
  discriminate.
Qed.

End MaintainerScripts.

Section MaintainerScriptRuns.
Import Strings Filepath PathMapper ScriptValidator Builder BuildCommand.

(** A directory with one script. *)
Definition script_files (path : string) : string * error :=
  if String.eqb path "/work/debian/postinst.sh"
  then (greeting_script, None)
  else ("", Errorf ("open " ++ path ++ ": no such file or directory")).

Lemma loadMaintainerScript_name_accepted_witness :
  In "postinst" ["preinst"; "postinst"; "prerm"; "postrm"]
  /\ HasPrefix (Base "/work/debian/postinst.sh") "postinst" = true
  /\ script_files "/work/debian/postinst.sh" = (greeting_script, None)
  /\ SetMaintainerScript builder0 "postinst" greeting_script
     <> Return (builder0,
                Errorf ("invalid maintainer script name: " ++ "postinst")).
Proof.
  apply (@loadMaintainerScript_name_accepted script_files builder0
           "/work/debian/postinst.sh" greeting_script "postinst").
  reflexivity.
Defined.

(** The script is stored. *)
Example SetMaintainerScript_stores_greeting :
  SetMaintainerScript builder0 "postinst" greeting_script
  = Return (set_script builder0 "postinst" greeting_script, None).
Proof. vm_compute. reflexivity. Qed.

End MaintainerScriptRuns.

(** ** The walk stays in the build directory *)

Section JoinFacts.
Import Strings Filepath.

Lemma Split_app_any (a b : string) :
  Split (a ++ "/" ++ b) "/" = (Split a "/" ++ Split b "/")%list.
Proof.
  induction a as [|c a IH]; [reflexivity|].
  cbn [append Split]. simpl in IH. rewrite IH.
  destruct (Ascii.eqb c "/"); [reflexivity|].
  pose proof (@Split_nonempty a "/") as Hne.
  destruct (Split a "/") as [|h t]; [congruence | reflexivity].
Qed.

Lemma Split_head_prefix (s h : string) (t : list string) :
  Split s "/" = h :: t -> HasPrefix s h = true.
Proof.
  revert h t; induction s as [|c s IH]; intros h t; simpl.
  - intros [= <- <-]. reflexivity.
  - destruct (Ascii.eqb c "/").
    + intros [= <- <-]. reflexivity.
    + destruct (Split s "/") as [|h' t'] eqn:Hs.
      * intros [= <- <-]. simpl. rewrite Ascii.eqb_refl.
        apply HasPrefix_empty.
      * intros [= <- <-]. simpl. rewrite Ascii.eqb_refl. simpl.
        now apply (IH h' t').
Qed.

(** An element of a path is a part of its text. *)
Lemma Contains_element (s e : string) :
  In e (Split s "/") -> Contains s e = true.
Proof.
  induction s as [|c s IH]; simpl.
  - intros [<-|[]]. reflexivity.
  - destruct (Ascii.eqb c "/") eqn:Hc.
    + intros [<-|Hin]; [reflexivity|].
      rewrite (IH Hin). apply orb_true_r.
    + destruct (Split s "/") as [|h t] eqn:Hs.
      * intros [<-|[]]. simpl. rewrite Ascii.eqb_refl, HasPrefix_empty.
        reflexivity.
      * intros [<-|Hin].
        -- simpl. rewrite Ascii.eqb_refl.
           rewrite (@Split_head_prefix s h t Hs). reflexivity.
        -- rewrite IH by now right. apply orb_true_r.
Qed.

(** The loop of [Clean] over elements none of which is [..] only adds to
    the output buffer. *)
Lemma fold_clean_grows (segs out : list string) :
  Forall (fun e => nosep e = true) segs ->
  ~ In ".." segs ->
  exists kept,
    fold_left (clean_step true) segs out = (kept ++ out)%list
    /\ Forall real kept.
Proof.
  revert out; induction segs as [|e segs IH]; intros out Hns Hdd.
  - exists []. split; [reflexivity | constructor].
  - inversion Hns as [|? ? He Hns']; subst.
    assert (Hdd' : ~ In ".." segs) by (intros H; apply Hdd; now right).
    assert (Hne : e <> "..") by (intros ->; apply Hdd; now left).
    cbn [fold_left]. unfold clean_step at 2.
    destruct (String.eqb_spec e ""); [now apply IH|].
    destruct (String.eqb_spec e "."); [now apply IH|].
    destruct (String.eqb_spec e ".."); [contradiction|].
    destruct (IH (e :: out) Hns' Hdd') as (kept & Hk & Hr).
    exists (kept ++ [e])%list. split.
    + rewrite Hk, <- app_assoc. reflexivity.
    + apply Forall_app. split; [assumption|].
      constructor; [|constructor]. repeat split; assumption.
Qed.

Lemma fold_clean_render (out : list string) :
  Forall real out ->
  fold_left (clean_step true) (Split (render true out) "/") [] = out.
Proof.
  intros Hr. unfold render.
  change (Split ("/" ++ Join (rev out) "/") "/")
    with ("" :: Split (Join (rev out) "/") "/").
  cbn [fold_left]. change (clean_step true [] "") with (@nil string).
  destruct out as [|e out]; [reflexivity|].
  rewrite Split_Join.
  - apply fold_clean_rev. now apply wf_out_true_real.
  - intros H. apply (f_equal (@List.length string)) in H.
    rewrite length_rev in H. discriminate.
  - apply Forall_rev. apply (@wf_out_nosep true).
    now apply wf_out_true_real.
Qed.

(** [filepath.Join] of a normalized rooted directory and a path with no
    [..] element: the directory or a path under it. *)
Lemma Join2_under (dir path : string) :
  clean_rooted dir -> dir <> "/" ->
  ~ In ".." (Split path "/") ->
  Join2 dir path = dir \/ HasPrefix (Join2 dir path) (dir ++ "/") = true.
Proof.
  intros Hdir Hnr Hdd.
  destruct (clean_rooted_shape Hdir) as (od & Hod & Heq & Hne).
  specialize (Hne Hnr). subst dir.
  unfold Join2.
  destruct (String.eqb_spec (render true od) "") as [He|_];
    [discriminate|].
  assert (Hnonempty : render true od ++ "/" ++ path <> "") by discriminate.
  rewrite (Clean_unfold Hnonempty).
  assert (Hroot : HasPrefix (render true od ++ "/" ++ path) "/" = true)
    by apply (HasPrefix_app "/").
  rewrite Hroot. unfold Separator. rewrite Split_app_any, fold_left_app.
  rewrite (fold_clean_render Hod).
  destruct (@fold_clean_grows (Split path "/") od (Split_all_nosep path) Hdd)
    as (kept & -> & Hkept).
  destruct kept as [|k kept]; [now left|].
  right.
  assert (E : render true ((k :: kept) ++ od)
              = render true od ++ render true (k :: kept)).
  { symmetry. apply render_app; [assumption | discriminate]. }
  rewrite E.
  assert (Hk : exists rest, render true (k :: kept) = "/" ++ rest)
    by (eexists; reflexivity).
  destruct Hk as [rest ->]. rewrite <- append_assoc.
  apply HasPrefix_app.
Qed.

End JoinFacts.

Section WalkTarget.
Import Strings Filepath PathMapper Validator Symlink Builder.

Variable os : OS.

(** A path that [ValidatePath] accepts under a policy that disallows
    [..] has no [..] element. *)
Lemma ValidatePath_no_dotdot (v : Validator) (path : string) :
  DisallowDotDot (policy v) = true ->
  ValidatePath v path = None ->
  ~ In ".." (Split path "/").
Proof.
  intros Hpol Hok Hin.
  apply ValidatePath_None in Hok as (Hne & Habs & _ & [Hc|[Hd|Hd]] & _).
  - unfold IsAbs in Habs.
    destruct (Clean_rooted _ Habs) as (out & Hreal & Heq).
    rewrite Hc in Heq. rewrite Heq in Hin. unfold render in Hin.
    change (Split ("/" ++ Join (rev out) "/") "/")
      with ("" :: Split (Join (rev out) "/") "/") in Hin.
    destruct Hin as [Hin|Hin]; [discriminate|].
    destruct out as [|e out].
    + simpl in Hin. destruct Hin as [Hin|[]]. discriminate.
    + rewrite Split_Join in Hin.
      * apply in_rev in Hin. rewrite Forall_forall in Hreal.
        destruct (Hreal _ Hin) as (_ & _ & _ & H). now apply H.
      * intros H. apply (f_equal (@List.length string)) in H.
        rewrite length_rev in H. discriminate.
      * apply Forall_rev. apply (@wf_out_nosep true).
        now apply wf_out_true_real.
  - congruence.
  - apply Contains_element in Hin. congruence.
Qed.

(** X17.  The function of the walk of [copyFiles] writes in the build
    directory only: for a build directory that is a normalized absolute
    path other than the root, and a policy that disallows [..], a call
    either leaves the file system as it was or makes the entry, by the
    calls of the end of the function, at a target that is the build
    directory or a path under it. *)
Theorem walkFn_stays_in_build_dir
    (b b' : Builder) (w w' : World os) (e : WalkEntry) (err : error) :
  HasPrefix (BuildDir b) "/" = true ->
  Clean (BuildDir b) = BuildDir b ->
  BuildDir b <> "/" ->
  DisallowDotDot (policy (PathValidator b)) = true ->
  walkFn os b w e = (b', w', err) ->
  w' = w
  \/ exists targetPath,
       (targetPath = BuildDir b
        \/ HasPrefix targetPath (BuildDir b ++ "/") = true)
       /\ copy_entry os b' w e targetPath = (w', err).
Proof.
  intros Hroot Hclean Hnr Hpol. unfold walkFn.
  destruct (walkErr e); [intros [= <- <- <-]; now left|].
  destruct (existsb _ (ExcludeDirs b)); [intros [= <- <- <-]; now left|].
  destruct (relErr e); [intros [= <- <- <-]; now left|].
  destruct (String.eqb (relPath e) "."); [intros [= <- <- <-]; now left|].
  destruct (TransformPath (PathMapper b) (Join2 "/" (relPath e)))
    as [[transformed needsSymlink] terr].
  set (tp := match terr with Some _ => Join2 "/" (relPath e)
                           | None => transformed end).
  destruct (ValidatePath (PathValidator b) tp) eqn:Hv;
    [intros [= <- <- <-]; now left|].
  destruct (ValidatePathTraversal (PathValidator b) tp);
    [intros [= <- <- <-]; now left|].
  set (bq := if needsSymlink then _ else b).
  destruct (copy_entry os bq w e (Join2 (BuildDir b) tp)) as [w1 e1] eqn:Hcopy.
  intros [= <- <- <-]. right.
  exists (Join2 (BuildDir b) tp). split; [|exact Hcopy].
  apply Join2_under; [now split | assumption |].
  now apply (@ValidatePath_no_dotdot (PathValidator b) tp Hpol).
Qed.

End WalkTarget.

Section WalkTargetRuns.
Import Strings Filepath PathMapper Validator Symlink Builder.

Lemma walkFn_stays_in_build_dir_witness :
  snd (fst (walkFn MemFS.os builder0 data_world data_entry)) = data_world
  \/ exists targetPath,
       (targetPath = "/tmp/build"
        \/ HasPrefix targetPath ("/tmp/build" ++ "/") = true)
       /\ copy_entry MemFS.os
            (fst (fst (walkFn MemFS.os builder0 data_world data_entry)))
            data_world data_entry targetPath
          = (snd (fst (walkFn MemFS.os builder0 data_world data_entry)),
             snd (walkFn MemFS.os builder0 data_world data_entry)).
Proof.
  apply (@walkFn_stays_in_build_dir MemFS.os builder0
           (fst (fst (walkFn MemFS.os builder0 data_world data_entry)))
           data_world
           (snd (fst (walkFn MemFS.os builder0 data_world data_entry)))
           data_entry
           (snd (walkFn MemFS.os builder0 data_world data_entry)));
    try reflexivity.
  discriminate.
Defined.

End WalkTargetRuns.

(** ** The symlink command and an existing target *)

Section CreateCommand.
Import Strings Filepath PathMapper Validator Symlink SymlinkCommand.

Variable os : OS.
Variable Abs : string -> string * error.
Variable Stat : World os -> string -> error.
Variable Remove : World os -> string -> World os * error.

(** [QueueSymlink] refuses a request whose target exists. *)
Lemma QueueSymlink_existing_target (p : SymlinkProcessor) (w : World os)
    (request : SymlinkRequest) :
  Lstat os w (Symlink.Target request) = true ->
  exists msg, QueueSymlink os p w request = (p, Some msg).
Proof.
  intros Hex. unfold QueueSymlink, ValidateSymlink.
  destruct (ValidatePath (validator p) (Symlink.Source request));
    [eexists; reflexivity|].
  destruct (ValidatePath (validator p) (Symlink.Target request));
    [eexists; reflexivity|].
  destruct (forbidden (validator p) (Symlink.Target request));
    [eexists; reflexivity|].
  rewrite Hex. eexists. reflexivity.
Qed.

(** X18.  [runCreateCommand] and a target that exists: without [--force],
    or in a dry run even with [--force], the call returns an error and
    leaves the file system as it was.  In a dry run with [--force] the
    target is not removed, and [QueueSymlink] then refuses the request
    because its target exists. *)
Theorem runCreateCommand_existing_target
    (w : World os) (options : CommandOptions) (target : string) :
  Abs (Target options) = (target, None) ->
  Lstat os w target = true ->
  Force options = false \/ DryRun options = true ->
  exists msg,
    runCreateCommand os Abs Stat Remove w options = (w, Some msg).
Proof.
  intros Habs Hex Hmode. unfold runCreateCommand.
  destruct (Abs (Source options)) as [source [err|]];
    [eexists; reflexivity|].
  rewrite Habs.
  destruct (Stat w source); [eexists; reflexivity|].
  destruct (ValidatePath NewValidator target); [eexists; reflexivity|].
  destruct (ValidatePathTraversal NewValidator target);
    [eexists; reflexivity|].
  unfold create. rewrite Hex.
  destruct (Force options) eqn:Hf; cbn [negb];
    [|eexists; reflexivity].
  destruct Hmode as [Hm|Hm]; [discriminate|].
  rewrite Hm. cbn [negb].
  match goal with
  | |- context [QueueSymlink os ?p w ?r] =>
      destruct (@QueueSymlink_existing_target p w r Hex) as [msg ->]
  end.
  eexists. reflexivity.
Qed.

End CreateCommand.

Section CreateCommandRuns.
Import Strings Filepath PathMapper Validator Symlink SymlinkCommand.

(** A file system in memory with a file at the target. *)
Definition taken_world : World MemFS.os :=
  [("/opt/myapp/service.conf", MemFS.File "[Unit]" 420);
   ("/etc/systemd/system/myapp.service", MemFS.File "" 420)].

Definition mem_Abs (path : string) : string * error := (Clean path, None).

Definition mem_Stat (w : World MemFS.os) (path : string) : error :=
  if MemFS.Lstat w path then None
  else Errorf ("stat " ++ path ++ ": no such file or directory").

Definition mem_Remove (w : World MemFS.os) (path : string)
  : World MemFS.os * error :=
  (filter (fun e => negb (String.eqb (fst e) path)) w, None).

Definition forced_dry_run : CommandOptions := {|
  Verbose := false;
  DryRun := true;
  Source := "/opt/myapp/service.conf";
  Target := "/etc/systemd/system/myapp.service";
  Description := "";
  Force := true
|}.

Lemma runCreateCommand_existing_target_witness :
  exists msg,
    runCreateCommand MemFS.os mem_Abs mem_Stat mem_Remove taken_world
                     forced_dry_run
    = (taken_world, Some msg).
Proof.
  apply (@runCreateCommand_existing_target MemFS.os mem_Abs mem_Stat
           mem_Remove taken_world forced_dry_run
           "/etc/systemd/system/myapp.service").
  - reflexivity.
  - reflexivity.
  - right. reflexivity.
Defined.

(** The error of this run. *)
Example runCreateCommand_forced_dry_run :
  snd (runCreateCommand MemFS.os mem_Abs mem_Stat mem_Remove taken_world
                        forced_dry_run)
  = Some ("failed to queue symlink: symlink validation failed: "
            ++ "symlink target already exists: "
            ++ "/etc/systemd/system/myapp.service").
Proof. vm_compute. reflexivity. Qed.

End CreateCommandRuns.

(** ** The configuration *)

Section ConfigFacts.
Import Config.

(** X19.  [Config.Validate] returns what [log.Output] returns, the error
    of the write of the message to the log: when that write succeeds,
    [Validate] returns no error for every configuration, a required field
    that is empty included. *)
Theorem Config_Validate_returns_log_error
    (log_Output : Z -> string -> error) (c : Config) :
  (forall calldepth s, log_Output calldepth s = None) ->
  Validate log_Output c = None.
Proof.
  intros Hlog. unfold Validate.
  destruct (String.eqb (PackageName c) ""); [apply Hlog|].
  destruct (String.eqb (Version c) ""); [apply Hlog|].
  destruct (String.eqb (Maintainer c) ""); [apply Hlog | reflexivity].
Qed.

Definition empty_config : Config := {|
  PackageName := "";
  Version := "";
  Maintainer := "";
  Description := "";
  Architecture := "";
  Priority := "";
  Section_ := ""
|}.

Lemma Config_Validate_returns_log_error_witness :
  Validate (fun _ _ => None) empty_config = None.
Proof.
  apply (@Config_Validate_returns_log_error (fun _ _ => None) empty_config).
  reflexivity.
Defined.

End ConfigFacts.

(** ** The requests that the walk queues *)

Section WalkQueue.
Import Strings Filepath PathMapper Validator Symlink Builder.

Variable os : OS.






End WalkQueue.

Section WalkQueueRuns.
Import Strings Filepath PathMapper Validator Symlink Builder.

(** A desktop file of the source tree. *)
Definition desktop_entry : WalkEntry := {|
  srcPath := "/src/usr/share/applications/app.desktop";
  walkErr := None;
  isDir := false;
  mode := 420;
  relPath := "usr/share/applications/app.desktop";
  relErr := None
|}.

Definition desktop_world : World MemFS.os :=
  [("/src/usr/share/applications/app.desktop",
    MemFS.File "[Desktop Entry]" 420)].

Definition desktop_request : SymlinkRequest := {|
  Source := "/opt/usr/share/applications/app.desktop";
  Target := "/usr/share/applications/app.desktop";
  Description := "Automatically detected during build"
|}.


(** The queue of this run. *)
Example copyFiles_queues_desktop_file :
  symlinkQueue
    (Builder.SymlinkProcessor
       (fst (fst (copyFiles MemFS.os builder0 desktop_world [desktop_entry]))))
  = [desktop_request].
Proof. reflexivity. Qed.

End WalkQueueRuns.

(** ** Checks of the symlinks that decide nothing *)

Section SymlinkChecks.
Import Strings Filepath PathMapper Validator Symlink.

Variable os : OS.

Lemma forbidden_spec (v : Validator) (p : string) :
  forbidden v p = true <->
  exists f, In f (ForbiddenPaths (policy v))
            /\ (p = f \/ HasPrefix p (f ++ "/") = true).
Proof.
  unfold forbidden. rewrite existsb_exists. split.
  - intros (f & Hin & H). exists f. split; [assumption|].
    apply orb_true_iff in H as [H|H]; [left; now apply String.eqb_eq | now right].
  - intros (f & Hin & [->|H]); exists f; split; try assumption.
    + now rewrite String.eqb_refl.
    + rewrite H. apply orb_true_r.
Qed.

(** A path that [ValidatePath] accepts is not a forbidden path nor under
    one, as a text as well as normalized. *)
Lemma ValidatePath_not_forbidden (v : Validator) (path : string) :
  DisallowDotDot (policy v) = true ->
  Forall (fun f => HasPrefix f "/" = true /\ Clean f = f /\ f <> "/")
         (ForbiddenPaths (policy v)) ->
  ValidatePath v path = None ->
  forbidden v path = false.
Proof.
  intros Hpol Hforb Hok.
  destruct (forbidden v path) eqn:Hf; [exfalso | reflexivity].
  pose proof (@ValidatePath_no_dotdot v path Hpol Hok) as Hdd.
  apply ValidatePath_None in Hok as (_ & _ & _ & _ & Hclean).
  apply forbidden_spec in Hf as (f & Hin & Hcase).
  rewrite Forall_forall in Hforb.
  destruct (Hforb f Hin) as (Hroot & Hcf & Hnr).
  assert (Hgoal : forbidden v (Clean path) = true); [|congruence].
  apply forbidden_spec. exists f. split; [assumption|].
  destruct Hcase as [->|Hp]; [now left|].
  apply HasPrefix_inv in Hp.
  set (rest := drop (String.length (f ++ "/")) path) in Hp.
  rewrite append_assoc in Hp.
  assert (Hj : Clean path = Join2 f rest).
  { unfold Join2. destruct (String.eqb_spec f "") as [->|_]; [discriminate|].
    now rewrite <- Hp. }
  rewrite Hj. apply Join2_under; [now split | assumption |].
  intros Hin'. apply Hdd. rewrite Hp, Split_app_any.
  apply in_or_app. now right.
Qed.

(** X21.  The third check of [ValidateSymlink], of the target against the
    forbidden paths, decides nothing: [ValidatePath] has refused such a
    target before.  With a policy that disallows [..] and whose forbidden
    paths are normalized absolute paths other than the root, as those of
    the default policy are, [ValidateSymlink] never returns the error
    "symlink target points to forbidden path". *)
Theorem ValidateSymlink_forbidden_check_unreachable
    (v : Validator) (w : World os) (source target : string) :
  DisallowDotDot (policy v) = true ->
  Forall (fun f => HasPrefix f "/" = true /\ Clean f = f /\ f <> "/")
         (ForbiddenPaths (policy v)) ->
  ValidateSymlink os v w source target
  = match ValidatePath v source with
    | Some err => Errorf ("invalid symlink source: " ++ err)
    | None =>
        match ValidatePath v target with
        | Some err => Errorf ("invalid symlink target: " ++ err)
        | None =>
            if Lstat os w target then
              Errorf ("symlink target already exists: " ++ target)
            else if HasPrefix target source then
              Errorf ("symlink would create a cycle: "
                        ++ source ++ " -> " ++ target)
            else None
        end
    end.
Proof.
  intros Hpol Hforb. unfold ValidateSymlink.
  destruct (ValidatePath v source); [reflexivity|].
  destruct (ValidatePath v target) eqn:Ht; [reflexivity|].
  now rewrite (@ValidatePath_not_forbidden v target Hpol Hforb Ht).
Qed.

(** X22.  [ProcessQueuedSymlinks] drops the requests that failed with
    those that succeeded: the processor it returns has nothing left to
    retry, and a second call on it returns no error and leaves the file
    system as it is, whatever the first call returned. *)
Theorem ProcessQueuedSymlinks_twice
    (p : SymlinkProcessor) (w w' : World os) :
  ProcessQueuedSymlinks os (fst (fst (ProcessQueuedSymlinks os p w))) w'
  = (fst (fst (ProcessQueuedSymlinks os p w)), w', None).
Proof.
  pose proof (ProcessQueuedSymlinks_queue os p w) as Hq.
  unfold ProcessQueuedSymlinks at 1. now rewrite Hq.
Qed.

(** *** The directories of the symlink manager *)

(** The processor with another symlink manager. *)
Definition with_manager (p : SymlinkProcessor) (sm : SymlinkManager)
  : SymlinkProcessor := {|
  pathMapper := pathMapper p;
  symlinkManager := sm;
  validator := validator p;
  symlinkQueue := symlinkQueue p;
  verbose := verbose p;
  dryRun := dryRun p
|}.

Lemma process_queue_manager (p : SymlinkProcessor) (sm : SymlinkManager)
    (w : World os) (queue : list SymlinkRequest) (errs : list string) :
  process_queue os (with_manager p sm) w queue errs
  = process_queue os p w queue errs.
Proof.
  revert w errs; induction queue as [|r q IH]; intros w errs; simpl;
    [reflexivity|].
  change (createSymlink os (with_manager p sm) w r)
    with (createSymlink os p w r).
  destruct (createSymlink os p w r) as [w1 [e|]]; apply IH.
Qed.

(** X23.  The directories that a symlink manager is made with are read by
    [IsSymlinkAllowed] only, which the processor never calls: with
    another manager, [QueueSymlink] queues the same requests with the
    same errors and [ProcessQueuedSymlinks] makes the same changes to the
    file system and returns the same error. *)
Theorem symlink_manager_dirs_not_enforced
    (p : SymlinkProcessor) (sm : SymlinkManager) (w : World os)
    (request : SymlinkRequest) :
  QueueSymlink os (with_manager p sm) w request
  = (with_manager (fst (QueueSymlink os p w request)) sm,
     snd (QueueSymlink os p w request))
  /\ ProcessQueuedSymlinks os (with_manager p sm) w
     = (with_manager (fst (fst (ProcessQueuedSymlinks os p w))) sm,
        snd (fst (ProcessQueuedSymlinks os p w)),
        snd (ProcessQueuedSymlinks os p w)).
Proof.
  split.
  - unfold QueueSymlink. cbn [with_manager validator symlinkQueue].
    destruct (ValidatePath (validator p) (Source request)); [reflexivity|].
    destruct (ValidatePath (validator p) (Target request)); [reflexivity|].
    destruct (ValidateSymlink os (validator p) w _ _); [reflexivity|].
    destruct (existsb _ (symlinkQueue p)); reflexivity.
  - unfold ProcessQueuedSymlinks. cbn [with_manager symlinkQueue].
    destruct (symlinkQueue p) as [|r q] eqn:Hq; [reflexivity|].
    change (process_queue os
              {| pathMapper := pathMapper p; symlinkManager := sm;
                 validator := validator p; symlinkQueue := symlinkQueue p;
                 verbose := verbose p; dryRun := dryRun p |})
      with (process_queue os (with_manager p sm)).
    rewrite process_queue_manager.
    destruct (process_queue os p w (r :: q) []) as [w1 errs].
    destruct (0 <? Z.of_nat (List.length errs))%Z; reflexivity.
Qed.

End SymlinkChecks.

Section SymlinkChecksRuns.
Import Strings Filepath PathMapper Validator Symlink Builder.

Lemma ValidateSymlink_forbidden_check_unreachable_witness :
  ValidateSymlink MemFS.os NewValidator []
                  "/opt/usr/bin/tool" "/usr/bin/tool"
  = Errorf "invalid symlink target: path access forbidden: /usr/bin/tool".
Proof.
  rewrite (@ValidateSymlink_forbidden_check_unreachable MemFS.os
             NewValidator [] "/opt/usr/bin/tool" "/usr/bin/tool").
  - reflexivity.
  - reflexivity.
  - repeat constructor; discriminate.
Defined.

(** A directory that the manager of the builder does not allow, and a
    symlink made in it. *)
Example symlink_outside_manager_dirs :
  IsSymlinkAllowed (symlinkManager processor0) "/system/bin" = false
  /\ snd (QueueSymlink MemFS.os processor0 [] app_request) = None
  /\ MemFS.lookup
       (snd (fst (ProcessQueuedSymlinks MemFS.os
                    (fst (QueueSymlink MemFS.os processor0 [] app_request))
                    [])))
       "/system/bin/app"
     = Some (MemFS.Link "/opt/secure/bin/app").
Proof. vm_compute. repeat split. Qed.

End SymlinkChecksRuns.
